(** * Session relay of the chat/call signalling server

    A shallow embedding of the server half of [src/services/webRTC.js]
    (the WebSocket handlers and the four in-memory registries), followed by
    the properties of the specification that were checked against it.

    Conventions of the embedding:
    - a JS [Map] is an association list in insertion order ([Map_get],
      [Map_set], [Map_delete]);
    - an envelope field is a string or absent ([field]); truthiness is
      [truthy]; a username is any JSON value or absent ([name]), since the
      code compares it with [===] ([strict_equal]) whatever it is;
    - arrays that the code shares between objects ([room.participants],
      [call.participants]) live in [arrayHeap] and are named by an index;
      user objects, shared between [users] and [clients], live in
      [userHeap];
    - a WebSocket is named by the client id of its connection, its
      [readyState] is kept in [sockets];
    - [ws.send(JSON.stringify(m))] is recorded as an output [Sent ws m],
      the payload being the value of [m] at the time of the call;
    - [generateId()] and [new Date().toISOString()] are inputs of the
      handler that calls them ([gen], [now]); the clock is read once per
      event. *)

From stdpp Require Import base list strings pretty.

Local Open Scope string_scope.
Local Open Scope list_scope.
Local Open Scope nat_scope.

(** ** JS [Map] with insertion order *)

Section js_map.
Context {K V : Type} `{EqDecision K}.

Fixpoint Map_get (k : K) (m : list (K * V)) : option V :=
  match m with
  | [] => None
  | (k', v) :: m' => if decide (k' = k) then Some v else Map_get k m'
  end.

Definition Map_has (k : K) (m : list (K * V)) : bool :=
  match Map_get k m with Some _ => true | None => false end.

(** [set] keeps the position of an existing key and appends a new one. *)
Fixpoint Map_set (k : K) (v : V) (m : list (K * V)) : list (K * V) :=
  match m with
  | [] => [(k, v)]
  | (k', v') :: m' =>
      if decide (k' = k) then (k, v) :: m' else (k', v') :: Map_set k v m'
  end.

Definition Map_delete (k : K) (m : list (K * V)) : list (K * V) :=
  filter (λ kv, kv.1 ≠ k) m.

End js_map.

(** ** Values *)

(** A field of an envelope: absent ([undefined]) or a string. *)
Definition field := option string.

Definition truthy (f : field) : bool :=
  match f with
  | Some v => negb (bool_decide (v = ""))
  | None => false
  end.

(** Template-literal rendering of a field. *)
Definition render (f : field) : string :=
  match f with Some v => v | None => "undefined" end.

(** [a.includes(x)] *)
Definition includes (x : field) (a : list field) : bool :=
  bool_decide (x ∈ a).

(** [a.slice(-n)] *)
Definition slice_last {A} (n : nat) (a : list A) : list A :=
  drop (length a - n) a.

Inductive readyState := CONNECTING | OPEN | CLOSING | CLOSED.

#[global] Instance readyState_eq_dec : EqDecision readyState.
Proof. solve_decision. Defined.

(** A JSON value as [JSON.parse] returns it. A number is given by its
    canonical rendering ([String(x)]): two parsed numbers are [===] exactly
    when they render alike. *)
#[warnings="-register-all"]
Inductive json :=
| JNull
| JBool (b : bool)
| JNumber (repr : string)
| JString (s : string)
| JArray (elems : list json)
| JObject (members : list (string * json)).

#[global] Instance json_eq_dec : EqDecision json.
Proof.
  refine (fix go (a b : json) {struct a} : Decision (a = b) :=
    match a, b with
    | JNull, JNull => left _
    | JBool x, JBool y => cast_if (decide (x = y))
    | JNumber x, JNumber y => cast_if (decide (x = y))
    | JString x, JString y => cast_if (decide (x = y))
    | JArray l, JArray l' => cast_if (@list_eq_dec _ go l l')
    | JObject l, JObject l' =>
        cast_if (@list_eq_dec _ (@prod_eq_dec _ _ _ go) l l')
    | _, _ => right _
    end); abstract congruence.
Defined.

(** A username: absent ([undefined]) or any JSON value. *)
Definition name := option json.

(** [stored === parsed], where [parsed] comes out of the message being
    handled: [undefined], [null], booleans, numbers and strings are compared
    by value; an array or an object is a reference, and the one just parsed
    is a new one, equal to nothing that is stored. *)
Definition strict_equal (stored parsed : name) : bool :=
  match stored, parsed with
  | None, None => true
  | Some JNull, Some JNull => true
  | Some (JBool a), Some (JBool b) => bool_decide (a = b)
  | Some (JNumber a), Some (JNumber b) => bool_decide (a = b)
  | Some (JString a), Some (JString b) => bool_decide (a = b)
  | _, _ => false
  end.

(** The usernames that [===] compares by value. *)
Definition by_value (n : name) : bool :=
  match n with
  | Some (JArray _) | Some (JObject _) => false
  | _ => true
  end.

(** [a.join(sep)] on strings. *)
Fixpoint join (sep : string) (l : list string) : string :=
  match l with
  | [] => ""
  | [x] => x
  | x :: l' => String.append x (String.append sep (join sep l'))
  end.

(** Template-literal rendering of a JSON value: an array renders as its
    elements joined by commas, with [null] elements left empty. *)
Fixpoint render_json (v : json) : string :=
  match v with
  | JNull => "null"
  | JBool b => if b then "true" else "false"
  | JNumber repr => repr
  | JString s => s
  | JArray elems =>
      join ","
        (List.map (λ e, match e with JNull => "" | _ => render_json e end) elems)
  | JObject _ => "[object Object]"
  end.

Definition render_name (n : name) : string :=
  match n with Some v => render_json v | None => "undefined" end.

(** References into [userHeap] and [arrayHeap]. *)
Abbreviation uref := nat.
Abbreviation aref := nat.

Record user := mkUser {
  user_id : string;
  user_username : name;
  user_avatar : string;
  user_status : field;
  user_lastSeen : string }.

Record client := mkClient {
  ws : string;
  client_user : uref }.

Record messageData := mkMessage {
  msg_id : string;
  msg_from : string;
  msg_to : field;
  msg_content : field;
  msg_messageType : string;
  msg_timestamp : string;
  msg_roomId : field }.

(** A room; [P] is how the participant array is held: by reference in the
    registry, by value once serialised. *)
Record room_ (P : Type) := mkRoom {
  room_id : field;
  room_name : string;
  participants : P;
  messages : list messageData;
  createdAt : string }.
Arguments mkRoom {P}.
Arguments room_id {P}.
Arguments room_name {P}.
Arguments participants {P}.
Arguments messages {P}.
Arguments createdAt {P}.

Definition room := room_ aref.
Definition roomView := room_ (list field).

Inductive callStatus := ringing | active | rejected | ended.

#[global] Instance callStatus_eq_dec : EqDecision callStatus.
Proof. solve_decision. Defined.

Record call_ (P : Type) := mkCall {
  call_id : string;
  initiator : string;
  call_participants : P;
  callType : field;
  call_status : callStatus;
  startTime : string;
  call_roomId : field;
  answeredBy : option string;
  answerTime : option string;
  rejectedBy : option string;
  endTime : option string;
  endedBy : option string }.
Arguments mkCall {P}.
Arguments call_id {P}.
Arguments initiator {P}.
Arguments call_participants {P}.
Arguments callType {P}.
Arguments call_status {P}.
Arguments startTime {P}.
Arguments call_roomId {P}.
Arguments answeredBy {P}.
Arguments answerTime {P}.
Arguments rejectedBy {P}.
Arguments endTime {P}.
Arguments endedBy {P}.

Definition call := call_ aref.
Definition callView := call_ (list field).

(** ** Envelopes and server events *)

Inductive envelope :=
| USER_REGISTER (username : name) (avatar : field)
| USER_LOGIN (username : name)
| GET_USERS
| SEND_MESSAGE (to content messageType roomId : field)
| JOIN_ROOM (roomId roomName : field)
| LEAVE_ROOM (roomId : field)
| INITIATE_CALL (to callType roomId : field)
| ANSWER_CALL (callId : field)
| REJECT_CALL (callId : field)
| END_CALL (callId : field)
| WEBRTC (kind : string) (to callId : field) (opaque : string)
| TYPING (kind : string) (to roomId : field)
| USER_STATUS_CHANGE (status : field)
| UNKNOWN (kind : string).

Inductive payload :=
| CONNECTED (clientId timestamp : string)
| ERROR_USERNAME_EXISTS (username : name)
| ERROR_USER_NOT_FOUND
| USER_REGISTERED (u : user)
| USER_JOINED (u : user)
| USER_LOGGED_IN (u : user)
| USER_STATUS_UPDATE (userId : string) (status : field) (lastSeen : option string)
| USERS_LIST (us : list user)
| NEW_MESSAGE (m : messageData)
| MESSAGE_SENT (m : messageData)
| ROOM_JOINED (r : roomView)
| USER_JOINED_ROOM (userId : string) (username : name)
| USER_LEFT_ROOM (userId : string)
| INCOMING_CALL (c : callView)
| CALL_INITIATED (c : callView)
| CALL_ANSWERED (c : callView)
| CALL_REJECTED (c : callView)
| CALL_ENDED (c : callView)
| RELAY (message : envelope) (from : string) (username : option name).

(** One [ws.send]: the socket and what was serialised. *)
Record sent := Sent { dest : string; body : payload }.

(** ** The registries *)

Record state := mkState {
  sockets : list (string * readyState);
  clients : list (string * client);
  users : list (string * uref);
  chatRooms : list (field * room);
  activeCalls : list (string * call);
  userHeap : list user;
  arrayHeap : list (list field) }.

Definition initial : state := mkState [] [] [] [] [] [] [].

Definition with_sockets (f : list (string * readyState) → list (string * readyState)) (s : state) :=
  mkState (f (sockets s)) (clients s) (users s) (chatRooms s) (activeCalls s)
    (userHeap s) (arrayHeap s).
Definition with_clients (f : list (string * client) → list (string * client)) (s : state) :=
  mkState (sockets s) (f (clients s)) (users s) (chatRooms s) (activeCalls s)
    (userHeap s) (arrayHeap s).
Definition with_users (f : list (string * uref) → list (string * uref)) (s : state) :=
  mkState (sockets s) (clients s) (f (users s)) (chatRooms s) (activeCalls s)
    (userHeap s) (arrayHeap s).
Definition with_chatRooms (f : list (field * room) → list (field * room)) (s : state) :=
  mkState (sockets s) (clients s) (users s) (f (chatRooms s)) (activeCalls s)
    (userHeap s) (arrayHeap s).
Definition with_activeCalls (f : list (string * call) → list (string * call)) (s : state) :=
  mkState (sockets s) (clients s) (users s) (chatRooms s) (f (activeCalls s))
    (userHeap s) (arrayHeap s).
Definition with_userHeap (f : list user → list user) (s : state) :=
  mkState (sockets s) (clients s) (users s) (chatRooms s) (activeCalls s)
    (f (userHeap s)) (arrayHeap s).
Definition with_arrayHeap (f : list (list field) → list (list field)) (s : state) :=
  mkState (sockets s) (clients s) (users s) (chatRooms s) (activeCalls s)
    (userHeap s) (f (arrayHeap s)).

(** The array behind a reference, and a fresh array. *)
Definition array (s : state) (r : aref) : list field :=
  default [] (arrayHeap s !! r).

Definition new_array (a : list field) (s : state) : state * aref :=
  (with_arrayHeap (λ h, h ++ [a]) s, length (arrayHeap s)).

(** [a.push(x)] on the array behind [r]. *)
Definition push (r : aref) (x : field) (s : state) : state :=
  with_arrayHeap (λ h, <[r := array s r ++ [x]]> h) s.

Definition Map_get_field {V} (k : field) (m : list (string * V)) : option V :=
  match k with
  | Some k' => Map_get k' m
  | None => None
  end.

Definition roomSnapshot (s : state) (r : room) (ms : list messageData) : roomView :=
  mkRoom (room_id r) (room_name r) (array s (participants r)) ms (createdAt r).

Definition callSnapshot (s : state) (c : call) : callView :=
  mkCall (call_id c) (initiator c) (array s (call_participants c)) (callType c)
    (call_status c) (startTime c) (call_roomId c) (answeredBy c) (answerTime c)
    (rejectedBy c) (endTime c) (endedBy c).

(** ** Helper functions *)

Definition isOpen (s : state) (w : string) : bool :=
  bool_decide (Map_get w (sockets s) = Some OPEN).

(** [participantId !== excludeId], [excludeId] being [null] or a client id. *)
Definition differs (participantId : field) (excludeId : option string) : bool :=
  match excludeId with
  | None => true
  | Some e => bool_decide (participantId ≠ Some e)
  end.

Definition sendToUser (s : state) (userId : field) (message : payload) : list sent :=
  match Map_get_field userId (clients s) with
  | Some c => if isOpen s (ws c) then [Sent (ws c) message] else []
  | None => []
  end.

Definition broadcastToRoom (s : state) (roomId : field) (message : payload)
    (excludeId : option string) : list sent :=
  match Map_get roomId (chatRooms s) with
  | None => []
  | Some r =>
      flat_map (λ participantId,
        if differs participantId excludeId then
          match Map_get_field participantId (clients s) with
          | Some c => if isOpen s (ws c) then [Sent (ws c) message] else []
          | None => []
          end
        else []) (array s (participants r))
  end.

Definition broadcastToAll (s : state) (message : payload)
    (excludeId : option string) : list sent :=
  flat_map (λ '(clientId, c),
    if differs (Some clientId) excludeId && isOpen s (ws c)
    then [Sent (ws c) message] else []) (clients s).

(** ** Message handlers *)

Definition has_username (s : state) (username : name) (e : string * uref) : bool :=
  match userHeap s !! e.2 with
  | Some userData => strict_equal (user_username userData) username
  | None => false
  end.

Definition handleUserRegister (s : state) (clientId : string)
    (username : name) (avatar : field) (w : string) (now : string)
    : state * list sent :=
  if existsb (has_username s username) (users s) then
    (s, [Sent w (ERROR_USERNAME_EXISTS username)])
  else
    let u := mkUser clientId username
      (if truthy avatar then render avatar
       else String.append "https://api.dicebear.com/7.x/avataaars/svg?seed="
              (render_name username))
      (Some "online") now in
    let r := length (userHeap s) in
    let s1 := with_userHeap (λ h, h ++ [u]) s in
    let s2 := with_users (Map_set clientId r) s1 in
    let s3 := with_clients (Map_set clientId (mkClient w r)) s2 in
    (s3, Sent w (USER_REGISTERED u)
           :: broadcastToAll s3 (USER_JOINED u) (Some clientId)).

Definition handleUserLogin (s : state) (clientId : string) (username : name)
    (w : string) (now : string) : state * list sent :=
  match find (has_username s username) (users s) with
  | None => (s, [Sent w ERROR_USER_NOT_FOUND])
  | Some (id, r) =>
      match userHeap s !! r with
      | None => (s, [Sent w ERROR_USER_NOT_FOUND])
      | Some existingUser =>
          let s1 := with_users (Map_delete id) s in
          let u := mkUser clientId (user_username existingUser)
                     (user_avatar existingUser) (Some "online") now in
          let s2 := with_userHeap (λ h, <[r := u]> h) s1 in
          let s3 := with_users (Map_set clientId r) s2 in
          let s4 := with_clients (Map_set clientId (mkClient w r)) s3 in
          (s4, Sent w (USER_LOGGED_IN u)
                 :: broadcastToAll s4
                      (USER_STATUS_UPDATE clientId (Some "online") None)
                      (Some clientId))
      end
  end.

Definition handleGetUsers (s : state) (clientId : string) : state * list sent :=
  let allUsers :=
    filter (λ u, user_id u ≠ clientId)
      (omap (λ e : string * uref, userHeap s !! e.2) (users s)) in
  match Map_get clientId (clients s) with
  | Some c => (s, [Sent (ws c) (USERS_LIST allUsers)])
  | None => (s, [])
  end.

Definition handleSendMessage (s : state) (clientId : string)
    (to content messageType roomId : field) (gen now : string)
    : state * list sent :=
  match Map_get clientId (clients s) with
  | None => (s, [])
  | Some c =>
      let messageData :=
        mkMessage gen clientId to content (default "text" messageType) now roomId in
      if truthy roomId then
        match Map_get roomId (chatRooms s) with
        | Some r =>
            let r' := mkRoom (room_id r) (room_name r) (participants r)
                        (messages r ++ [messageData]) (createdAt r) in
            let s1 := with_chatRooms (Map_set roomId r') s in
            (s1, broadcastToRoom s1 roomId (NEW_MESSAGE messageData) None)
        | None => (s, [])
        end
      else if truthy to then
        (s, sendToUser s to (NEW_MESSAGE messageData)
              ++ [Sent (ws c) (MESSAGE_SENT messageData)])
      else (s, [])
  end.

Definition handleJoinRoom (s : state) (clientId : string)
    (roomId roomName : field) (now : string) : state * list sent :=
  let s1 :=
    if Map_has roomId (chatRooms s) then s
    else
      let '(s0, a) := new_array [] s in
      with_chatRooms
        (Map_set roomId
           (mkRoom roomId
              (if truthy roomName then render roomName
               else String.append "Room " (render roomId))
              a [] now)) s0 in
  match Map_get roomId (chatRooms s1) with
  | None => (s1, [])
  | Some r =>
      let s2 :=
        if includes (Some clientId) (array s1 (participants r)) then s1
        else push (participants r) (Some clientId) s1 in
      let client := Map_get clientId (clients s2) in
      let joined :=
        match client with
        | Some c =>
            [Sent (ws c)
               (ROOM_JOINED (roomSnapshot s2 r (slice_last 50 (messages r))))]
        | None => []
        end in
      (s2, joined
             ++ broadcastToRoom s2 roomId
                  (USER_JOINED_ROOM clientId
                     (c ← client; u ← userHeap s2 !! client_user c; user_username u))
                  (Some clientId))
  end.

(** [room.participants = room.participants.filter(id => id !== clientId)]:
    the room gets a new array, the old one is left as it was. *)
Definition dropParticipant (s : state) (roomId : field) (r : room)
    (clientId : string) : state :=
  let '(s1, a) :=
    new_array (filter (λ id, id ≠ Some clientId) (array s (participants r))) s in
  with_chatRooms
    (Map_set roomId
       (mkRoom (room_id r) (room_name r) a (messages r) (createdAt r))) s1.

Definition handleLeaveRoom (s : state) (clientId : string) (roomId : field)
    : state * list sent :=
  match Map_get roomId (chatRooms s) with
  | Some r =>
      let s1 := dropParticipant s roomId r clientId in
      (s1, broadcastToRoom s1 roomId (USER_LEFT_ROOM clientId) (Some clientId))
  | None => (s, [])
  end.

Definition handleInitiateCall (s : state) (clientId : string)
    (to callType roomId : field) (gen now : string) : state * list sent :=
  let callId := gen in
  let '(s1, ps) :=
    if truthy roomId then
      match Map_get roomId (chatRooms s) with
      | Some r => (s, participants r)
      | None => new_array [] s
      end
    else new_array [Some clientId; to] s in
  let callData :=
    mkCall callId clientId ps callType ringing now roomId None None None None None in
  let s2 := with_activeCalls (Map_set callId callData) s1 in
  let incoming :=
    if truthy roomId then
      broadcastToRoom s2 roomId (INCOMING_CALL (callSnapshot s2 callData))
        (Some clientId)
    else sendToUser s2 to (INCOMING_CALL (callSnapshot s2 callData)) in
  (s2, incoming
         ++ match Map_get clientId (clients s2) with
            | Some c => [Sent (ws c) (CALL_INITIATED (callSnapshot s2 callData))]
            | None => []
            end).

(** [call.participants.forEach(p => sendToUser(p, message))] *)
Definition notifyParticipants (s : state) (c : call) (message : payload)
    : list sent :=
  flat_map (λ participantId, sendToUser s participantId message)
    (array s (call_participants c)).

Definition handleAnswerCall (s : state) (clientId : string) (callId : field)
    (now : string) : state * list sent :=
  match callId with
  | None => (s, [])
  | Some k =>
      match Map_get k (activeCalls s) with
      | Some c =>
          let c' := mkCall (call_id c) (initiator c) (call_participants c)
                      (callType c) active (startTime c) (call_roomId c)
                      (Some clientId) (Some now) (rejectedBy c) (endTime c)
                      (endedBy c) in
          let s1 := with_activeCalls (Map_set k c') s in
          (s1, notifyParticipants s1 c' (CALL_ANSWERED (callSnapshot s1 c')))
      | None => (s, [])
      end
  end.

Definition handleRejectCall (s : state) (clientId : string) (callId : field)
    (now : string) : state * list sent :=
  match callId with
  | None => (s, [])
  | Some k =>
      match Map_get k (activeCalls s) with
      | Some c =>
          let c' := mkCall (call_id c) (initiator c) (call_participants c)
                      (callType c) rejected (startTime c) (call_roomId c)
                      (answeredBy c) (answerTime c) (Some clientId) (Some now)
                      (endedBy c) in
          let s1 := with_activeCalls (Map_set k c') s in
          (with_activeCalls (Map_delete k) s1,
           notifyParticipants s1 c' (CALL_REJECTED (callSnapshot s1 c')))
      | None => (s, [])
      end
  end.

Definition handleEndCall (s : state) (clientId : string) (callId : field)
    (now : string) : state * list sent :=
  match callId with
  | None => (s, [])
  | Some k =>
      match Map_get k (activeCalls s) with
      | Some c =>
          let c' := mkCall (call_id c) (initiator c) (call_participants c)
                      (callType c) ended (startTime c) (call_roomId c)
                      (answeredBy c) (answerTime c) (rejectedBy c) (Some now)
                      (Some clientId) in
          let s1 := with_activeCalls (Map_set k c') s in
          (with_activeCalls (Map_delete k) s1,
           notifyParticipants s1 c' (CALL_ENDED (callSnapshot s1 c')))
      | None => (s, [])
      end
  end.

Definition handleWebRTCSignaling (s : state) (clientId : string)
    (message : envelope) (to callId : field) : state * list sent :=
  if truthy to then (s, sendToUser s to (RELAY message clientId None))
  else if truthy callId then
    match Map_get_field callId (activeCalls s) with
    | Some c =>
        (s, flat_map (λ participantId,
               if bool_decide (participantId ≠ Some clientId)
               then sendToUser s participantId (RELAY message clientId None)
               else []) (array s (call_participants c)))
    | None => (s, [])
    end
  else (s, []).

Definition handleTyping (s : state) (clientId : string) (message : envelope)
    (to roomId : field) : state * list sent :=
  match Map_get clientId (clients s) with
  | None => (s, [])
  | Some c =>
      let typingMessage :=
        RELAY message clientId
          (Some (u ← userHeap s !! client_user c; user_username u)) in
      if truthy roomId then
        (s, broadcastToRoom s roomId typingMessage (Some clientId))
      else if truthy to then (s, sendToUser s to typingMessage)
      else (s, [])
  end.

Definition handleUserStatusChange (s : state) (clientId : string)
    (status : field) (now : string) : state * list sent :=
  match Map_get clientId (users s) with
  | Some r =>
      match userHeap s !! r with
      | Some u =>
          let u' := mkUser (user_id u) (user_username u) (user_avatar u) status now in
          let s1 := with_userHeap (λ h, <[r := u']> h) s in
          (s1, broadcastToAll s1
                 (USER_STATUS_UPDATE clientId status (Some now)) (Some clientId))
      | None => (s, [])
      end
  | None => (s, [])
  end.

(** The two loops of [handleDisconnect], over the entries of [activeCalls]
    and of [chatRooms]. *)
Fixpoint endCallsOf (entries : list (string * call)) (clientId now : string)
    (s : state) : state * list sent :=
  match entries with
  | [] => (s, [])
  | (callId, c) :: rest =>
      if includes (Some clientId) (array s (call_participants c)) then
        let '(s1, o1) := handleEndCall s clientId (Some callId) now in
        let '(s2, o2) := endCallsOf rest clientId now s1 in
        (s2, o1 ++ o2)
      else endCallsOf rest clientId now s
  end.

Fixpoint leaveRoomsOf (entries : list (field * room)) (clientId : string)
    (s : state) : state * list sent :=
  match entries with
  | [] => (s, [])
  | (roomId, r) :: rest =>
      if includes (Some clientId) (array s (participants r)) then
        let s1 := dropParticipant s roomId r clientId in
        let o1 := broadcastToRoom s1 roomId (USER_LEFT_ROOM clientId)
                    (Some clientId) in
        let '(s2, o2) := leaveRoomsOf rest clientId s1 in
        (s2, o1 ++ o2)
      else leaveRoomsOf rest clientId s
  end.

Definition handleDisconnect (s : state) (clientId : string) (now : string)
    : state * list sent :=
  let '(s4, out) :=
    match Map_get clientId (clients s) with
    | Some c =>
        let s1 :=
          match userHeap s !! client_user c with
          | Some u =>
              with_userHeap
                (λ h, <[client_user c :=
                          mkUser (user_id u) (user_username u) (user_avatar u)
                            (Some "offline") now]> h) s
          | None => s
          end in
        let o1 := broadcastToAll s1
                    (USER_STATUS_UPDATE clientId (Some "offline") (Some now))
                    (Some clientId) in
        let '(s2, o2) := endCallsOf (activeCalls s1) clientId now s1 in
        let '(s3, o3) := leaveRoomsOf (chatRooms s2) clientId s2 in
        (s3, o1 ++ o2 ++ o3)
    | None => (s, [])
    end in
  (with_clients (Map_delete clientId) s4, out).

(** ** The connection handler *)

(** The [switch] on [message.type]; [data] is [None] when [JSON.parse]
    throws. The socket handed to register and login is the connection's. *)
Definition onMessage (s : state) (clientId : string) (data : option envelope)
    (gen now : string) : state * list sent :=
  match data with
  | None => (s, [])
  | Some message =>
      match message with
      | USER_REGISTER username avatar =>
          handleUserRegister s clientId username avatar clientId now
      | USER_LOGIN username => handleUserLogin s clientId username clientId now
      | GET_USERS => handleGetUsers s clientId
      | SEND_MESSAGE to content messageType roomId =>
          handleSendMessage s clientId to content messageType roomId gen now
      | JOIN_ROOM roomId roomName => handleJoinRoom s clientId roomId roomName now
      | LEAVE_ROOM roomId => handleLeaveRoom s clientId roomId
      | INITIATE_CALL to callType roomId =>
          handleInitiateCall s clientId to callType roomId gen now
      | ANSWER_CALL callId => handleAnswerCall s clientId callId now
      | REJECT_CALL callId => handleRejectCall s clientId callId now
      | END_CALL callId => handleEndCall s clientId callId now
      | WEBRTC _ to callId _ => handleWebRTCSignaling s clientId message to callId
      | TYPING _ to roomId => handleTyping s clientId message to roomId
      | USER_STATUS_CHANGE status => handleUserStatusChange s clientId status now
      | UNKNOWN _ => (s, [])
      end
  end.

(** What the transport can do to the server. [EvClosing] is a socket leaving
    [OPEN] before its close event is handled. *)
Inductive event :=
| EvConnection (clientId now : string)
| EvMessage (clientId : string) (data : option envelope) (gen now : string)
| EvClosing (clientId : string)
| EvClose (clientId now : string)
| EvError (clientId : string).

Definition step (s : state) (e : event) : option (state * list sent) :=
  match e with
  | EvConnection clientId now =>
      match Map_get clientId (sockets s) with
      | None =>
          Some (with_sockets (Map_set clientId OPEN) s,
                [Sent clientId (CONNECTED clientId now)])
      | Some _ => None
      end
  | EvMessage clientId data gen now =>
      match Map_get clientId (sockets s) with
      | Some OPEN | Some CLOSING => Some (onMessage s clientId data gen now)
      | _ => None
      end
  | EvClosing clientId =>
      match Map_get clientId (sockets s) with
      | Some OPEN => Some (with_sockets (Map_set clientId CLOSING) s, [])
      | _ => None
      end
  | EvClose clientId now =>
      match Map_get clientId (sockets s) with
      | Some OPEN | Some CLOSING =>
          Some (handleDisconnect (with_sockets (Map_set clientId CLOSED) s)
                  clientId now)
      | _ => None
      end
  | EvError clientId =>
      match Map_get clientId (sockets s) with
      | Some _ => Some (s, [])
      | None => None
      end
  end.

Fixpoint run (s : state) (tr : list event) : option (state * list sent) :=
  match tr with
  | [] => Some (s, [])
  | e :: tr' =>
      match step s e with
      | Some (s1, o1) =>
          match run s1 tr' with
          | Some (s2, o2) => Some (s2, o1 ++ o2)
          | None => None
          end
      | None => None
      end
  end.

Definition reachable (s : state) : Prop :=
  ∃ tr out, run initial tr = Some (s, out).

(** ** Observations used by the properties *)

(** [Array.from(users.values())] and the usernames in the directory. *)
Definition registered (s : state) : list user :=
  omap (λ e : string * uref, userHeap s !! e.2) (users s).

Definition usernames (s : state) : list name :=
  user_username <$> registered s.

(** A participant the server can deliver to: bound in [clients], socket
    [OPEN]. *)
Definition resolvable (s : state) (p : field) (c : client) : Prop :=
  Map_get_field p (clients s) = Some c ∧ isOpen s (ws c) = true.


(** Number of [NEW_MESSAGE] events sent to a socket. *)
Definition isNewMessage (p : payload) : bool :=
  match p with NEW_MESSAGE _ => true | _ => false end.

Definition newMessagesTo (w : string) (out : list sent) : nat :=
  length (filter (λ o, dest o = w ∧ isNewMessage (body o) = true) out).

(** ** Scenarios

    Concrete runs used to exercise the properties. [after tr] is the state
    the server is in once it has handled [tr]. *)

Definition after (tr : list event) : state :=
  match run initial tr with
  | Some (s, _) => s
  | None => initial
  end.

Definition outputs (tr : list event) : list sent :=
  match run initial tr with
  | Some (_, out) => out
  | None => []
  end.

Definition enter (clientId username roomId : string) : list event :=
  [ EvConnection clientId "09:00";
    EvMessage clientId (Some (USER_REGISTER (Some (JString username)) None)) "-" "09:01";
    EvMessage clientId (Some (JOIN_ROOM (Some roomId) None)) "-" "09:02" ].

Definition roomOfThree : list event :=
  enter "A" "alice" "R" ++ enter "B" "bob" "R" ++ enter "C" "carol" "R".

Definition roomMessage (clientId roomId gen : string) : event :=
  EvMessage clientId
    (Some (SEND_MESSAGE None (Some "hello") None (Some roomId))) gen "09:10".

(** [A] alone in room [R] posts [n] messages. *)
Definition flood (n : nat) : list event :=
  enter "A" "alice" "R"
    ++ ((λ i, roomMessage "A" "R" (String.append "m" (pretty i))) <$> seq 0 n).

(** [A] calls [B] directly and [B] answers. *)
Definition answeredCall : list event :=
  [ EvConnection "A" "09:00";
    EvMessage "A" (Some (USER_REGISTER (Some (JString "alice")) None)) "-" "09:01";
    EvConnection "B" "09:02";
    EvMessage "B" (Some (USER_REGISTER (Some (JString "bob")) None)) "-" "09:03";
    EvConnection "C" "09:04";
    EvMessage "C" (Some (USER_REGISTER (Some (JString "carol")) None)) "-" "09:05";
    EvMessage "A" (Some (INITIATE_CALL (Some "B") (Some "audio") None)) "call1" "09:06";
    EvMessage "B" (Some (ANSWER_CALL (Some "call1"))) "-" "09:07" ].


(** [A], [B] and [C] are in room [R] and [A] starts a conference call. *)
Definition conference : list event :=
  roomOfThree
    ++ [EvMessage "A" (Some (INITIATE_CALL None (Some "video") (Some "R")))
          "call1" "09:05"].



(** [A], [B] and [C] are in room [R]; [D] has connected and not yet
    registered. *)
Definition withVisitor : list event :=
  roomOfThree ++ [EvConnection "D" "09:15"].


(** A connection that joins a room without registering. *)
Definition anonymousJoin : list event :=
  [ EvConnection "X" "09:00";
    EvMessage "X" (Some (JOIN_ROOM (Some "R") None)) "-" "09:01" ].

(** Room [R] as the first join creates it, the conference call of
    [roomCall] and the answered direct call of [answeredCall]. *)
Definition roomR : room := mkRoom (Some "R") "Room R" 0 [] "09:02".

Definition callR : call :=
  mkCall "call1" "A" 0 (Some "video") ringing "09:05" (Some "R")
    None None None None None.

Definition callAB : call :=
  mkCall "call1" "A" 0 (Some "audio") active "09:06" None
    (Some "B") (Some "09:07") None None None.

(** ** Invariants and guards *)

(** No call of the active set is rejected or ended. *)
Definition calls_live (s : state) : Prop :=
  ∀ k c, (k, c) ∈ activeCalls s → call_status c = ringing ∨ call_status c = active.

(** The usernames of the entries [us] of the directory, read in heap [h];
    and those of them that are compared by value. *)
Definition names_of (h : list user) (us : list (string * uref)) : list name :=
  user_username <$> omap (λ e : string * uref, h !! e.2) us.

Definition key_of (u : user) : option name :=
  if by_value (user_username u) then Some (user_username u) else None.

Definition keys_of (h : list user) (us : list (string * uref)) : list name :=
  omap (λ e : string * uref, h !! e.2 ≫= key_of) us.

(** The usernames compared by value are unique and every entry of [users]
    has its user object. *)
Definition directory_ok (s : state) : Prop :=
  NoDup (keys_of (userHeap s) (users s))
  ∧ ∀ k r, (k, r) ∈ users s → r < length (userHeap s).

(** Room ids are unique and every room has its participant array. *)
Definition rooms_ok (s : state) : Prop :=
  NoDup (chatRooms s).*1
  ∧ ∀ k r, (k, r) ∈ chatRooms s → participants r < length (arrayHeap s).

(** Every participant of every room is bound in [clients]. *)
Definition rooms_bound (s : state) : Prop :=
  ∀ k r p, (k, r) ∈ chatRooms s → p ∈ array s (participants r) →
           ∃ c, Map_get_field p (clients s) = Some c.

(** A JOIN_ROOM comes from a client that is bound in [clients]; and a run in
    which every JOIN_ROOM does. *)
Definition bound_sender (s : state) (e : event) : bool :=
  match e with
  | EvMessage clientId (Some (JOIN_ROOM _ _)) _ _ => Map_has clientId (clients s)
  | _ => true
  end.

Fixpoint joins_bound (s : state) (tr : list event) : bool :=
  match tr with
  | [] => true
  | e :: tr' =>
      bound_sender s e
      && match step s e with
         | Some (s1, _) => joins_bound s1 tr'
         | None => true
         end
  end.

(** The call as [handleAnswerCall] and [handleRejectCall] leave it. *)
Definition callAnswered (c : call) (clientId now : string) : call :=
  mkCall (call_id c) (initiator c) (call_participants c) (callType c) active
    (startTime c) (call_roomId c) (Some clientId) (Some now) (rejectedBy c)
    (endTime c) (endedBy c).

Definition callRejected (c : call) (clientId now : string) : call :=
  mkCall (call_id c) (initiator c) (call_participants c) (callType c) rejected
    (startTime c) (call_roomId c) (answeredBy c) (answerTime c) (Some clientId)
    (Some now) (endedBy c).

(** The call as [handleEndCall] leaves it. *)
Definition endedCall (c : call) (clientId now : string) : call :=
  mkCall (call_id c) (initiator c) (call_participants c) (callType c) ended
    (startTime c) (call_roomId c) (answeredBy c) (answerTime c) (rejectedBy c)
    (Some now) (Some clientId).

(** ** The REST endpoints

    [GET /api/health], [/api/users] and [/api/rooms] read the registries;
    [Map.size] is the number of entries. *)

Record healthReport := mkHealth {
  health_timestamp : string;
  health_connections : nat;
  health_activeUsers : nat;
  health_activeCalls : nat;
  health_chatRooms : nat }.

Definition apiHealth (s : state) (now : string) : healthReport :=
  mkHealth now (length (clients s)) (length (users s)) (length (activeCalls s))
    (length (chatRooms s)).

Definition apiUsers (s : state) : list user := registered s.

Record roomSummary := mkSummary {
  summary_id : field;
  summary_name : string;
  participantCount : nat;
  lastMessage : option messageData;
  summary_createdAt : string }.

(** [room.messages[room.messages.length - 1]] is [undefined] on an empty
    history. *)
Definition summarize (s : state) (r : room) : roomSummary :=
  mkSummary (room_id r) (room_name r) (length (array s (participants r)))
    (last (messages r)) (createdAt r).

Definition apiRooms (s : state) : list roomSummary :=
  (λ e : field * room, summarize s e.2) <$> chatRooms s.

(** ** The peer-connection service

    The bookkeeping of [class WebRTCService]: three maps from user id to the
    user's [RTCPeerConnection], local stream and remote stream. The browser
    objects are named by numbers; what the service does to them is recorded:
    [pc.close()] in [closedConnections], [track.stop()] in [stoppedTracks],
    [pc.addTrack(track, stream)] in [addedTracks]. [new RTCPeerConnection]
    takes the next free number ([allocated]). The callbacks handed to
    [createPeerConnection] are the caller's and are taken not to call back
    into the service. *)

Record mediaStream := mkStream {
  stream_id : nat;
  getTracks : list nat }.

Record service := mkService {
  peerConnections : list (string * nat);
  localStreams : list (string * mediaStream);
  remoteStreams : list (string * option mediaStream);
  allocated : nat;
  closedConnections : list nat;
  stoppedTracks : list nat;
  addedTracks : list (nat * nat) }.

Definition newService : service := mkService [] [] [] 0 [] [] [].

Definition closePeerConnection (sv : service) (userId : string) : service :=
  let sv1 :=
    match Map_get userId (peerConnections sv) with
    | Some pc =>
        mkService (Map_delete userId (peerConnections sv)) (localStreams sv)
          (remoteStreams sv) (allocated sv) (closedConnections sv ++ [pc])
          (stoppedTracks sv) (addedTracks sv)
    | None => sv
    end in
  let sv2 :=
    match Map_get userId (localStreams sv1) with
    | Some localStream =>
        mkService (peerConnections sv1) (Map_delete userId (localStreams sv1))
          (remoteStreams sv1) (allocated sv1) (closedConnections sv1)
          (stoppedTracks sv1 ++ getTracks localStream) (addedTracks sv1)
    | None => sv1
    end in
  mkService (peerConnections sv2) (localStreams sv2)
    (Map_delete userId (remoteStreams sv2)) (allocated sv2)
    (closedConnections sv2) (stoppedTracks sv2) (addedTracks sv2).

(** Returns the service and the new connection. *)
Definition createPeerConnection (sv : service) (userId : string)
    : service * nat :=
  let sv1 :=
    if Map_has userId (peerConnections sv) then closePeerConnection sv userId
    else sv in
  let pc := allocated sv1 in
  (mkService (Map_set userId pc (peerConnections sv1)) (localStreams sv1)
     (remoteStreams sv1) (S (allocated sv1)) (closedConnections sv1)
     (stoppedTracks sv1) (addedTracks sv1), pc).

(** [stream] is [None] for a falsy argument. *)
Definition addLocalStream (sv : service) (userId : string)
    (stream : option mediaStream) : service :=
  match Map_get userId (peerConnections sv), stream with
  | Some pc, Some st =>
      mkService (peerConnections sv) (Map_set userId st (localStreams sv))
        (remoteStreams sv) (allocated sv) (closedConnections sv)
        (stoppedTracks sv)
        (addedTracks sv ++ ((λ track, (pc, track)) <$> getTracks st))
  | _, _ => sv
  end.

(** [pc.ontrack]: [event.streams[0]] may be [undefined]. *)
Definition ontrack (sv : service) (userId : string)
    (remoteStream : option mediaStream) : service :=
  mkService (peerConnections sv) (localStreams sv)
    (Map_set userId remoteStream (remoteStreams sv)) (allocated sv)
    (closedConnections sv) (stoppedTracks sv) (addedTracks sv).

(** [pc.onconnectionstatechange] *)
Definition onconnectionstatechange (sv : service) (userId : string)
    (connectionState : string) : service :=
  if bool_decide (connectionState = "failed")
     || bool_decide (connectionState = "disconnected")
  then closePeerConnection sv userId
  else sv.

(** [for (const userId of this.peerConnections.keys())] *)
Definition cleanup (sv : service) : service :=
  foldl closePeerConnection sv (peerConnections sv).*1.

(** What can happen to a service. The two callbacks belong to the current
    connection of [userId]: a closed connection fires no event. *)
Inductive serviceOp :=
| OpCreate (userId : string)
| OpAddLocalStream (userId : string) (stream : option mediaStream)
| OpTrack (userId : string) (remoteStream : option mediaStream)
| OpConnectionState (userId : string) (connectionState : string)
| OpClose (userId : string)
| OpCleanup.

Definition serviceStep (sv : service) (op : serviceOp) : option service :=
  match op with
  | OpCreate userId => Some (createPeerConnection sv userId).1
  | OpAddLocalStream userId stream => Some (addLocalStream sv userId stream)
  | OpTrack userId remoteStream =>
      if Map_has userId (peerConnections sv)
      then Some (ontrack sv userId remoteStream) else None
  | OpConnectionState userId connectionState =>
      if Map_has userId (peerConnections sv)
      then Some (onconnectionstatechange sv userId connectionState) else None
  | OpClose userId => Some (closePeerConnection sv userId)
  | OpCleanup => Some (cleanup sv)
  end.

Fixpoint serviceRun (sv : service) (ops : list serviceOp) : option service :=
  match ops with
  | [] => Some sv
  | op :: ops' =>
      match serviceStep sv op with
      | Some sv1 => serviceRun sv1 ops'
      | None => None
      end
  end.

(** ** Further invariants *)

(** Every bound client is bound under the id of its own socket, and that
    socket has not been closed. *)
Definition clients_ok (s : state) : Prop :=
  ∀ k c, (k, c) ∈ clients s →
    ws c = k
    ∧ (Map_get k (sockets s) = Some OPEN ∨ Map_get k (sockets s) = Some CLOSING).

(** Call ids are unique and every call is stored under its own id. *)
Definition calls_keyed (s : state) : Prop :=
  NoDup (activeCalls s).*1 ∧ ∀ k c, (k, c) ∈ activeCalls s → call_id c = k.

(** No room lists a participant twice. *)
Definition rooms_distinct (s : state) : Prop :=
  ∀ k r, (k, r) ∈ chatRooms s → NoDup (array s (participants r)).

(** Every room of [s] is still there in [s'], under the same id, name and
    creation time, with a history that extends the one it had. *)
Definition rooms_kept (s s' : state) : Prop :=
  ∀ k r, Map_get k (chatRooms s) = Some r →
    ∃ r', Map_get k (chatRooms s') = Some r'
          ∧ room_id r' = room_id r ∧ room_name r' = room_name r
          ∧ createdAt r' = createdAt r
          ∧ messages r `prefix_of` messages r'.

(** Every entry of the directory holds a user whose id is the entry's key. *)
Definition users_keyed (s : state) : Prop :=
  ∀ k r, (k, r) ∈ users s → ∃ u, userHeap s !! r = Some u ∧ user_id u = k.

(** A call without room has an array of its own, holding the initiator and
    the target. *)
Definition direct_calls_ok (s : state) : Prop :=
  ∀ k c, (k, c) ∈ activeCalls s → truthy (call_roomId c) = false →
    call_participants c < length (arrayHeap s)
    ∧ (∃ to, array s (call_participants c) = [Some (initiator c); to])
    ∧ ∀ k' r, (k', r) ∈ chatRooms s → participants r ≠ call_participants c.


(** Every bound client holds a user object that exists. *)
Definition clients_users_ok (s : state) : Prop :=
  ∀ k c, (k, c) ∈ clients s → client_user c < length (userHeap s).

(** Every call in progress has its participant array. *)
Definition calls_arrays_ok (s : state) : Prop :=
  ∀ k c, (k, c) ∈ activeCalls s → call_participants c < length (arrayHeap s).

(** Every room is stored under its own id. *)
Definition rooms_keyed (s : state) : Prop :=
  ∀ k r, (k, r) ∈ chatRooms s → room_id r = k.

(** The sockets that have not been closed. *)
Definition liveSockets (s : state) : list string :=
  (filter (λ e : string * readyState, e.2 = OPEN ∨ e.2 = CLOSING) (sockets s)).*1.

(** The bookkeeping of the peer-connection service is consistent: the
    connections in the map are pairwise distinct and none of them has been
    closed; no connection has been closed twice; every connection created so
    far is in the map or closed; streams are kept only for users that have a
    connection. *)
Definition service_ok (sv : service) : Prop :=
  NoDup (peerConnections sv).*1
  ∧ NoDup ((peerConnections sv).*2 ++ closedConnections sv)
  ∧ (∀ pc, pc < allocated sv ↔
           pc ∈ (peerConnections sv).*2 ∨ pc ∈ closedConnections sv)
  ∧ NoDup (localStreams sv).*1
  ∧ (∀ u, u ∈ (localStreams sv).*1 → u ∈ (peerConnections sv).*1)
  ∧ (∀ u, u ∈ (remoteStreams sv).*1 → u ∈ (peerConnections sv).*1).

(** * Properties *)

(** ** The [Map] operations *)

Section js_map_facts.
Context {K V : Type} `{EqDecision K}.
Implicit Types (k : K) (v : V) (m : list (K * V)).

Lemma Map_get_set_eq k v m : Map_get k (Map_set k v m) = Some v.
Proof.
  induction m as [|[k' v'] m IH]; simpl.
  - by rewrite decide_True.
  - destruct (decide (k' = k)); simpl.
    + by rewrite decide_True.
    + by rewrite decide_False.
Qed.

Lemma Map_get_set_ne k k' v m :
  k ≠ k' → Map_get k' (Map_set k v m) = Map_get k' m.
Proof.
  intros Hne. induction m as [|[k0 v0] m IH]; simpl.
  - by rewrite decide_False.
  - destruct (decide (k0 = k)) as [->|]; simpl.
    + by rewrite !decide_False.
    + by rewrite IH.
Qed.

Lemma Map_get_delete_eq k m : Map_get k (Map_delete k m) = None.
Proof.
  unfold Map_delete. induction m as [|[k' v'] m IH]; [done|].
  rewrite filter_cons; simpl. destruct (decide (k' ≠ k)); simpl; [|done].
  by rewrite decide_False.
Qed.

Lemma Map_get_delete_ne k k' m :
  k ≠ k' → Map_get k' (Map_delete k m) = Map_get k' m.
Proof.
  intros Hne. unfold Map_delete. induction m as [|[k0 v0] m IH]; [done|].
  rewrite filter_cons; simpl. destruct (decide (k0 ≠ k)) as [|Heq]; simpl.
  - by rewrite IH.
  - apply dec_stable in Heq as ->. by rewrite decide_False.
Qed.

Lemma Map_get_elem k v m : Map_get k m = Some v → (k, v) ∈ m.
Proof.
  induction m as [|[k' v'] m IH]; simpl; [done|].
  destruct (decide (k' = k)) as [->|]; intros Hg.
  - injection Hg as ->. left.
  - right. by apply IH.
Qed.

Lemma Map_get_None k m : Map_get k m = None ↔ k ∉ m.*1.
Proof.
  induction m as [|[k' v'] m IH]; simpl.
  - split; [intros _; apply not_elem_of_nil | done].
  - rewrite not_elem_of_cons. destruct (decide (k' = k)) as [->|Hne].
    + split; [done|]. by intros [? _].
    + rewrite IH. split; [by intros ?; split|by intros [_ ?]].
Qed.

Lemma elem_of_Map_set k v k' v' m :
  (k', v') ∈ Map_set k v m → (k' = k ∧ v' = v) ∨ (k', v') ∈ m.
Proof.
  induction m as [|[k0 v0] m IH]; simpl.
  - intros ?%list_elem_of_singleton. naive_solver.
  - destruct (decide (k0 = k)) as [->|].
    + intros [Heq|Hin]%elem_of_cons.
      * injection Heq as -> ->. by left.
      * right. by right.
    + intros [Heq|Hin]%elem_of_cons.
      * right. rewrite Heq. left.
      * destruct (IH Hin) as [?|?]; [by left|]. right. by right.
Qed.

Lemma elem_of_Map_delete k k' v' m :
  (k', v') ∈ Map_delete k m ↔ (k', v') ∈ m ∧ k' ≠ k.
Proof. unfold Map_delete. rewrite list_elem_of_filter. simpl. tauto. Qed.

Lemma Map_set_keys k v m :
  (Map_set k v m).*1 = if Map_has k m then m.*1 else m.*1 ++ [k].
Proof.
  unfold Map_has. induction m as [|[k0 v0] m IH]; simpl; [done|].
  destruct (decide (k0 = k)) as [->|]; [done|].
  rewrite fmap_cons, IH. by destruct (Map_get k m).
Qed.

Lemma Map_set_NoDup k v m : NoDup m.*1 → NoDup (Map_set k v m).*1.
Proof.
  intros Hm. rewrite Map_set_keys. unfold Map_has.
  destruct (Map_get k m) eqn:Hg; [done|].
  apply NoDup_app. split_and!; [done| |apply NoDup_singleton].
  intros x Hx ->%list_elem_of_singleton. by apply Map_get_None in Hg.
Qed.

End js_map_facts.

(** ** Delivery *)

Lemma elem_of_flat_map {A B} (f : A → list B) (l : list A) (y : B) :
  y ∈ flat_map f l ↔ ∃ x, x ∈ l ∧ y ∈ f x.
Proof.
  rewrite list_elem_of_In, in_flat_map. split; intros (x & Hx & Hy); exists x.
  - by rewrite !list_elem_of_In.
  - by rewrite <- !list_elem_of_In.
Qed.

Lemma elem_of_sendToUser s p m o :
  o ∈ sendToUser s p m ↔ ∃ c, resolvable s p c ∧ o = Sent (ws c) m.
Proof.
  unfold sendToUser, resolvable. destruct (Map_get_field p (clients s)) as [c|].
  - destruct (isOpen s (ws c)) eqn:Ho.
    + rewrite list_elem_of_singleton. split; [intros ->; by exists c|].
      intros (c' & [[= <-] _] & ->). done.
    + split; [by intros ?%elem_of_nil|]. intros (c' & [[= <-] Ho'] & _). congruence.
  - split; [by intros ?%elem_of_nil|]. by intros (c' & [? _] & _).
Qed.

Lemma elem_of_notifyParticipants s c m o :
  o ∈ notifyParticipants s c m ↔
  ∃ p cl, p ∈ array s (call_participants c) ∧ resolvable s p cl ∧ o = Sent (ws cl) m.
Proof.
  unfold notifyParticipants. rewrite elem_of_flat_map. split.
  - intros (p & Hp & (cl & ? & ?)%elem_of_sendToUser). by exists p, cl.
  - intros (p & cl & Hp & ? & ?). exists p. split; [done|].
    apply elem_of_sendToUser. by exists cl.
Qed.

Lemma elem_of_broadcastToRoom s roomId r m ex o :
  Map_get roomId (chatRooms s) = Some r →
  o ∈ broadcastToRoom s roomId m ex ↔
  ∃ p cl, p ∈ array s (participants r) ∧ differs p ex = true
          ∧ resolvable s p cl ∧ o = Sent (ws cl) m.
Proof.
  intros Hr. unfold broadcastToRoom. rewrite Hr, elem_of_flat_map. split.
  - intros (p & Hp & Ho). destruct (differs p ex) eqn:Hd; [|by apply elem_of_nil in Ho].
    apply (elem_of_sendToUser s p m o) in Ho as (cl & ? & ?). by exists p, cl.
  - intros (p & cl & Hp & Hd & ? & ?). exists p. split; [done|]. rewrite Hd.
    apply (elem_of_sendToUser s p m o). by exists cl.
Qed.



(** ** Arrays behind references *)

Lemma array_lookup s r a : arrayHeap s !! r = Some a → array s r = a.
Proof. unfold array. by intros ->. Qed.

Lemma array_push_eq s r x :
  r < length (arrayHeap s) → array (push r x s) r = array s r ++ [x].
Proof.
  intros Hr. apply array_lookup. simpl. by apply list_lookup_insert_eq.
Qed.

Lemma array_push_ne s r r' x : r ≠ r' → array (push r x s) r' = array s r'.
Proof. intros Hne. unfold array. simpl. by rewrite list_lookup_insert_ne. Qed.


(** ** Reachability *)

Lemma run_invariant (P : state → Prop) :
  (∀ s e s' out, P s → step s e = Some (s', out) → P s') →
  ∀ tr s s' out, P s → run s tr = Some (s', out) → P s'.
Proof.
  intros Hstep. induction tr as [|e tr IH]; simpl; intros s s' out Hs Hrun.
  - by injection Hrun as <- _.
  - destruct (step s e) as [[s1 o1]|] eqn:He; [|done].
    destruct (run s1 tr) as [[s2 o2]|] eqn:Hr; [|done].
    injection Hrun as <- _. eauto.
Qed.

Lemma reachable_invariant (P : state → Prop) :
  P initial →
  (∀ s e s' out, P s → step s e = Some (s', out) → P s') →
  ∀ s, reachable s → P s.
Proof. intros H0 Hstep s (tr & out & Hrun). by eapply run_invariant. Qed.

(** Every step is a socket change, a message or a disconnect. *)
Lemma step_cases (P : state → Prop) s e s' out :
  step s e = Some (s', out) →
  (∀ f, P (with_sockets f s)) →
  (∀ clientId data gen now, P (onMessage s clientId data gen now).1) →
  (∀ f clientId now, P (handleDisconnect (with_sockets f s) clientId now).1) →
  P s → P s'.
Proof.
  intros Hstep Hsock Hmsg Hclose Hs.
  destruct e as [cid now|cid data gen now|cid|cid now|cid]; unfold step in Hstep;
    destruct (Map_get cid (sockets s)) as [[]|]; try done; simplify_eq; auto.
  - pose proof (Hmsg cid data gen now) as H'. by rewrite Hstep in H'.
  - pose proof (Hmsg cid data gen now) as H'. by rewrite Hstep in H'.
  - pose proof (Hclose (Map_set cid CLOSED) cid now) as H'. by rewrite Hstep in H'.
  - pose proof (Hclose (Map_set cid CLOSED) cid now) as H'. by rewrite Hstep in H'.
Qed.

(** ** What the two loops of [handleDisconnect] leave alone *)

Lemma handleEndCall_frame s clientId callId now :
  let s' := (handleEndCall s clientId callId now).1 in
  sockets s' = sockets s ∧ clients s' = clients s ∧ users s' = users s
  ∧ chatRooms s' = chatRooms s ∧ userHeap s' = userHeap s
  ∧ arrayHeap s' = arrayHeap s.
Proof. unfold handleEndCall. by repeat case_match. Qed.

Lemma endCallsOf_frame es clientId now s :
  let s' := (endCallsOf es clientId now s).1 in
  sockets s' = sockets s ∧ clients s' = clients s ∧ users s' = users s
  ∧ chatRooms s' = chatRooms s ∧ userHeap s' = userHeap s
  ∧ arrayHeap s' = arrayHeap s.
Proof.
  revert s. induction es as [|[k c] es IH]; intros s; cbn [endCallsOf]; [done|].
  destruct (includes _ _); [|apply IH].
  pose proof (handleEndCall_frame s clientId (Some k) now) as Hf.
  destruct (handleEndCall s clientId (Some k) now) as [s1 o1].
  specialize (IH s1). destruct (endCallsOf es clientId now s1) as [s2 o2].
  cbn [fst] in *. destruct Hf as (? & ? & ? & ? & ? & ?), IH as (? & ? & ? & ? & ? & ?).
  split_and!; congruence.
Qed.

Lemma leaveRoomsOf_frame es clientId s :
  let s' := (leaveRoomsOf es clientId s).1 in
  sockets s' = sockets s ∧ clients s' = clients s ∧ users s' = users s
  ∧ activeCalls s' = activeCalls s ∧ userHeap s' = userHeap s.
Proof.
  revert s. induction es as [|[k r] es IH]; intros s; cbn [leaveRoomsOf]; [done|].
  destruct (includes _ _); [|apply IH].
  specialize (IH (dropParticipant s k r clientId)).
  destruct (leaveRoomsOf es clientId _) as [s2 o2]. done.
Qed.

(** ** Calls of the active set are ringing or active *)

Lemma calls_live_set s k c :
  calls_live s → call_status c = ringing ∨ call_status c = active →
  calls_live (with_activeCalls (Map_set k c) s).
Proof.
  intros Hs Hc k' c' [[_ ->]|Hin]%elem_of_Map_set; [done|]. by eapply Hs.
Qed.

Lemma calls_live_delete_set s k c :
  calls_live s →
  calls_live (with_activeCalls (Map_delete k) (with_activeCalls (Map_set k c) s)).
Proof.
  intros Hs k' c' [Hin Hne]%elem_of_Map_delete.
  apply elem_of_Map_set in Hin as [[? _]|Hin]; [done|]. by eapply Hs.
Qed.

Lemma calls_live_ext s s' :
  activeCalls s' = activeCalls s → calls_live s → calls_live s'.
Proof. unfold calls_live. by intros ->. Qed.

Lemma handleEndCall_calls_live s clientId callId now :
  calls_live s → calls_live (handleEndCall s clientId callId now).1.
Proof.
  intros Hs. unfold handleEndCall. repeat case_match; simpl; try done.
  by apply calls_live_delete_set.
Qed.

Lemma endCallsOf_calls_live es clientId now s :
  calls_live s → calls_live (endCallsOf es clientId now s).1.
Proof.
  revert s. induction es as [|[k c] es IH]; intros s Hs; cbn [endCallsOf]; [done|].
  destruct (includes _ _); [|by apply IH].
  pose proof (handleEndCall_calls_live s clientId (Some k) now Hs) as H1.
  destruct (handleEndCall s clientId (Some k) now) as [s1 o1].
  specialize (IH s1 H1). by destruct (endCallsOf es clientId now s1).
Qed.

Lemma handleDisconnect_calls_live s clientId now :
  calls_live s → calls_live (handleDisconnect s clientId now).1.
Proof.
  intros Hs. unfold handleDisconnect.
  destruct (Map_get clientId (clients s)) as [c|]; [|done].
  set (s1 := match userHeap s !! client_user c with Some _ => _ | None => s end).
  assert (H1 : calls_live s1) by (subst s1; by case_match).
  pose proof (endCallsOf_calls_live (activeCalls s1) clientId now s1 H1) as H2.
  destruct (endCallsOf _ _ _ s1) as [s2 o2].
  pose proof (leaveRoomsOf_frame (chatRooms s2) clientId s2) as Hf.
  destruct (leaveRoomsOf _ _ s2) as [s3 o3]. simpl in *.
  destruct Hf as (_ & _ & _ & Hf & _). by apply (calls_live_ext s2).
Qed.

Lemma onMessage_calls_live s clientId data gen now :
  calls_live s → calls_live (onMessage s clientId data gen now).1.
Proof.
  intros Hs. destruct data as [[]|]; simpl; try done.
  - unfold handleUserRegister. by case_match.
  - unfold handleUserLogin. by repeat case_match.
  - unfold handleGetUsers. by case_match.
  - unfold handleSendMessage. by repeat case_match.
  - unfold handleJoinRoom, new_array. by repeat (case_match; simplify_eq/=).
  - unfold handleLeaveRoom. by case_match.
  - unfold handleInitiateCall, new_array. repeat (case_match; simplify_eq/=);
      apply calls_live_set; by (done || left).
  - unfold handleAnswerCall. repeat case_match; simpl; try done.
    apply calls_live_set; by (done || right).
  - unfold handleRejectCall. repeat case_match; simpl; try done.
    by apply calls_live_delete_set.
  - by apply handleEndCall_calls_live.
  - unfold handleWebRTCSignaling. by repeat case_match.
  - unfold handleTyping. by repeat case_match.
  - unfold handleUserStatusChange. by repeat case_match.
Qed.

Lemma reachable_calls_live s : reachable s → calls_live s.
Proof.
  apply reachable_invariant; [by intros k c ?%elem_of_nil|].
  intros s0 e s' out Hs Hstep. apply (step_cases calls_live _ _ _ _ Hstep); auto.
  - intros. by apply onMessage_calls_live.
  - intros. by apply handleDisconnect_calls_live.
Qed.

(** ** Usernames in the directory are unique *)

Lemma strict_equal_true (stored parsed : name) :
  strict_equal stored parsed = true ↔ stored = parsed ∧ by_value parsed = true.
Proof.
  split.
  - destruct stored as [[]|], parsed as [[]|]; simpl; try done;
      by intros ->%bool_decide_eq_true.
  - intros [-> Hv]. destruct parsed as [[]|]; simpl in *; try done;
      by apply bool_decide_eq_true.
Qed.

Lemma strict_equal_reference (stored parsed : name) :
  by_value parsed = false → strict_equal stored parsed = false.
Proof.
  intros Hv. destruct (strict_equal stored parsed) eqn:Heq; [|done].
  apply strict_equal_true in Heq as [_ Heq]. congruence.
Qed.

Lemma names_of_cons h k r us :
  names_of h ((k, r) :: us)
  = match h !! r with
    | Some u => user_username u :: names_of h us
    | None => names_of h us
    end.
Proof. unfold names_of. simpl. by destruct (h !! r). Qed.

Lemma names_of_snoc h u us :
  (∀ k r, (k, r) ∈ us → r < length h) → names_of (h ++ [u]) us = names_of h us.
Proof.
  induction us as [|[k r] us IH]; intros Hv; [done|].
  rewrite !names_of_cons, lookup_app_l by (eapply Hv; left).
  rewrite IH; [done|]. intros k' r' Hin. eapply Hv. by right.
Qed.

Lemma names_of_insert h r u u' us :
  h !! r = Some u → user_username u' = user_username u →
  names_of (<[r := u']> h) us = names_of h us.
Proof.
  intros Hr Hu. induction us as [|[k r0] us IH]; [done|].
  rewrite !names_of_cons, IH. destruct (decide (r = r0)) as [<-|Hne].
  - rewrite list_lookup_insert_eq, Hr, Hu; [done|]. by eapply lookup_lt_Some.
  - by rewrite list_lookup_insert_ne.
Qed.

Lemma elem_of_names_of h us x :
  x ∈ names_of h us ↔ ∃ k r u, (k, r) ∈ us ∧ h !! r = Some u ∧ user_username u = x.
Proof.
  unfold names_of. rewrite list_elem_of_fmap. split.
  - intros (u & -> & ([k r] & Hin & Hu)%list_elem_of_omap). by exists k, r, u.
  - intros (k & r & u & Hin & Hu & <-). exists u. split; [done|].
    apply list_elem_of_omap. by exists (k, r).
Qed.

Lemma keys_of_cons h k r us :
  keys_of h ((k, r) :: us)
  = match h !! r ≫= key_of with
    | Some n => n :: keys_of h us
    | None => keys_of h us
    end.
Proof. unfold keys_of. simpl. by destruct (h !! r ≫= key_of). Qed.

Lemma keys_of_names h us :
  keys_of h us = filter (λ n, by_value n = true) (names_of h us).
Proof.
  induction us as [|[k r] us IH]; [done|].
  rewrite keys_of_cons, names_of_cons, IH. destruct (h !! r) as [u|]; [|done].
  simpl. unfold key_of. rewrite filter_cons.
  destruct (by_value (user_username u)) eqn:Hv.
  - by rewrite decide_True.
  - by rewrite decide_False.
Qed.

Lemma keys_of_ext h h' us : names_of h' us = names_of h us → keys_of h' us = keys_of h us.
Proof. intros Heq. by rewrite !keys_of_names, Heq. Qed.

Lemma elem_of_keys_of h us x :
  x ∈ keys_of h us ↔ x ∈ names_of h us ∧ by_value x = true.
Proof. rewrite keys_of_names, list_elem_of_filter. tauto. Qed.

Lemma existsb_has_username s username :
  existsb (has_username s username) (users s) = false →
  username ∉ keys_of (userHeap s) (users s).
Proof.
  intros Hex [(k & r & u & Hin & Hu & <-)%elem_of_names_of Hv]%elem_of_keys_of.
  assert (Ht : existsb (has_username s (user_username u)) (users s) = true);
    [|congruence].
  apply existsb_exists. exists (k, r). split; [by apply list_elem_of_In|].
  unfold has_username. simpl. rewrite Hu. by apply strict_equal_true.
Qed.

Lemma existsb_has_username_true s username :
  username ∈ usernames s → by_value username = true →
  existsb (has_username s username) (users s) = true.
Proof.
  intros (k & r & u & Hin & Hu & <-)%elem_of_names_of Hv.
  apply existsb_exists. exists (k, r). split; [by apply list_elem_of_In|].
  unfold has_username. simpl. rewrite Hu. by apply strict_equal_true.
Qed.


Lemma elem_of_keys_of_set h k r u us x :
  h !! r = Some u → x ∈ keys_of h (Map_set k r us) →
  key_of u = Some x ∨ x ∈ keys_of h us.
Proof.
  intros Hr [(k' & r' & u' & Hin & Hu & <-)%elem_of_names_of Hv]%elem_of_keys_of.
  apply elem_of_Map_set in Hin as [[-> ->]|Hin].
  - left. unfold key_of. assert (u' = u) as -> by congruence. by rewrite Hv.
  - right. apply elem_of_keys_of. split; [|done].
    apply elem_of_names_of. by exists k', r', u'.
Qed.

Lemma NoDup_keys_of_set h k r u us :
  h !! r = Some u → (∀ n, key_of u = Some n → n ∉ keys_of h us) →
  NoDup (keys_of h us) → NoDup (keys_of h (Map_set k r us)).
Proof.
  intros Hr. induction us as [|[k0 r0] us IH]; intros Hnew Hnd.
  - cbn [Map_set]. rewrite keys_of_cons, Hr. simpl.
    destruct (key_of u); [apply NoDup_singleton|apply NoDup_nil_2].
  - cbn [Map_set]. rewrite keys_of_cons in Hnew, Hnd.
    destruct (decide (k0 = k)) as [->|Hne].
    + rewrite keys_of_cons, Hr. simpl.
      assert (Hnd' : NoDup (keys_of h us)).
      { destruct (h !! r0 ≫= key_of); [by apply NoDup_cons in Hnd as [_ ?]|done]. }
      destruct (key_of u) as [n|] eqn:Hn; [|done].
      apply NoDup_cons. split; [|done]. specialize (Hnew n eq_refl).
      destruct (h !! r0 ≫= key_of); [|done].
      by apply not_elem_of_cons in Hnew as [_ Hnew].
    + rewrite keys_of_cons. destruct (h !! r0 ≫= key_of) as [n0|] eqn:Hn0; [|by apply IH].
      apply NoDup_cons in Hnd as [Hu0 Hnd]. apply NoDup_cons. split.
      * intros [Hn|?]%(elem_of_keys_of_set _ _ _ _ _ _ Hr); [|done].
        specialize (Hnew n0 Hn). apply Hnew. left.
      * apply IH; [|done]. intros n Hn. specialize (Hnew n Hn).
        by apply not_elem_of_cons in Hnew as [_ Hnew].
Qed.

Lemma elem_of_keys_of_delete h k us x :
  x ∈ keys_of h (Map_delete k us) → x ∈ keys_of h us.
Proof.
  intros [(k' & r' & u' & [Hin _]%elem_of_Map_delete & Hu & <-)%elem_of_names_of Hv]
    %elem_of_keys_of.
  apply elem_of_keys_of. split; [|done]. apply elem_of_names_of. by exists k', r', u'.
Qed.

Lemma NoDup_keys_of_delete h k us :
  NoDup (keys_of h us) → NoDup (keys_of h (Map_delete k us)).
Proof.
  unfold Map_delete. induction us as [|[k0 r0] us IH]; [done|].
  rewrite keys_of_cons, filter_cons. intros Hnd.
  assert (Hnd' : NoDup (keys_of h us)).
  { destruct (h !! r0 ≫= key_of); [by apply NoDup_cons in Hnd as [_ ?]|done]. }
  destruct (decide ((k0, r0).1 ≠ k)); [|by apply IH].
  rewrite keys_of_cons. destruct (h !! r0 ≫= key_of); [|by apply IH].
  apply NoDup_cons in Hnd as [Hu0 _]. apply NoDup_cons. split; [|by apply IH].
  intros Hin. by apply Hu0, (elem_of_keys_of_delete h k).
Qed.

Lemma keys_of_delete_fresh h k r u n us :
  NoDup (keys_of h us) → (k, r) ∈ us → h !! r = Some u → key_of u = Some n →
  n ∉ keys_of h (Map_delete k us).
Proof.
  unfold Map_delete. induction us as [|[k0 r0] us IH]; [by intros _ ?%elem_of_nil|].
  rewrite keys_of_cons, filter_cons. intros Hnd [Heq|Hin]%elem_of_cons Hr Hn.
  - injection Heq as <- <-. rewrite decide_False by (simpl; by intros ?).
    rewrite Hr in Hnd. simpl in Hnd. rewrite Hn in Hnd.
    apply NoDup_cons in Hnd as [Hu _].
    intros ?. by apply Hu, (elem_of_keys_of_delete h k).
  - assert (Hnd' : NoDup (keys_of h us)).
    { destruct (h !! r0 ≫= key_of); [by apply NoDup_cons in Hnd as [_ ?]|done]. }
    destruct (decide ((k0, r0).1 ≠ k)); [|by apply IH].
    rewrite keys_of_cons. destruct (h !! r0 ≫= key_of) as [m0|] eqn:Hr0; [|by apply IH].
    apply NoDup_cons in Hnd as [Hu0 _]. apply not_elem_of_cons. split; [|by apply IH].
    intros Heq. apply Hu0. rewrite <- Heq. apply elem_of_keys_of.
    unfold key_of in Hn. destruct (by_value (user_username u)) eqn:Hv; [|done].
    injection Hn as <-. split; [|done]. apply elem_of_names_of. by exists k, r, u.
Qed.

Lemma directory_ok_ext s s' :
  users s' = users s → userHeap s' = userHeap s → directory_ok s → directory_ok s'.
Proof. unfold directory_ok. by intros -> ->. Qed.

Lemma directory_ok_insert s r u u' :
  userHeap s !! r = Some u → user_username u' = user_username u →
  directory_ok s → directory_ok (with_userHeap (λ h, <[r := u']> h) s).
Proof.
  intros Hr Hu [Hnd Hv]. split.
  - simpl. by rewrite (keys_of_ext _ _ _ (names_of_insert _ _ u u' _ Hr Hu)).
  - simpl. intros k r' Hin. rewrite length_insert. by eapply Hv.
Qed.

Lemma handleUserRegister_directory_ok s clientId username avatar w now :
  directory_ok s → directory_ok (handleUserRegister s clientId username avatar w now).1.
Proof.
  intros [Hnd Hv]. unfold handleUserRegister.
  destruct (existsb _ _) eqn:Hex; [done|]. apply existsb_has_username in Hex.
  set (u := mkUser _ _ _ _ _). split.
  - change (NoDup (keys_of (userHeap s ++ [u])
                     (Map_set clientId (length (userHeap s)) (users s)))).
    apply (NoDup_keys_of_set _ _ _ u).
    + by rewrite list_lookup_middle.
    + intros n Hn. rewrite (keys_of_ext _ _ _ (names_of_snoc _ u _ Hv)).
      unfold key_of in Hn. simpl in Hn. destruct (by_value username); [|done].
      by injection Hn as <-.
    + by rewrite (keys_of_ext _ _ _ (names_of_snoc _ u _ Hv)).
  - simpl. intros k r [[_ ->]|Hin]%elem_of_Map_set; rewrite length_app; simpl; [lia|].
    specialize (Hv _ _ Hin). lia.
Qed.

Lemma handleUserLogin_directory_ok s clientId username w now :
  directory_ok s → directory_ok (handleUserLogin s clientId username w now).1.
Proof.
  intros [Hnd Hv]. unfold handleUserLogin.
  destruct (find _ _) as [[id r]|] eqn:Hfind; [|done].
  apply find_some in Hfind as [Hin%list_elem_of_In _].
  destruct (userHeap s !! r) as [e|] eqn:Hr; [|done].
  set (u := mkUser _ _ _ _ _). assert (Hlt : r < length (userHeap s)) by eauto.
  assert (Hnames : ∀ us, names_of (<[r := u]> (userHeap s)) us
                         = names_of (userHeap s) us)
    by (intros us; by apply (names_of_insert _ _ e)).
  split.
  - change (NoDup (keys_of (<[r := u]> (userHeap s))
                     (Map_set clientId r (Map_delete id (users s))))).
    apply (NoDup_keys_of_set _ _ _ u).
    + by apply list_lookup_insert_eq.
    + intros n Hn. rewrite (keys_of_ext _ _ _ (Hnames _)).
      by apply (keys_of_delete_fresh _ _ r e).
    + rewrite (keys_of_ext _ _ _ (Hnames _)). by apply NoDup_keys_of_delete.
  - simpl. intros k r' [[_ ->]|[Hin' _]%elem_of_Map_delete]%elem_of_Map_set;
      rewrite length_insert; eauto.
Qed.

Lemma handleDisconnect_directory_ok s clientId now :
  directory_ok s → directory_ok (handleDisconnect s clientId now).1.
Proof.
  intros Hs. unfold handleDisconnect.
  destruct (Map_get clientId (clients s)) as [c|]; [|done].
  set (s1 := match userHeap s !! client_user c with Some _ => _ | None => s end).
  assert (H1 : directory_ok s1).
  { subst s1. destruct (userHeap s !! client_user c) eqn:Hu; [|done].
    by apply (directory_ok_insert _ _ u). }
  pose proof (endCallsOf_frame (activeCalls s1) clientId now s1) as Hf2.
  destruct (endCallsOf _ _ _ s1) as [s2 o2].
  pose proof (leaveRoomsOf_frame (chatRooms s2) clientId s2) as Hf3.
  destruct (leaveRoomsOf _ _ s2) as [s3 o3]. cbn [fst] in *.
  destruct Hf2 as (_ & _ & ? & _ & ? & _), Hf3 as (_ & _ & ? & _ & ?).
  apply (directory_ok_ext s1); [simpl; congruence..|done].
Qed.

Lemma onMessage_directory_ok s clientId data gen now :
  directory_ok s → directory_ok (onMessage s clientId data gen now).1.
Proof.
  intros Hs. destruct data as [[]|]; simpl; try done.
  - by apply handleUserRegister_directory_ok.
  - by apply handleUserLogin_directory_ok.
  - unfold handleGetUsers. by case_match.
  - unfold handleSendMessage. by repeat case_match.
  - unfold handleJoinRoom, new_array. by repeat (case_match; simplify_eq/=).
  - unfold handleLeaveRoom. by case_match.
  - unfold handleInitiateCall, new_array. by repeat (case_match; simplify_eq/=).
  - unfold handleAnswerCall. by repeat case_match.
  - unfold handleRejectCall. by repeat case_match.
  - unfold handleEndCall. by repeat case_match.
  - unfold handleWebRTCSignaling. by repeat case_match.
  - unfold handleTyping. by repeat case_match.
  - unfold handleUserStatusChange. repeat case_match; try done.
    by eapply directory_ok_insert.
Qed.

Lemma reachable_directory_ok s : reachable s → directory_ok s.
Proof.
  apply reachable_invariant.
  { split; [apply NoDup_nil_2|by intros k r ?%elem_of_nil]. }
  intros s0 e s' out Hs Hstep. apply (step_cases directory_ok _ _ _ _ Hstep); auto.
  - intros. by apply onMessage_directory_ok.
  - intros. by apply handleDisconnect_directory_ok.
Qed.

(** ** Rooms: keys are unique and participant arrays exist *)

Section js_map_more.
Context {K V : Type} `{EqDecision K}.
Implicit Types (k : K) (v : V) (m : list (K * V)).

Lemma elem_of_Map_set_NoDup k v k' v' m :
  NoDup m.*1 → (k', v') ∈ Map_set k v m →
  (k' = k ∧ v' = v) ∨ ((k', v') ∈ m ∧ k' ≠ k).
Proof.
  induction m as [|[k0 v0] m IH]; simpl.
  - intros _ Hin%list_elem_of_singleton. injection Hin as -> ->. by left.
  - intros [Hk Hm]%NoDup_cons. destruct (decide (k0 = k)) as [->|Hne].
    + intros [Heq|Hin]%elem_of_cons.
      * injection Heq as -> ->. by left.
      * right. split; [by right|]. intros ->. apply Hk.
        by apply (list_elem_of_fmap_2 fst _ (k, v')).
    + intros [Heq|Hin]%elem_of_cons.
      * injection Heq as -> ->. right. split; [left|done].
      * destruct (IH Hm Hin) as [?|[? ?]]; [by left|]. right. split; [by right|done].
Qed.

Lemma elem_of_Map_set_other k v k' v' m :
  k' ≠ k → (k', v') ∈ m → (k', v') ∈ Map_set k v m.
Proof.
  intros Hne. induction m as [|[k0 v0] m IH]; simpl; [by intros ?%elem_of_nil|].
  intros [Heq|Hin]%elem_of_cons.
  - injection Heq as <- <-. rewrite decide_False by done. left.
  - destruct (decide (k0 = k)); right; [done|by apply IH].
Qed.

Lemma Map_delete_set k v m : Map_delete k (Map_set k v m) = Map_delete k m.
Proof.
  unfold Map_delete. induction m as [|[k0 v0] m IH]; simpl.
  - rewrite filter_cons. simpl. by rewrite decide_False by (intros Hn; by apply Hn).
  - destruct (decide (k0 = k)) as [->|Hne].
    + rewrite !filter_cons. simpl. by rewrite !decide_False by (intros Hn; by apply Hn).
    + rewrite !filter_cons. simpl. rewrite IH. by repeat case_match.
Qed.
End js_map_more.

Lemma array_ext s s' r : arrayHeap s' = arrayHeap s → array s' r = array s r.
Proof. unfold array. by intros ->. Qed.

Lemma array_nonempty_valid s r x : x ∈ array s r → r < length (arrayHeap s).
Proof.
  unfold array. destruct (arrayHeap s !! r) eqn:Hr; simpl.
  - intros _. by eapply lookup_lt_Some.
  - by intros ?%elem_of_nil.
Qed.

Lemma includes_true x a : includes x a = true ↔ x ∈ a.
Proof. unfold includes. apply bool_decide_eq_true. Qed.

Lemma includes_false x a : includes x a = false ↔ x ∉ a.
Proof. unfold includes. apply bool_decide_eq_false. Qed.

Lemma rooms_ok_ext s s' :
  chatRooms s' = chatRooms s → length (arrayHeap s) ≤ length (arrayHeap s') →
  rooms_ok s → rooms_ok s'.
Proof.
  intros Hc Hl [Hnd Hv]. split; rewrite Hc; [done|].
  intros k r Hin. specialize (Hv _ _ Hin). lia.
Qed.

Lemma rooms_ok_set s k r (grow : list (list field) → list (list field)) :
  (∀ h, length h ≤ length (grow h)) →
  participants r < length (grow (arrayHeap s)) →
  rooms_ok s →
  rooms_ok (with_chatRooms (Map_set k r) (with_arrayHeap grow s)).
Proof.
  intros Hg Hr [Hnd Hv]. split; simpl.
  - by apply Map_set_NoDup.
  - intros k' r' [[_ ->]|Hin]%elem_of_Map_set; [done|].
    specialize (Hv _ _ Hin). specialize (Hg (arrayHeap s)). lia.
Qed.

Lemma dropParticipant_rooms_ok s k r clientId :
  rooms_ok s → rooms_ok (dropParticipant s k r clientId).
Proof.
  intros Hs. unfold dropParticipant, new_array.
  apply (rooms_ok_set s k _ (λ h, h ++ [_])); [| |done].
  - intros h. rewrite length_app. lia.
  - simpl. rewrite length_app. simpl. lia.
Qed.

Lemma leaveRoomsOf_rooms_ok es clientId s :
  rooms_ok s → rooms_ok (leaveRoomsOf es clientId s).1.
Proof.
  revert s. induction es as [|[k r] es IH]; intros s Hs; cbn [leaveRoomsOf]; [done|].
  destruct (includes _ _); [|by apply IH].
  specialize (IH _ (dropParticipant_rooms_ok s k r clientId Hs)).
  by destruct (leaveRoomsOf es clientId _).
Qed.

Lemma handleDisconnect_rooms_ok s clientId now :
  rooms_ok s → rooms_ok (handleDisconnect s clientId now).1.
Proof.
  intros Hs. unfold handleDisconnect.
  destruct (Map_get clientId (clients s)) as [c|]; [|done].
  set (s1 := match userHeap s !! client_user c with Some _ => _ | None => s end).
  assert (H1 : rooms_ok s1) by (subst s1; by case_match).
  pose proof (endCallsOf_frame (activeCalls s1) clientId now s1) as Hf2.
  destruct (endCallsOf _ _ _ s1) as [s2 o2]. cbn [fst] in Hf2.
  destruct Hf2 as (_ & _ & _ & Hc2 & _ & Ha2).
  assert (H2 : rooms_ok s2) by (apply (rooms_ok_ext s1); [done|by rewrite Ha2|done]).
  pose proof (leaveRoomsOf_rooms_ok (chatRooms s2) clientId s2 H2) as H3.
  by destruct (leaveRoomsOf _ _ s2) as [s3 o3].
Qed.

Lemma handleJoinRoom_rooms_ok s clientId roomId roomName now :
  rooms_ok s → rooms_ok (handleJoinRoom s clientId roomId roomName now).1.
Proof.
  intros Hs. unfold handleJoinRoom.
  set (s1 := if Map_has roomId (chatRooms s) then s else _).
  assert (H1 : rooms_ok s1).
  { subst s1. destruct (Map_has _ _); [done|]. unfold new_array.
    apply (rooms_ok_set s roomId _ (λ h, h ++ [_])); [| |done].
    - intros h. rewrite length_app. lia.
    - simpl. rewrite length_app. simpl. lia. }
  clearbody s1. destruct (Map_get roomId (chatRooms s1)) as [r|]; [|done].
  cbn [fst]. destruct (includes _ _); [done|].
  apply (rooms_ok_ext s1); [done| |done]. simpl. by rewrite length_insert.
Qed.

Lemma onMessage_rooms_ok s clientId data gen now :
  rooms_ok s → rooms_ok (onMessage s clientId data gen now).1.
Proof.
  intros Hs. destruct data as [[]|]; simpl; try done.
  - unfold handleUserRegister. by case_match.
  - unfold handleUserLogin. by repeat case_match.
  - unfold handleGetUsers. by case_match.
  - unfold handleSendMessage.
    destruct (Map_get clientId (clients s)); [|done].
    destruct (truthy roomId); [|by case_match].
    destruct (Map_get roomId (chatRooms s)) as [r|] eqn:Hr; [|done].
    apply (rooms_ok_set s roomId _ (λ h, h)); [done| |done].
    simpl. destruct Hs as [_ Hv]. eapply Hv. by apply Map_get_elem.
  - by apply handleJoinRoom_rooms_ok.
  - unfold handleLeaveRoom. case_match; [|done]. by apply dropParticipant_rooms_ok.
  - unfold handleInitiateCall, new_array.
    repeat (case_match; simplify_eq/=); try done;
      (apply (rooms_ok_ext s); [done| |done]); simpl; rewrite length_app; lia.
  - unfold handleAnswerCall. by repeat case_match.
  - unfold handleRejectCall. by repeat case_match.
  - unfold handleEndCall. by repeat case_match.
  - unfold handleWebRTCSignaling. by repeat case_match.
  - unfold handleTyping. by repeat case_match.
  - unfold handleUserStatusChange. by repeat case_match.
Qed.

Lemma reachable_rooms_ok s : reachable s → rooms_ok s.
Proof.
  apply reachable_invariant.
  { split; [apply NoDup_nil_2|by intros k r ?%elem_of_nil]. }
  intros s0 e s' out Hs Hstep. apply (step_cases rooms_ok _ _ _ _ Hstep); auto.
  - intros. by apply onMessage_rooms_ok.
  - intros. by apply handleDisconnect_rooms_ok.
Qed.

(** ** What dropping a participant does *)

Lemma dropParticipant_old s k r clientId a :
  a < length (arrayHeap s) → array (dropParticipant s k r clientId) a = array s a.
Proof. intros Ha. unfold array. simpl. by rewrite lookup_app_l. Qed.

Lemma dropParticipant_new s k r clientId :
  array (dropParticipant s k r clientId) (length (arrayHeap s))
  = filter (λ id, id ≠ Some clientId) (array s (participants r)).
Proof. apply array_lookup. simpl. by rewrite list_lookup_middle. Qed.

Lemma dropParticipant_get s k r clientId :
  Map_get k (chatRooms (dropParticipant s k r clientId))
  = Some (mkRoom (room_id r) (room_name r) (length (arrayHeap s)) (messages r)
            (createdAt r)).
Proof. apply Map_get_set_eq. Qed.

Lemma dropParticipant_get_ne s k k' r clientId :
  k ≠ k' →
  Map_get k' (chatRooms (dropParticipant s k r clientId)) = Map_get k' (chatRooms s).
Proof. intros Hne. by apply Map_get_set_ne. Qed.

(** The rooms loop leaves the other rooms and the existing arrays alone. *)
Lemma leaveRoomsOf_keeps es clientId s k :
  k ∉ es.*1 →
  let s' := (leaveRoomsOf es clientId s).1 in
  Map_get k (chatRooms s') = Map_get k (chatRooms s)
  ∧ ∀ a, a < length (arrayHeap s) → array s' a = array s a.
Proof.
  revert s. induction es as [|[k0 r0] es IH]; intros s Hk; cbn [leaveRoomsOf]; [done|].
  rewrite fmap_cons in Hk. apply not_elem_of_cons in Hk as [Hne Hk].
  destruct (includes _ _); [|by apply IH].
  specialize (IH (dropParticipant s k0 r0 clientId) Hk).
  destruct (leaveRoomsOf es clientId _) as [s2 o2]. cbn [fst] in *.
  destruct IH as [IH1 IH2]. split.
  - rewrite IH1. apply dropParticipant_get_ne. by intros ->.
  - intros a Ha. rewrite IH2.
    + by apply dropParticipant_old.
    + simpl. rewrite length_app. lia.
Qed.

(** After the loop over all rooms, the client is in none of them, and no
    room has gained a participant. *)
Lemma leaveRoomsOf_all clientId es s :
  rooms_ok s → NoDup es.*1 →
  (∀ k r, (k, r) ∈ es → (k, r) ∈ chatRooms s) →
  (∀ k r, (k, r) ∈ chatRooms s →
          (k, r) ∈ es ∨ Some clientId ∉ array s (participants r)) →
  let s' := (leaveRoomsOf es clientId s).1 in
  (∀ k r, (k, r) ∈ chatRooms s' → Some clientId ∉ array s' (participants r))
  ∧ (∀ k r p, (k, r) ∈ chatRooms s' → p ∈ array s' (participants r) →
       ∃ k0 r0, (k0, r0) ∈ chatRooms s ∧ p ∈ array s (participants r0)).
Proof.
  revert s. induction es as [|[k r] es IH]; intros s Hok Hnd Hsub Hpend;
    cbn [leaveRoomsOf].
  - split.
    + intros k r Hin. destruct (Hpend _ _ Hin) as [?%elem_of_nil|?]; done.
    + intros k r p Hin Hp. by exists k, r.
  - rewrite fmap_cons in Hnd. apply NoDup_cons in Hnd as [Hk Hnd].
    destruct (includes _ _) eqn:Hinc.
    + pose proof (dropParticipant_rooms_ok s k r clientId Hok) as Hok1.
      destruct Hok as [Hkeys Hvalid].
      assert (Hold : ∀ k' r', (k', r') ∈ chatRooms s →
                array (dropParticipant s k r clientId) (participants r')
                = array s (participants r')).
      { intros k' r' Hin. apply dropParticipant_old. by eapply Hvalid. }
      specialize (IH (dropParticipant s k r clientId) Hok1 Hnd).
      destruct (leaveRoomsOf es clientId _) as [s2 o2]. cbn [fst] in *.
      destruct IH as [IH1 IH2].
      * intros k' r' Hin. apply elem_of_Map_set_other; [|apply Hsub; by right].
        intros ->. apply Hk. by apply (list_elem_of_fmap_2 fst _ (k, r')).
      * intros k' r' Hin.
        apply elem_of_Map_set_NoDup in Hin as [[-> ->]|[Hin Hne]]; [| |done].
        -- right. simpl. rewrite dropParticipant_new.
           intros [Hne _]%list_elem_of_filter. by apply Hne.
        -- destruct (Hpend _ _ Hin) as [[Heq|?]%elem_of_cons|Hclean].
           ++ by injection Heq as -> _.
           ++ by left.
           ++ right. by rewrite (Hold _ _ Hin).
      * split; [done|]. intros k' r' p Hin Hp.
        destruct (IH2 _ _ _ Hin Hp) as (k0 & r0 & Hin0 & Hp0).
        apply elem_of_Map_set_NoDup in Hin0 as [[-> ->]|[Hin0 _]]; [| |done].
        -- simpl in Hp0. rewrite dropParticipant_new in Hp0.
           apply list_elem_of_filter in Hp0 as [_ Hp0]. exists k, r.
           split; [|done]. apply Hsub. left.
        -- exists k0, r0. split; [done|]. by rewrite <- (Hold _ _ Hin0).
    + apply includes_false in Hinc. apply IH; [done..| |].
      * intros k' r' Hin. apply Hsub. by right.
      * intros k' r' Hin. destruct (Hpend _ _ Hin) as [[Heq|?]%elem_of_cons|?].
        -- injection Heq as -> ->. by right.
        -- by left.
        -- by right.
Qed.

(** ** Room participants are bound, when only bound clients join *)

Lemma rooms_bound_mono s s' :
  (∀ k r p, (k, r) ∈ chatRooms s' → p ∈ array s' (participants r) →
     ∃ k0 r0, (k0, r0) ∈ chatRooms s ∧ p ∈ array s (participants r0)) →
  (∀ p c, Map_get_field p (clients s) = Some c →
     ∃ c', Map_get_field p (clients s') = Some c') →
  rooms_bound s → rooms_bound s'.
Proof.
  intros Hrooms Hclients Hs k r p Hin Hp.
  destruct (Hrooms _ _ _ Hin Hp) as (k0 & r0 & Hin0 & Hp0).
  destruct (Hs _ _ _ Hin0 Hp0) as [c Hc]. by eapply Hclients.
Qed.

Lemma rooms_bound_ext s s' :
  chatRooms s' = chatRooms s → arrayHeap s' = arrayHeap s →
  (∀ p c, Map_get_field p (clients s) = Some c →
     ∃ c', Map_get_field p (clients s') = Some c') →
  rooms_bound s → rooms_bound s'.
Proof.
  intros Hc Ha. apply rooms_bound_mono. intros k r p Hin Hp. exists k, r.
  rewrite <- Hc. split; [done|]. by rewrite <- (array_ext s s').
Qed.

Lemma Map_get_field_set_mono {V} (k : string) (v : V) m p c :
  Map_get_field p m = Some c → ∃ c', Map_get_field p (Map_set k v m) = Some c'.
Proof.
  destruct p as [k'|]; simpl; [|done]. intros Hc.
  destruct (decide (k = k')) as [->|Hne].
  - rewrite Map_get_set_eq. by eexists.
  - rewrite Map_get_set_ne by done. by eexists.
Qed.

Lemma handleJoinRoom_rooms_bound s clientId roomId roomName now :
  Map_has clientId (clients s) = true →
  rooms_ok s → rooms_bound s →
  rooms_bound (handleJoinRoom s clientId roomId roomName now).1.
Proof.
  intros Hbound Hok Hs. unfold handleJoinRoom.
  set (s1 := if Map_has roomId (chatRooms s) then s else _).
  assert (Hc1 : clients s1 = clients s) by (subst s1; by case_match).
  assert (Hok1 : rooms_ok s1).
  { pose proof (handleJoinRoom_rooms_ok s clientId roomId roomName now Hok) as H.
    unfold handleJoinRoom in H. fold s1 in H.
    destruct (Map_get roomId (chatRooms s1)) as [r1|]; [|done]. cbn [fst] in H.
    destruct (includes _ _); [done|]. destruct H as [Hk Hv]. split; [done|].
    intros k0 r0 Hin. specialize (Hv k0 r0 Hin). simpl in Hv.
    by rewrite length_insert in Hv. }
  assert (H1 : rooms_bound s1).
  { subst s1. destruct (Map_has roomId (chatRooms s)); [done|].
    destruct Hok as [_ Hv]. intros k0 r0 p0 Hin Hp.
    apply elem_of_Map_set in Hin as [[-> ->]|Hin].
    - simpl in Hp. unfold array in Hp. simpl in Hp.
      rewrite list_lookup_middle in Hp by done. by apply elem_of_nil in Hp.
    - apply (Hs k0 r0 p0 Hin). unfold array in *. simpl in Hp.
      rewrite lookup_app_l in Hp by (by eapply Hv). done. }
  clearbody s1. destruct (Map_get roomId (chatRooms s1)) as [r|]; [|done].
  cbn [fst]. destruct (includes _ _); [done|].
  intros k r' p Hin Hp. simpl in Hin. change (clients (push _ _ s1)) with (clients s1).
  destruct (decide (participants r = participants r')) as [Heq|Hne].
  - rewrite <- Heq, array_push_eq in Hp by (destruct Hok1 as [_ Hv]; rewrite Heq; eauto).
    apply elem_of_app in Hp as [Hp|Hp%list_elem_of_singleton].
    + apply (H1 k r' p Hin). by rewrite <- Heq.
    + subst p. simpl. rewrite Hc1. unfold Map_has in Hbound.
      destruct (Map_get clientId (clients s)); [by eexists|done].
  - rewrite array_push_ne in Hp by done. by apply (H1 k r' p Hin).
Qed.

Lemma onMessage_rooms_bound s clientId data gen now :
  bound_sender s (EvMessage clientId data gen now) = true →
  rooms_ok s → rooms_bound s →
  rooms_bound (onMessage s clientId data gen now).1.
Proof.
  intros Hguard Hok Hs. destruct data as [[]|]; simpl; try done.
  - unfold handleUserRegister. case_match; [done|].
    apply (rooms_bound_ext s); [done..| |done]. apply Map_get_field_set_mono.
  - unfold handleUserLogin. repeat case_match; try done.
    apply (rooms_bound_ext s); [done..| |done]. apply Map_get_field_set_mono.
  - unfold handleGetUsers. by case_match.
  - unfold handleSendMessage.
    destruct (Map_get clientId (clients s)); [|done].
    destruct (truthy roomId); [|by case_match].
    destruct (Map_get roomId (chatRooms s)) as [r|] eqn:Hr; [|done].
    apply (rooms_bound_mono s); [|by eauto|done].
    intros k r' p [[-> ->]|Hin]%elem_of_Map_set Hp.
    + exists roomId, r. split; [by apply Map_get_elem|done].
    + by exists k, r'.
  - by apply handleJoinRoom_rooms_bound.
  - unfold handleLeaveRoom.
    destruct (Map_get roomId (chatRooms s)) as [r|] eqn:Hr; [|done]. cbn [fst].
    apply (rooms_bound_mono s); [|by eauto|done]. destruct Hok as [_ Hv].
    intros k r' p [[-> ->]|Hin]%elem_of_Map_set Hp.
    + simpl in Hp. rewrite dropParticipant_new in Hp.
      apply list_elem_of_filter in Hp as [_ Hp]. exists roomId, r.
      split; [by apply Map_get_elem|done].
    + exists k, r'. split; [done|].
      rewrite dropParticipant_old in Hp by (by eapply Hv). done.
  - unfold handleInitiateCall, new_array. destruct Hok as [_ Hv].
    repeat (case_match; simplify_eq/=); try done;
      (apply (rooms_bound_mono s); [|by eauto|done]);
      intros k r' p Hin Hp; exists k, r'; (split; [done|]);
      unfold array in *; simpl in Hp;
      rewrite lookup_app_l in Hp by (by eapply Hv); done.
  - unfold handleAnswerCall. by repeat case_match.
  - unfold handleRejectCall. by repeat case_match.
  - unfold handleEndCall. by repeat case_match.
  - unfold handleWebRTCSignaling. by repeat case_match.
  - unfold handleTyping. by repeat case_match.
  - unfold handleUserStatusChange. by repeat case_match.
Qed.

(** The state in which [handleDisconnect] deletes the client: the client is
    in no room any more, and no room has gained a participant. *)
Lemma handleDisconnect_rooms s clientId c now :
  rooms_ok s → Map_get clientId (clients s) = Some c →
  let s' := (handleDisconnect s clientId now).1 in
  (∀ k r, (k, r) ∈ chatRooms s' → Some clientId ∉ array s' (participants r))
  ∧ (∀ k r p, (k, r) ∈ chatRooms s' → p ∈ array s' (participants r) →
       ∃ k0 r0, (k0, r0) ∈ chatRooms s ∧ p ∈ array s (participants r0)).
Proof.
  intros Hok Hc. unfold handleDisconnect. rewrite Hc.
  set (s1 := match userHeap s !! client_user c with Some _ => _ | None => s end).
  assert (Hc1 : chatRooms s1 = chatRooms s) by (subst s1; by case_match).
  assert (Ha1 : arrayHeap s1 = arrayHeap s) by (subst s1; by case_match).
  clearbody s1.
  pose proof (endCallsOf_frame (activeCalls s1) clientId now s1) as Hf2.
  destruct (endCallsOf _ _ _ s1) as [s2 o2]. cbn [fst] in Hf2.
  destruct Hf2 as (_ & _ & _ & Hc2 & _ & Ha2).
  assert (Hc02 : chatRooms s2 = chatRooms s) by congruence.
  assert (Ha02 : arrayHeap s2 = arrayHeap s) by congruence.
  assert (H2 : rooms_ok s2) by (apply (rooms_ok_ext s); [done|by rewrite Ha02|done]).
  pose proof (leaveRoomsOf_all clientId (chatRooms s2) s2 H2 (proj1 H2)) as H3.
  destruct (leaveRoomsOf _ _ s2) as [s3 o3]. cbn [fst] in *.
  destruct H3 as [H3a H3b]; [done|by left|]. split; [done|].
  intros k r p Hin Hp. destruct (H3b _ _ _ Hin Hp) as (k0 & r0 & Hin0 & Hp0).
  exists k0, r0. rewrite <- Hc02. split; [done|]. by rewrite <- (array_ext s s2).
Qed.

Lemma handleDisconnect_clients s clientId now :
  clients (handleDisconnect s clientId now).1 = Map_delete clientId (clients s)
  ∧ sockets (handleDisconnect s clientId now).1 = sockets s.
Proof.
  unfold handleDisconnect. destruct (Map_get clientId (clients s)) as [c|]; [|done].
  set (s1 := match userHeap s !! client_user c with Some _ => _ | None => s end).
  assert (Hc1 : clients s1 = clients s) by (subst s1; by case_match).
  assert (Hk1 : sockets s1 = sockets s) by (subst s1; by case_match).
  clearbody s1.
  pose proof (endCallsOf_frame (activeCalls s1) clientId now s1) as Hf2.
  destruct (endCallsOf _ _ _ s1) as [s2 o2].
  pose proof (leaveRoomsOf_frame (chatRooms s2) clientId s2) as Hf3.
  destruct (leaveRoomsOf _ _ s2) as [s3 o3]. cbn [fst] in *.
  destruct Hf2 as (? & ? & _), Hf3 as (? & ? & _). simpl. split; congruence.
Qed.

Lemma handleDisconnect_rooms_bound s clientId now :
  rooms_ok s → rooms_bound s → rooms_bound (handleDisconnect s clientId now).1.
Proof.
  intros Hok Hs. destruct (Map_get clientId (clients s)) as [c|] eqn:Hc.
  - destruct (handleDisconnect_rooms s clientId c now Hok Hc) as [Hout Hsub].
    intros k r p Hin Hp. destruct (Hsub _ _ _ Hin Hp) as (k0 & r0 & Hin0 & Hp0).
    destruct (Hs _ _ _ Hin0 Hp0) as [c' Hc'].
    assert (Hne : p ≠ Some clientId) by (intros ->; by eapply Hout).
    pose proof (handleDisconnect_clients s clientId now) as Hcl.
    destruct Hcl as [-> _]. exists c'. destruct p as [id|]; [|done]. simpl in *.
    rewrite Map_get_delete_ne; [done|]. by intros ->.
  - unfold handleDisconnect. rewrite Hc. simpl. intros k r p Hin Hp.
    destruct (Hs _ _ _ Hin Hp) as [c' Hc']. exists c'.
    destruct p as [id|]; [|done]. simpl in *.
    rewrite Map_get_delete_ne; [done|]. intros ->. congruence.
Qed.

Lemma step_rooms_bound s e s' out :
  bound_sender s e = true → step s e = Some (s', out) →
  rooms_ok s → rooms_bound s → rooms_bound s'.
Proof.
  intros Hguard Hstep Hok Hs.
  destruct e as [cid now|cid data gen now|cid|cid now|cid]; unfold step in Hstep;
    destruct (Map_get cid (sockets s)) as [[]|]; try done; simplify_eq; try done.
  - pose proof (onMessage_rooms_bound s cid data gen now Hguard Hok Hs) as H'.
    by rewrite Hstep in H'.
  - pose proof (onMessage_rooms_bound s cid data gen now Hguard Hok Hs) as H'.
    by rewrite Hstep in H'.
  - pose proof (handleDisconnect_rooms_bound (with_sockets (Map_set cid CLOSED) s)
                  cid now Hok Hs) as H'. by rewrite Hstep in H'.
  - pose proof (handleDisconnect_rooms_bound (with_sockets (Map_set cid CLOSED) s)
                  cid now Hok Hs) as H'. by rewrite Hstep in H'.
Qed.

Lemma step_rooms_ok s e s' out :
  step s e = Some (s', out) → rooms_ok s → rooms_ok s'.
Proof.
  intros Hstep Hs. apply (step_cases rooms_ok _ _ _ _ Hstep); auto.
  - intros. by apply onMessage_rooms_ok.
  - intros. by apply handleDisconnect_rooms_ok.
Qed.

Lemma run_rooms_bound tr s s' out :
  run s tr = Some (s', out) → joins_bound s tr = true →
  rooms_ok s → rooms_bound s → rooms_bound s'.
Proof.
  revert s out. induction tr as [|e tr IH]; simpl; intros s out Hrun Hguard Hok Hs.
  - by injection Hrun as <- _.
  - destruct (step s e) as [[s1 o1]|] eqn:He; [|done].
    destruct (run s1 tr) as [[s2 o2]|] eqn:Hr; [|done].
    injection Hrun as <- _. apply andb_true_iff in Hguard as [Hg1 Hg2].
    eapply IH; [done|done|by eapply step_rooms_ok|by eapply step_rooms_bound].
Qed.

(** ** The disconnect cascade *)

Lemma resolvable_ext s s' p c :
  clients s' = clients s → sockets s' = sockets s →
  resolvable s' p c ↔ resolvable s p c.
Proof. unfold resolvable, isOpen. by intros -> ->. Qed.

Lemma callSnapshot_ext s s' c :
  arrayHeap s' = arrayHeap s → callSnapshot s' c = callSnapshot s c.
Proof. intros Ha. unfold callSnapshot. by rewrite (array_ext s s'). Qed.

Lemma Map_delete_absent {K V} `{EqDecision K} (k : K) (m : list (K * V)) :
  Map_get k m = None → Map_delete k m = m.
Proof.
  unfold Map_delete. induction m as [|[k0 v0] m IH]; simpl; [done|].
  destruct (decide (k0 = k)) as [->|Hne]; [done|]. intros Hg.
  rewrite filter_cons. simpl. rewrite IH by done. by case_match.
Qed.

Lemma handleEndCall_calls s clientId k now :
  activeCalls (handleEndCall s clientId (Some k) now).1
  = Map_delete k (activeCalls s).
Proof.
  unfold handleEndCall. destruct (Map_get k (activeCalls s)) eqn:Hk; simpl.
  - apply Map_delete_set.
  - by rewrite Map_delete_absent.
Qed.

Lemma endCallsOf_absent es clientId now s k :
  Map_get k (activeCalls s) = None →
  Map_get k (activeCalls (endCallsOf es clientId now s).1) = None.
Proof.
  revert s. induction es as [|[k0 c0] es IH]; intros s Hk; cbn [endCallsOf]; [done|].
  destruct (includes _ _); [|by apply IH].
  pose proof (handleEndCall_calls s clientId k0 now) as Hc.
  destruct (handleEndCall s clientId (Some k0) now) as [s1 o1]. cbn [fst] in Hc.
  specialize (IH s1). destruct (endCallsOf es clientId now s1) as [s2 o2].
  apply IH. rewrite Hc. destruct (decide (k0 = k)) as [->|Hne].
  - apply Map_get_delete_eq.
  - by rewrite Map_get_delete_ne.
Qed.

Lemma handleEndCall_notifies s clientId k c now p cp :
  Map_get k (activeCalls s) = Some c →
  p ∈ array s (call_participants c) → resolvable s p cp →
  Sent (ws cp) (CALL_ENDED (callSnapshot s (endedCall c clientId now)))
    ∈ (handleEndCall s clientId (Some k) now).2.
Proof.
  intros Hk Hp Hres. unfold handleEndCall. rewrite Hk. cbn [snd].
  apply elem_of_notifyParticipants. by exists p, cp.
Qed.

Lemma endCallsOf_call es clientId now s k c :
  Map_get k es = Some c →
  Map_get k (activeCalls s) = Some c →
  Some clientId ∈ array s (call_participants c) →
  Map_get k (activeCalls (endCallsOf es clientId now s).1) = None
  ∧ ∀ p cp, p ∈ array s (call_participants c) → resolvable s p cp →
      Sent (ws cp) (CALL_ENDED (callSnapshot s (endedCall c clientId now)))
        ∈ (endCallsOf es clientId now s).2.
Proof.
  revert s. induction es as [|[k0 c0] es IH]; intros s Hes Hk Hin; [done|].
  cbn [endCallsOf]. simpl in Hes. destruct (decide (k0 = k)) as [->|Hne].
  - injection Hes as ->. apply includes_true in Hin as Hinc. rewrite Hinc.
    pose proof (handleEndCall_calls s clientId k now) as Hc.
    pose proof (λ p cp, handleEndCall_notifies s clientId k c now p cp Hk) as Hn.
    destruct (handleEndCall s clientId (Some k) now) as [s1 o1]. cbn [fst snd] in *.
    pose proof (endCallsOf_absent es clientId now s1 k) as Ha.
    destruct (endCallsOf es clientId now s1) as [s2 o2]. cbn [fst snd] in *. split.
    + apply Ha. rewrite Hc. apply Map_get_delete_eq.
    + intros p cp Hp Hres. apply elem_of_app. left. by apply (Hn p cp).
  - destruct (includes _ _); [|by apply IH].
    pose proof (handleEndCall_calls s clientId k0 now) as Hc.
    pose proof (handleEndCall_frame s clientId (Some k0) now) as Hf.
    destruct (handleEndCall s clientId (Some k0) now) as [s1 o1]. cbn [fst] in *.
    destruct Hf as (Hso & Hcl & _ & _ & _ & Har).
    specialize (IH s1 Hes).
    destruct (endCallsOf es clientId now s1) as [s2 o2]. cbn [fst snd] in *.
    destruct IH as [IH1 IH2].
    + rewrite Hc. by rewrite Map_get_delete_ne.
    + by rewrite (array_ext s s1).
    + split; [done|]. intros p cp Hp Hres. apply elem_of_app. right.
      rewrite <- (callSnapshot_ext s s1) by done. apply (IH2 p cp).
      * by rewrite (array_ext s s1).
      * by apply (resolvable_ext s s1).
Qed.

Lemma leaveRoomsOf_room clientId es s k r :
  NoDup es.*1 → (k, r) ∈ es →
  Map_get k (chatRooms s) = Some r →
  Some clientId ∈ array s (participants r) →
  (∃ r', Map_get k (chatRooms (leaveRoomsOf es clientId s).1) = Some r'
         ∧ array (leaveRoomsOf es clientId s).1 (participants r')
           = filter (λ id, id ≠ Some clientId) (array s (participants r)))
  ∧ ∀ p cp, p ∈ array s (participants r) → p ≠ Some clientId →
      resolvable s p cp →
      Sent (ws cp) (USER_LEFT_ROOM clientId) ∈ (leaveRoomsOf es clientId s).2.
Proof.
  revert s. induction es as [|[k0 r0] es IH]; intros s Hnd Hin Hk Hmem;
    [by apply elem_of_nil in Hin|].
  rewrite fmap_cons in Hnd. apply NoDup_cons in Hnd as [Hk0 Hnd].
  cbn [leaveRoomsOf]. apply elem_of_cons in Hin as [Heq|Hin].
  - injection Heq as <- <-. apply includes_true in Hmem as Hinc. rewrite Hinc.
    set (s1 := dropParticipant s k r clientId).
    pose proof (leaveRoomsOf_keeps es clientId s1 k Hk0) as [Hkeep1 Hkeep2].
    pose proof (dropParticipant_get s k r clientId) as Hget. fold s1 in Hget.
    pose proof (λ o, elem_of_broadcastToRoom s1 k _ (USER_LEFT_ROOM clientId)
                       (Some clientId) o Hget) as Hb.
    destruct (leaveRoomsOf es clientId s1) as [s2 o2]. cbn [fst snd] in *. split.
    + eexists. split; [by rewrite Hkeep1|]. cbn [participants].
      rewrite Hkeep2 by (simpl; rewrite length_app; simpl; lia).
      apply dropParticipant_new.
    + intros p cp Hp Hne Hres. apply elem_of_app. left. apply Hb.
      exists p, cp. split_and!; [|by apply bool_decide_eq_true|done..].
      cbn [participants]. unfold s1. rewrite dropParticipant_new.
      by apply list_elem_of_filter.
  - assert (Hne : k0 ≠ k).
    { intros ->. apply Hk0. by apply (list_elem_of_fmap_2 fst _ (k, r)). }
    destruct (includes _ _); [|by apply IH].
    set (s1 := dropParticipant s k0 r0 clientId).
    assert (Ha1 : array s1 (participants r) = array s (participants r)).
    { apply dropParticipant_old. by eapply array_nonempty_valid. }
    specialize (IH s1 Hnd Hin).
    destruct (leaveRoomsOf es clientId s1) as [s2 o2]. cbn [fst snd] in *.
    destruct IH as [IH1 IH2].
    + unfold s1. by rewrite dropParticipant_get_ne.
    + by rewrite Ha1.
    + rewrite Ha1 in IH1, IH2. split; [done|].
      intros p cp Hp Hnp Hres. apply elem_of_app. right. by apply (IH2 p cp).
Qed.

(** ** Small facts used by the claims *)

Lemma filter_eq_absent {A} `{EqDecision A} (x : A) (l : list A) :
  x ∉ l → filter (λ y, y = x) l = [].
Proof.
  induction l as [|y l IH]; [done|]. intros [Hne Hl]%not_elem_of_cons.
  rewrite filter_cons. rewrite decide_False by done. by apply IH.
Qed.

Lemma NoDup_count_one {A} `{EqDecision A} (x : A) (l : list A) :
  NoDup l → x ∈ l → length (filter (λ y, y = x) l) = 1.
Proof.
  induction l as [|y l IH]; [by intros _ ?%elem_of_nil|].
  intros [Hy Hl]%NoDup_cons Hin. rewrite filter_cons.
  destruct (decide (y = x)) as [->|Hne].
  - by rewrite filter_eq_absent.
  - apply IH; [done|]. by apply elem_of_cons in Hin as [->|?].
Qed.

Lemma step_close s clientId now s' out :
  step s (EvClose clientId now) = Some (s', out) →
  handleDisconnect (with_sockets (Map_set clientId CLOSED) s) clientId now
  = (s', out).
Proof.
  unfold step. destruct (Map_get clientId (sockets s)) as [[]|]; congruence.
Qed.

Lemma handleDisconnect_cascade s U cU R rR C cC now :
  NoDup (chatRooms s).*1 →
  Map_get U (clients s) = Some cU →
  Map_get R (chatRooms s) = Some rR →
  Some U ∈ array s (participants rR) →
  Map_get C (activeCalls s) = Some cC →
  Some U ∈ array s (call_participants cC) →
  (∃ rR', Map_get R (chatRooms (handleDisconnect s U now).1) = Some rR'
          ∧ array (handleDisconnect s U now).1 (participants rR')
            = filter (λ id, id ≠ Some U) (array s (participants rR)))
  ∧ (∀ p cp, p ∈ array s (participants rR) → p ≠ Some U → resolvable s p cp →
       Sent (ws cp) (USER_LEFT_ROOM U) ∈ (handleDisconnect s U now).2)
  ∧ Map_get C (activeCalls (handleDisconnect s U now).1) = None
  ∧ (∀ p cp, p ∈ array s (call_participants cC) → resolvable s p cp →
       Sent (ws cp) (CALL_ENDED (callSnapshot s (endedCall cC U now)))
         ∈ (handleDisconnect s U now).2).
Proof.
  intros Hkeys HU HR HUR HC HUC. unfold handleDisconnect. rewrite HU.
  set (s1 := match userHeap s !! client_user cU with Some _ => _ | None => s end).
  assert (Hs1 : sockets s1 = sockets s ∧ clients s1 = clients s
                ∧ chatRooms s1 = chatRooms s ∧ activeCalls s1 = activeCalls s
                ∧ arrayHeap s1 = arrayHeap s)
    by (subst s1; case_match; split_and!; reflexivity).
  clearbody s1. destruct Hs1 as (Hso1 & Hcl1 & Hch1 & Hac1 & Har1).
  pose proof (endCallsOf_frame (activeCalls s1) U now s1) as Hf2.
  pose proof (endCallsOf_call (activeCalls s1) U now s1 C cC) as Hcall.
  destruct (endCallsOf (activeCalls s1) U now s1) as [s2 o2]. cbn [fst snd] in *.
  destruct Hf2 as (Hso2 & Hcl2 & _ & Hch2 & _ & Har2).
  destruct Hcall as [Hgone Hended];
    [by rewrite Hac1|by rewrite Hac1|by rewrite (array_ext s s1)|].
  pose proof (leaveRoomsOf_frame (chatRooms s2) U s2) as Hf3.
  pose proof (leaveRoomsOf_room U (chatRooms s2) s2 R rR) as Hroom.
  destruct (leaveRoomsOf (chatRooms s2) U s2) as [s3 o3]. cbn [fst snd] in *.
  destruct Hf3 as (_ & _ & _ & Hac3 & _).
  assert (Har02 : arrayHeap s2 = arrayHeap s) by congruence.
  assert (Hch02 : chatRooms s2 = chatRooms s) by congruence.
  destruct Hroom as [(rR' & HR' & Harr) Hleft].
  { by rewrite Hch02. }
  { apply Map_get_elem. by rewrite Hch02. }
  { by rewrite Hch02. }
  { by rewrite (array_ext s s2). }
  split_and!.
  - exists rR'. split; [done|]. rewrite <- (array_ext s s2) by done. exact Harr.
  - intros p cp Hp Hne Hr. rewrite !elem_of_app. right. right.
    apply (Hleft p cp); [by rewrite (array_ext s s2)|done|].
    apply (resolvable_ext s s2); [congruence..|done].
  - simpl. by rewrite Hac3.
  - intros p cp Hp Hr. rewrite !elem_of_app. right. left.
    rewrite <- (callSnapshot_ext s s1) by done.
    apply (Hended p cp); [by rewrite (array_ext s s1)|].
    by apply (resolvable_ext s s1).
Qed.

(** * The claims of the specification *)

(** ** C1: the participants of a room call *)






(** ** C2: call status transitions *)

(** C2 (as amended). In every reachable state the calls of the active set
    are ringing or active. A call of the active set accepts answer, reject
    and end whatever its status. Answer stores the call with status active
    and the answerer, and notifies its participants with it. Reject and end
    set status rejected resp. ended with the sender and the time, notify the
    participants with the call so changed, and remove it from the set,
    leaving everything else as it was. For a
    call id that is not in the active set (so for every call that was
    rejected or ended) the three operations send nothing and change
    nothing. *)
Theorem C2_call_transitions (s : state) :
  reachable s →
  (∀ k c, Map_get k (activeCalls s) = Some c →
     call_status c = ringing ∨ call_status c = active)
  ∧ (∀ clientId k c now, Map_get k (activeCalls s) = Some c →
       (let res := handleAnswerCall s clientId (Some k) now in
        let c' := callAnswered c clientId now in
        res.1 = with_activeCalls (Map_set k c') s
        ∧ Map_get k (activeCalls res.1) = Some c'
        ∧ call_status c' = active
        ∧ res.2 = notifyParticipants s c' (CALL_ANSWERED (callSnapshot s c')))
       ∧ (let res := handleRejectCall s clientId (Some k) now in
          let c' := callRejected c clientId now in
          res.1 = with_activeCalls (Map_delete k) s
          ∧ Map_get k (activeCalls res.1) = None
          ∧ call_status c' = rejected
          ∧ res.2 = notifyParticipants s c' (CALL_REJECTED (callSnapshot s c')))
       ∧ (let res := handleEndCall s clientId (Some k) now in
          let c' := endedCall c clientId now in
          res.1 = with_activeCalls (Map_delete k) s
          ∧ Map_get k (activeCalls res.1) = None
          ∧ call_status c' = ended
          ∧ res.2 = notifyParticipants s c' (CALL_ENDED (callSnapshot s c'))))
  ∧ (∀ clientId callId now, Map_get_field callId (activeCalls s) = None →
       handleAnswerCall s clientId callId now = (s, [])
       ∧ handleRejectCall s clientId callId now = (s, [])
       ∧ handleEndCall s clientId callId now = (s, [])).
Proof.
  intros Hreach. split_and!.
  - intros k c Hk. eapply reachable_calls_live; [done|]. by apply Map_get_elem.
  - intros clientId k c now Hk.
    unfold handleAnswerCall, handleRejectCall, handleEndCall. rewrite Hk.
    cbn [fst snd]. split_and!; try done.
    + apply Map_get_set_eq.
    + unfold with_activeCalls. simpl. by rewrite Map_delete_set.
    + apply Map_get_delete_eq.
    + unfold with_activeCalls. simpl. by rewrite Map_delete_set.
    + apply Map_get_delete_eq.
  - intros clientId callId now Hnone.
    unfold handleAnswerCall, handleRejectCall, handleEndCall.
    destruct callId as [k|]; [|done]. simpl in Hnone. by rewrite Hnone.
Qed.

Lemma C2_witness :
  reachable (after answeredCall)
  ∧ Map_get "call1" (activeCalls (after answeredCall)) = Some callAB
  ∧ (handleRejectCall (after answeredCall) "B" (Some "call1") "09:09").2
    = notifyParticipants (after answeredCall) (callRejected callAB "B" "09:09")
        (CALL_REJECTED
           (callSnapshot (after answeredCall) (callRejected callAB "B" "09:09"))).
Proof.
  assert (Hreach : reachable (after answeredCall)).
  { eexists answeredCall, _. vm_compute. reflexivity. }
  assert (Hcall : Map_get "call1" (activeCalls (after answeredCall)) = Some callAB)
    by (vm_compute; reflexivity).
  destruct (C2_call_transitions (after answeredCall) Hreach) as (_ & Hlive & _).
  destruct (Hlive "B" "call1" callAB "09:09" Hcall) as (_ & Hreject & _).
  destruct Hreject as (_ & _ & _ & Hout).
  split_and!; [exact Hreach|exact Hcall|exact Hout].
Defined.

(** C2 as stated fails: the call of [A] to [B], answered by [B] and active,
    accepts another answer (it stays active, answeredBy becomes [A], both are
    notified) and accepts a reject (it leaves the set as rejected). *)
Lemma C2_answer_and_reject_accepted_when_active :
  let s := after answeredCall in
  reachable s
  ∧ call_status <$> Map_get "call1" (activeCalls s) = Some active
  ∧ answeredBy <$> Map_get "call1" (activeCalls s) = Some (Some "B")
  ∧ (let r := onMessage s "A" (Some (ANSWER_CALL (Some "call1"))) "-" "09:08" in
     answeredBy <$> Map_get "call1" (activeCalls r.1) = Some (Some "A")
     ∧ dest <$> r.2 = ["A"; "B"])
  ∧ (let r := onMessage s "B" (Some (REJECT_CALL (Some "call1"))) "-" "09:08" in
     Map_get "call1" (activeCalls r.1) = None
     ∧ (λ o, match body o with
             | CALL_REJECTED c => Some (call_status c)
             | _ => None
             end) <$> r.2 = [Some rejected; Some rejected]).
Proof.
  split_and!; [|by vm_compute..].
  eexists answeredCall, _. vm_compute. reflexivity.
Qed.

(** ** C3: room messages *)

(** C3 (as amended). A room message appended to an existing room's history is
    broadcast with no exclusion: NEW_MESSAGE is sent exactly to the resolvable
    participants of the room, the sender included when the sender is one of
    them. *)
Theorem C3_room_message_reaches_all
    (s : state) (clientId : string) (c : client)
    (to content messageType roomId : field) (gen now : string) (r : room) :
  Map_get clientId (clients s) = Some c →
  truthy roomId = true →
  Map_get roomId (chatRooms s) = Some r →
  let messageData :=
    mkMessage gen clientId to content (default "text" messageType) now roomId in
  let out := (handleSendMessage s clientId to content messageType roomId gen now).2 in
  (∀ o, o ∈ out ↔
        ∃ p cl, p ∈ array s (participants r) ∧ resolvable s p cl
                ∧ o = Sent (ws cl) (NEW_MESSAGE messageData))
  ∧ (Some clientId ∈ array s (participants r) → isOpen s (ws c) = true →
     Sent (ws c) (NEW_MESSAGE messageData) ∈ out).
Proof.
  intros Hc Hroom Hr. unfold handleSendMessage. rewrite Hc, Hroom, Hr. simpl.
  set (md := mkMessage _ _ _ _ _ _ _).
  set (s1 := with_chatRooms _ s).
  assert (Hr1 : Map_get roomId (chatRooms s1)
                = Some (mkRoom (room_id r) (room_name r) (participants r)
                          (messages r ++ [md]) (createdAt r)))
    by apply Map_get_set_eq.
  assert (Hall : ∀ o, o ∈ broadcastToRoom s1 roomId (NEW_MESSAGE md) None ↔
        ∃ p cl, p ∈ array s (participants r) ∧ resolvable s p cl
                ∧ o = Sent (ws cl) (NEW_MESSAGE md)).
  { intros o. rewrite (elem_of_broadcastToRoom _ _ _ _ _ _ Hr1). simpl.
    split.
    - intros (p & cl & Hp & _ & Hres & Ho). by exists p, cl.
    - intros (p & cl & Hp & Hres & Ho). by exists p, cl. }
  split; [done|]. intros Hin Hopen. apply Hall. exists (Some clientId), c.
  by split_and!.
Qed.

Lemma C3_witness :
  let s := after roomOfThree in
  let messageData :=
    mkMessage "m1" "A" None (Some "hello") "text" "09:10" (Some "R") in
  Map_get "A" (clients s) = Some (mkClient "A" 0)
  ∧ truthy (Some "R") = true
  ∧ Map_get (Some "R") (chatRooms s) = Some roomR
  ∧ Sent "A" (NEW_MESSAGE messageData)
      ∈ (handleSendMessage s "A" None (Some "hello") None (Some "R") "m1"
           "09:10").2.
Proof.
  intros s messageData.
  assert (H1 : Map_get "A" (clients s) = Some (mkClient "A" 0))
    by (vm_compute; reflexivity).
  assert (H2 : truthy (Some "R") = true) by reflexivity.
  assert (H3 : Map_get (Some "R") (chatRooms s) = Some roomR)
    by (vm_compute; reflexivity).
  assert (H4 : Some "A" ∈ array s (participants roomR)) by (vm_compute; left).
  assert (H5 : isOpen s (ws (mkClient "A" 0)) = true) by (vm_compute; reflexivity).
  destruct (C3_room_message_reaches_all s "A" (mkClient "A" 0) None (Some "hello")
              None (Some "R") "m1" "09:10" roomR H1 H2 H3) as [_ Hself].
  split_and!; [exact H1|exact H2|exact H3|exact (Hself H4 H5)].
Defined.

(** C3 as stated fails: [A], [B] and [C] are in room [R]; [A] posts a
    message and receives one NEW_MESSAGE for it, as [B] and [C] do. *)
Lemma C3_sender_gets_own_message :
  let s := after roomOfThree in
  let out :=
    (onMessage s "A" (Some (SEND_MESSAGE None (Some "hello") None (Some "R")))
       "m1" "09:10").2 in
  reachable s
  ∧ participants <$> Map_get (Some "R") (chatRooms s) = Some 0
  ∧ array s 0 = [Some "A"; Some "B"; Some "C"]
  ∧ newMessagesTo "A" out = 1
  ∧ newMessagesTo "B" out = 1
  ∧ newMessagesTo "C" out = 1.
Proof.
  split_and!; [|by vm_compute..].
  eexists roomOfThree, _. vm_compute. reflexivity.
Qed.

(** ** C4: the stored history *)

(** C4 (as amended). Appending a message to an existing room's history puts
    it at the end and evicts nothing: the stored history is the former one
    followed by the new message, one entry longer, whatever its length. *)
Theorem C4_history_append_only
    (s : state) (clientId : string) (c : client)
    (to content messageType roomId : field) (gen now : string) (r : room) :
  Map_get clientId (clients s) = Some c →
  truthy roomId = true →
  Map_get roomId (chatRooms s) = Some r →
  let messageData :=
    mkMessage gen clientId to content (default "text" messageType) now roomId in
  ∃ r', Map_get roomId
          (chatRooms (handleSendMessage s clientId to content messageType roomId
                        gen now).1) = Some r'
        ∧ messages r' = messages r ++ [messageData]
        ∧ length (messages r') = S (length (messages r)).
Proof.
  intros Hc Hroom Hr. unfold handleSendMessage. rewrite Hc, Hroom, Hr. simpl.
  eexists. rewrite Map_get_set_eq. split; [reflexivity|]. simpl.
  split; [done|]. rewrite length_app. simpl. lia.
Qed.

Lemma C4_witness :
  let s := after (enter "A" "alice" "R") in
  Map_get "A" (clients s) = Some (mkClient "A" 0)
  ∧ truthy (Some "R") = true
  ∧ Map_get (Some "R") (chatRooms s) = Some roomR
  ∧ ∃ r', Map_get (Some "R")
            (chatRooms (handleSendMessage s "A" None (Some "hello") None
                          (Some "R") "m1" "09:10").1) = Some r'
          ∧ messages r'
            = messages roomR
                ++ [mkMessage "m1" "A" None (Some "hello") (default "text" None)
                      "09:10" (Some "R")]
          ∧ length (messages r') = S (length (messages roomR)).
Proof.
  intros s.
  assert (H1 : Map_get "A" (clients s) = Some (mkClient "A" 0))
    by (vm_compute; reflexivity).
  assert (H2 : truthy (Some "R") = true) by reflexivity.
  assert (H3 : Map_get (Some "R") (chatRooms s) = Some roomR)
    by (vm_compute; reflexivity).
  split_and!; [exact H1|exact H2|exact H3|].
  exact (C4_history_append_only s "A" (mkClient "A" 0) None (Some "hello") None
           (Some "R") "m1" "09:10" roomR H1 H2 H3).
Defined.

(** C4 as stated fails: after 51 messages the stored history of the room
    holds 51 entries. *)
Lemma C4_history_exceeds_50 :
  ¬ (∀ s, reachable s → ∀ roomId r,
       Map_get roomId (chatRooms s) = Some r → length (messages r) ≤ 50).
Proof.
  intros Hbound.
  destruct (Map_get (Some "R") (chatRooms (after (flood 51)))) as [r|] eqn:Hr;
    [|by vm_compute in Hr].
  assert (Hreach : reachable (after (flood 51))).
  { eexists (flood 51), _. vm_compute. reflexivity. }
  specialize (Hbound _ Hreach _ _ Hr).
  vm_compute in Hr. injection Hr as <-. vm_compute in Hbound. lia.
Qed.

(** ** C5: usernames *)

Lemma count_by_value (x : name) (l : list name) :
  by_value x = true → NoDup (filter (λ n, by_value n = true) l) → x ∈ l →
  length (filter (λ n, n = x) l) = 1.
Proof.
  intros Hx Hnd Hin.
  assert (Heq : filter (λ n, n = x) l
                = filter (λ n, n = x) (filter (λ n, by_value n = true) l)).
  { rewrite list_filter_filter. apply list_filter_iff. intros n. split; [|tauto].
    intros ->. by split. }
  rewrite Heq. apply NoDup_count_one; [done|]. by apply list_elem_of_filter.
Qed.




(** ** C6: the disconnect cascade *)

(** C6. Let U be bound, a participant of room R and of a call C of the
    active set, in a reachable state. Handling the close of U's connection
    leaves R with its former participants minus U, sends USER_LEFT_ROOM to
    every remaining participant of R that is resolvable, removes C from the
    active set, and sends CALL_ENDED, carrying C with status ended and
    endedBy U, to every remaining participant of C that is resolvable. *)
Theorem C6_disconnect_cascade
    (s : state) (U : string) (cU : client) (R : field) (rR : room)
    (C : string) (cC : call) (now : string) (s' : state) (out : list sent) :
  reachable s →
  Map_get U (clients s) = Some cU →
  Map_get R (chatRooms s) = Some rR →
  Some U ∈ array s (participants rR) →
  Map_get C (activeCalls s) = Some cC →
  Some U ∈ array s (call_participants cC) →
  step s (EvClose U now) = Some (s', out) →
  (∃ rR', Map_get R (chatRooms s') = Some rR'
          ∧ array s' (participants rR')
            = filter (λ id, id ≠ Some U) (array s (participants rR)))
  ∧ (∀ p cp, p ∈ array s (participants rR) → p ≠ Some U →
       resolvable s' p cp → Sent (ws cp) (USER_LEFT_ROOM U) ∈ out)
  ∧ Map_get C (activeCalls s') = None
  ∧ (∃ view, call_id view = call_id cC ∧ call_status view = ended
             ∧ endedBy view = Some U
             ∧ call_participants view = array s (call_participants cC)
             ∧ ∀ p cp, p ∈ array s (call_participants cC) → p ≠ Some U →
                 resolvable s' p cp → Sent (ws cp) (CALL_ENDED view) ∈ out).
Proof.
  intros [Hkeys _]%reachable_rooms_ok HU HR HUR HC HUC Hstep%step_close.
  set (s0 := with_sockets (Map_set U CLOSED) s) in Hstep.
  pose proof (handleDisconnect_clients s0 U now) as [Hcl Hso].
  pose proof (handleDisconnect_cascade s0 U cU R rR C cC now Hkeys HU HR HUR HC HUC)
    as (Hroom & Hleft & Hgone & Hended).
  rewrite Hstep in Hcl, Hso, Hroom, Hleft, Hgone, Hended.
  cbn [fst snd] in Hcl, Hso, Hroom, Hleft, Hgone, Hended.
  assert (Hres : ∀ p cp, p ≠ Some U → resolvable s' p cp → resolvable s0 p cp).
  { intros p cp Hne [Hp Ho]. split.
    - rewrite Hcl in Hp. destruct p as [id|]; [|done]. simpl in *.
      rewrite Map_get_delete_ne in Hp; [done|]. by intros ->.
    - unfold isOpen in *. by rewrite <- Hso. }
  split_and!; [done| |done|].
  - intros p cp Hp Hne Hr. apply (Hleft p cp); [done..|]. by apply Hres.
  - exists (callSnapshot s (endedCall cC U now)). split_and!; [done..|].
    intros p cp Hp Hne Hr. apply (Hended p cp); [done|]. by apply Hres.
Qed.

Lemma C6_witness :
  let s := after conference in
  reachable s
  ∧ Map_get "A" (clients s) = Some (mkClient "A" 0)
  ∧ Map_get (Some "R") (chatRooms s) = Some roomR
  ∧ Some "A" ∈ array s (participants roomR)
  ∧ Map_get "call1" (activeCalls s) = Some callR
  ∧ Some "A" ∈ array s (call_participants callR)
  ∧ ∃ s' out, step s (EvClose "A" "09:30") = Some (s', out)
              ∧ Map_get "call1" (activeCalls s') = None
              ∧ Sent "B" (USER_LEFT_ROOM "A") ∈ out.
Proof.
  intros s.
  assert (H0 : reachable s) by (eexists conference, _; vm_compute; reflexivity).
  assert (H1 : Map_get "A" (clients s) = Some (mkClient "A" 0))
    by (vm_compute; reflexivity).
  assert (H2 : Map_get (Some "R") (chatRooms s) = Some roomR)
    by (vm_compute; reflexivity).
  assert (H3 : Some "A" ∈ array s (participants roomR)) by (vm_compute; left).
  assert (H4 : Map_get "call1" (activeCalls s) = Some callR)
    by (vm_compute; reflexivity).
  assert (H5 : Some "A" ∈ array s (call_participants callR)) by (vm_compute; left).
  split_and!; [exact H0|exact H1|exact H2|exact H3|exact H4|exact H5|].
  destruct (step s (EvClose "A" "09:30")) as [[s' out]|] eqn:Hstep;
    [|vm_compute in Hstep; discriminate Hstep].
  assert (HB : Some "B" ∈ array s (participants roomR))
    by (vm_compute; right; left).
  assert (Hne : Some "B" ≠ Some "A") by discriminate.
  assert (Hres : resolvable s' (Some "B") (mkClient "B" 1)).
  { revert Hstep. vm_compute. intros [= <- _]. split; reflexivity. }
  exists s', out. split; [reflexivity|].
  destruct (C6_disconnect_cascade s "A" (mkClient "A" 0) (Some "R") roomR "call1"
              callR "09:30" s' out H0 H1 H2 H3 H4 H5 Hstep)
    as (_ & Hleft & Hgone & _).
  split; [exact Hgone|exact (Hleft (Some "B") (mkClient "B" 1) HB Hne Hres)].
Defined.

(** ** C7: who is in a room *)

(** C7 (as amended). In every state reached by a run in which JOIN_ROOM is
    only sent by clients bound in the registry, every id in a room's
    participant array is bound in the registry; and handling the close of a
    bound connection removes its id from every room's participant array. *)
Theorem C7_bound_joiners_stay_bound
    (tr : list event) (s : state) (out : list sent) :
  run initial tr = Some (s, out) →
  joins_bound initial tr = true →
  (∀ roomId r p, Map_get roomId (chatRooms s) = Some r →
     p ∈ array s (participants r) → ∃ c, Map_get_field p (clients s) = Some c)
  ∧ (∀ clientId c now s' out',
       Map_get clientId (clients s) = Some c →
       step s (EvClose clientId now) = Some (s', out') →
       ∀ roomId r, Map_get roomId (chatRooms s') = Some r →
         Some clientId ∉ array s' (participants r)).
Proof.
  intros Hrun Hguard.
  assert (Hok0 : rooms_ok initial).
  { split; [apply NoDup_nil_2|by intros k r ?%elem_of_nil]. }
  assert (Hb0 : rooms_bound initial) by (by intros k r p ?%elem_of_nil).
  split.
  - intros roomId r p Hr Hp.
    eapply (run_rooms_bound tr initial s out); eauto using Map_get_elem.
  - intros clientId c now s' out' Hc Hstep%step_close roomId r Hr.
    assert (Hok : rooms_ok s) by (apply reachable_rooms_ok; by exists tr, out).
    pose proof (handleDisconnect_rooms (with_sockets (Map_set clientId CLOSED) s)
                  clientId c now Hok Hc) as [Hgone _].
    rewrite Hstep in Hgone. cbn [fst] in Hgone.
    eapply Hgone. by apply Map_get_elem.
Qed.

Lemma C7_witness :
  run initial roomOfThree = Some (after roomOfThree, outputs roomOfThree)
  ∧ joins_bound initial roomOfThree = true
  ∧ ∀ roomId r p,
      Map_get roomId (chatRooms (after roomOfThree)) = Some r →
      p ∈ array (after roomOfThree) (participants r) →
      ∃ c, Map_get_field p (clients (after roomOfThree)) = Some c.
Proof.
  assert (H1 : run initial roomOfThree
               = Some (after roomOfThree, outputs roomOfThree))
    by (vm_compute; reflexivity).
  assert (H2 : joins_bound initial roomOfThree = true) by (vm_compute; reflexivity).
  destruct (C7_bound_joiners_stay_bound roomOfThree (after roomOfThree)
              (outputs roomOfThree) H1 H2) as [Hbound _].
  split_and!; [exact H1|exact H2|exact Hbound].
Defined.

(** C7 as stated fails: a connection that joins room [R] without registering
    is in the room's participant array, is not bound in the registry, and is
    still in the array after its close has been handled. *)
Lemma C7_unbound_participant :
  ¬ (∀ s, reachable s → ∀ roomId r p,
       Map_get roomId (chatRooms s) = Some r → p ∈ array s (participants r) →
       ∃ c, Map_get_field p (clients s) = Some c).
Proof.
  intros Hinv.
  assert (Hreach : reachable (after (anonymousJoin ++ [EvClose "X" "09:02"]))).
  { eexists (anonymousJoin ++ [EvClose "X" "09:02"]), _. vm_compute. reflexivity. }
  destruct (Hinv _ Hreach (Some "R") (mkRoom (Some "R") "Room R" 0 [] "09:01")
              (Some "X")) as [c Hc].
  - by vm_compute.
  - vm_compute. left.
  - by vm_compute in Hc.
Qed.

(** ** C8: what a join returns *)





(** ** C9: who may answer, reject or end a call *)

(** C9. Answer, reject and end only look the call id up in the active set.
    For a call of the active set and any client id, participant of the call
    or not: ANSWER_CALL leaves the call in the set with status active and
    answeredBy that client; REJECT_CALL and END_CALL remove it; each notifies
    every resolvable participant of the call with the changed call. *)
Theorem C9_call_ops_ignore_membership
    (s : state) (clientId k : string) (c : call) (gen now : string) :
  Map_get k (activeCalls s) = Some c →
  let answered := onMessage s clientId (Some (ANSWER_CALL (Some k))) gen now in
  let declined := onMessage s clientId (Some (REJECT_CALL (Some k))) gen now in
  let finished := onMessage s clientId (Some (END_CALL (Some k))) gen now in
  (∃ c', Map_get k (activeCalls answered.1) = Some c'
         ∧ call_status c' = active ∧ answeredBy c' = Some clientId
         ∧ ∀ p cl, p ∈ array s (call_participants c) → resolvable s p cl →
             Sent (ws cl) (CALL_ANSWERED (callSnapshot s c')) ∈ answered.2)
  ∧ (Map_get k (activeCalls declined.1) = None
     ∧ ∃ c', call_status c' = rejected ∧ rejectedBy c' = Some clientId
         ∧ ∀ p cl, p ∈ array s (call_participants c) → resolvable s p cl →
             Sent (ws cl) (CALL_REJECTED (callSnapshot s c')) ∈ declined.2)
  ∧ (Map_get k (activeCalls finished.1) = None
     ∧ ∃ c', call_status c' = ended ∧ endedBy c' = Some clientId
         ∧ ∀ p cl, p ∈ array s (call_participants c) → resolvable s p cl →
             Sent (ws cl) (CALL_ENDED (callSnapshot s c')) ∈ finished.2).
Proof.
  intros Hc. simpl. unfold handleAnswerCall, handleRejectCall, handleEndCall.
  rewrite Hc. simpl. split_and!.
  - eexists. rewrite Map_get_set_eq. split; [reflexivity|]. simpl.
    split_and!; [done..|]. intros p cl Hp Hres. apply elem_of_notifyParticipants. by exists p, cl.
  - apply Map_get_delete_eq.
  - eexists (mkCall _ _ _ _ _ _ _ _ _ _ _ _). simpl. split_and!; [reflexivity..|].
    intros p cl Hp Hres. apply elem_of_notifyParticipants. by exists p, cl.
  - apply Map_get_delete_eq.
  - eexists (mkCall _ _ _ _ _ _ _ _ _ _ _ _). simpl. split_and!; [reflexivity..|].
    intros p cl Hp Hres. apply elem_of_notifyParticipants. by exists p, cl.
Qed.

Lemma C9_witness :
  let s := after answeredCall in
  Map_get "call1" (activeCalls s) = Some callAB
  ∧ (Some "C" ∉ array s (call_participants callAB))
  ∧ Map_get "call1"
      (activeCalls (onMessage s "C" (Some (END_CALL (Some "call1"))) "-" "09:10").1)
    = None.
Proof.
  intros s.
  assert (H1 : Map_get "call1" (activeCalls s) = Some callAB)
    by (vm_compute; reflexivity).
  assert (H2 : Some "C" ∉ array s (call_participants callAB)).
  { apply includes_false. vm_compute. reflexivity. }
  destruct (C9_call_ops_ignore_membership s "C" "call1" callAB "-" "09:10" H1)
    as (_ & _ & Hgone & _).
  split_and!; [exact H1|exact H2|exact Hgone].
Defined.

(** ** C10: the confirmation of a direct message *)

(** C10. A SEND_MESSAGE with a truthy [to] and no truthy roomId, from a bound
    client, changes no state and sends MESSAGE_SENT with the message data on
    the sender's socket, whether or not the recipient is resolvable; when it
    is not, the confirmation is all that is sent. *)
Theorem C10_direct_message_confirmed
    (s : state) (clientId : string) (c : client)
    (to content messageType roomId : field) (gen now : string) :
  Map_get clientId (clients s) = Some c →
  truthy to = true →
  truthy roomId = false →
  let messageData :=
    mkMessage gen clientId to content (default "text" messageType) now roomId in
  let r := onMessage s clientId
             (Some (SEND_MESSAGE to content messageType roomId)) gen now in
  r.1 = s
  ∧ Sent (ws c) (MESSAGE_SENT messageData) ∈ r.2
  ∧ ((∀ cl, ¬ resolvable s to cl) → r.2 = [Sent (ws c) (MESSAGE_SENT messageData)]).
Proof.
  intros Hc Hto Hroom. simpl. unfold handleSendMessage.
  rewrite Hc, Hroom, Hto. simpl. split_and!; [done| |].
  - apply elem_of_app. right. left.
  - intros Hnone.
    destruct (sendToUser s to _) as [|o l] eqn:Hs; [done|].
    assert (Ho : o ∈ sendToUser s to (NEW_MESSAGE (mkMessage gen clientId to content (default "text" messageType) now roomId)))
      by (rewrite Hs; left).
    apply elem_of_sendToUser in Ho as (cl & Hres & _). by destruct (Hnone cl).
Qed.

Lemma C10_witness :
  let s := after roomOfThree in
  Map_get "A" (clients s) = Some (mkClient "A" 0)
  ∧ truthy (Some "Z") = true
  ∧ truthy None = false
  ∧ Map_get_field (Some "Z") (clients s) = None
  ∧ Sent "A"
      (MESSAGE_SENT
         (mkMessage "m1" "A" (Some "Z") (Some "hello") "text" "09:10" None))
      ∈ (onMessage s "A" (Some (SEND_MESSAGE (Some "Z") (Some "hello") None None))
           "m1" "09:10").2.
Proof.
  intros s.
  assert (H1 : Map_get "A" (clients s) = Some (mkClient "A" 0))
    by (vm_compute; reflexivity).
  assert (H2 : truthy (Some "Z") = true) by reflexivity.
  assert (H3 : truthy None = false) by reflexivity.
  assert (H4 : Map_get_field (Some "Z") (clients s) = None)
    by (vm_compute; reflexivity).
  destruct (C10_direct_message_confirmed s "A" (mkClient "A" 0) (Some "Z")
              (Some "hello") None None "m1" "09:10" H1 H2 H3) as (_ & Hsent & _).
  split_and!; [exact H1|exact H2|exact H3|exact H4|exact Hsent].
Defined.

(** * Further properties of the handlers *)

(** ** More on the [Map] operations *)

Section js_map_unique.
Context {K V : Type} `{EqDecision K}.
Implicit Types (k : K) (v : V) (m : list (K * V)).

Lemma Map_get_unique k v m : NoDup m.*1 → (k, v) ∈ m → Map_get k m = Some v.
Proof.
  induction m as [|[k' v'] m IH]; simpl; [by intros _ ?%elem_of_nil|].
  intros [Hk Hm]%NoDup_cons [Heq|Hin]%elem_of_cons.
  - injection Heq as -> ->. by rewrite decide_True.
  - destruct (decide (k' = k)) as [->|]; [|by apply IH].
    exfalso. apply Hk. by apply (list_elem_of_fmap_2 fst _ (k, v)).
Qed.

Lemma Map_delete_unique k m : NoDup m.*1 → NoDup (Map_delete k m).*1.
Proof.
  unfold Map_delete. induction m as [|[k0 v0] m IH]; [done|].
  rewrite fmap_cons, filter_cons. intros [Hk Hm]%NoDup_cons.
  destruct (decide ((k0, v0).1 ≠ k)); [|by apply IH].
  rewrite fmap_cons. apply NoDup_cons. split; [|by apply IH].
  intros [[k1 v1] [Heq [_ Hin]%list_elem_of_filter]]%list_elem_of_fmap.
  apply Hk. rewrite Heq. by apply (list_elem_of_fmap_2 fst _ (k1, v1)).
Qed.

Lemma Map_has_true k m : Map_has k m = true ↔ ∃ v, Map_get k m = Some v.
Proof.
  unfold Map_has. destruct (Map_get k m); split; try done.
  - by eexists.
  - by intros [? ?].
Qed.

Lemma Map_has_false k m : Map_has k m = false ↔ Map_get k m = None.
Proof. unfold Map_has. by destruct (Map_get k m). Qed.
End js_map_unique.

(** ** The loops of [handleDisconnect], once more *)

Lemma endCallsOf_preserves (P : state → Prop) clientId now :
  (∀ s k, P s → P (handleEndCall s clientId (Some k) now).1) →
  ∀ es s, P s → P (endCallsOf es clientId now s).1.
Proof.
  intros Hend. induction es as [|[k c] es IH]; intros s Hs; cbn [endCallsOf]; [done|].
  destruct (includes _ _); [|by apply IH].
  specialize (Hend s k Hs).
  destruct (handleEndCall s clientId (Some k) now) as [s1 o1].
  specialize (IH s1 Hend). by destruct (endCallsOf es clientId now s1).
Qed.

Lemma leaveRoomsOf_preserves (P : state → Prop) clientId :
  (∀ s k r, P s → rooms_ok s → Map_get k (chatRooms s) = Some r →
     Some clientId ∈ array s (participants r) →
     P (dropParticipant s k r clientId)) →
  ∀ es s, NoDup es.*1 →
    (∀ k r, (k, r) ∈ es → Map_get k (chatRooms s) = Some r) →
    rooms_ok s → P s → P (leaveRoomsOf es clientId s).1.
Proof.
  intros Hdrop. induction es as [|[k r] es IH]; intros s Hnd Hcur Hok Hs;
    cbn [leaveRoomsOf]; [done|].
  rewrite fmap_cons in Hnd. apply NoDup_cons in Hnd as [Hk Hnd].
  assert (Hrest : ∀ k' r', (k', r') ∈ es → Map_get k' (chatRooms s) = Some r')
    by (intros; apply Hcur; by right).
  destruct (includes _ _) eqn:Hmem; [|by apply IH].
  apply includes_true in Hmem.
  assert (Hr : Map_get k (chatRooms s) = Some r) by (apply Hcur; left).
  specialize (IH (dropParticipant s k r clientId) Hnd).
  destruct (leaveRoomsOf es clientId _) as [s2 o2]. apply IH.
  - intros k' r' Hin. rewrite dropParticipant_get_ne; [by apply Hrest|].
    intros ->. apply Hk. by apply (list_elem_of_fmap_2 fst _ (k', r')).
  - by apply dropParticipant_rooms_ok.
  - by apply Hdrop.
Qed.

(** [handleDisconnect] is made of four kinds of updates. *)
Lemma handleDisconnect_preserves (P : state → Prop) s clientId now :
  (∀ s r u, P s → userHeap s !! r = Some u →
     P (with_userHeap
          (λ h, <[r := mkUser (user_id u) (user_username u) (user_avatar u)
                         (Some "offline") now]> h) s)) →
  (∀ s k, P s → P (handleEndCall s clientId (Some k) now).1) →
  (∀ s k r, P s → rooms_ok s → Map_get k (chatRooms s) = Some r →
     Some clientId ∈ array s (participants r) →
     P (dropParticipant s k r clientId)) →
  (∀ s, P s → P (with_clients (Map_delete clientId) s)) →
  rooms_ok s → P s → P (handleDisconnect s clientId now).1.
Proof.
  intros Hheap Hend Hdrop Hdel Hok Hs. unfold handleDisconnect.
  destruct (Map_get clientId (clients s)) as [c|]; [|by apply Hdel].
  set (s1 := match userHeap s !! client_user c with Some _ => _ | None => s end).
  assert (H1 : P s1 ∧ rooms_ok s1).
  { subst s1. destruct (userHeap s !! client_user c) eqn:Hu; [|done].
    split; [by apply Hheap|done]. }
  clearbody s1. destruct H1 as [H1 Hok1].
  pose proof (endCallsOf_preserves P clientId now Hend (activeCalls s1) s1 H1) as H2.
  pose proof (endCallsOf_frame (activeCalls s1) clientId now s1) as Hf2.
  destruct (endCallsOf _ _ _ s1) as [s2 o2]. cbn [fst] in *.
  destruct Hf2 as (_ & _ & _ & Hc2 & _ & Ha2).
  assert (Hok2 : rooms_ok s2) by (apply (rooms_ok_ext s1); [done|by rewrite Ha2|done]).
  pose proof (leaveRoomsOf_preserves P clientId Hdrop (chatRooms s2) s2 (proj1 Hok2))
    as H3.
  destruct (leaveRoomsOf _ _ s2) as [s3 o3]. cbn [fst] in *.
  apply Hdel, H3; [|done..]. intros k r Hin. by apply Map_get_unique; [apply Hok2|].
Qed.

(** An invariant that needs [rooms_ok] next to it. *)
Lemma reachable_invariant_rooms (P : state → Prop) :
  P initial →
  (∀ s e s' out, rooms_ok s → P s → step s e = Some (s', out) → P s') →
  ∀ s, reachable s → P s.
Proof.
  intros H0 Hstep s Hreach.
  assert (H : rooms_ok s ∧ P s); [|by destruct H].
  revert s Hreach. apply reachable_invariant.
  - split; [|done]. split; [apply NoDup_nil_2|by intros k r ?%elem_of_nil].
  - intros s e s' out [Hok Hs] He. split; [by eapply step_rooms_ok|by eapply Hstep].
Qed.

(** ** Bound clients and their sockets *)

Lemma onMessage_sockets s clientId data gen now :
  sockets (onMessage s clientId data gen now).1 = sockets s.
Proof.
  destruct data as [[]|]; simpl; try done.
  - unfold handleUserRegister. by case_match.
  - unfold handleUserLogin. by repeat case_match.
  - unfold handleGetUsers. by case_match.
  - unfold handleSendMessage. by repeat case_match.
  - unfold handleJoinRoom, new_array. by repeat (case_match; simplify_eq/=).
  - unfold handleLeaveRoom. by case_match.
  - unfold handleInitiateCall, new_array. by repeat (case_match; simplify_eq/=).
  - unfold handleAnswerCall. by repeat case_match.
  - unfold handleRejectCall. by repeat case_match.
  - unfold handleEndCall. by repeat case_match.
  - unfold handleWebRTCSignaling. by repeat case_match.
  - unfold handleTyping. by repeat case_match.
  - unfold handleUserStatusChange. by repeat case_match.
Qed.

Lemma onMessage_clients s clientId data gen now :
  clients (onMessage s clientId data gen now).1 = clients s
  ∨ ∃ r, clients (onMessage s clientId data gen now).1
         = Map_set clientId (mkClient clientId r) (clients s).
Proof.
  destruct data as [[]|]; simpl; try (by left).
  - unfold handleUserRegister. case_match; [by left|]. right. by eexists.
  - unfold handleUserLogin. repeat case_match; try (by left). right. by eexists.
  - left. unfold handleGetUsers. by case_match.
  - left. unfold handleSendMessage. by repeat case_match.
  - left. unfold handleJoinRoom, new_array. by repeat (case_match; simplify_eq/=).
  - left. unfold handleLeaveRoom. by case_match.
  - left. unfold handleInitiateCall, new_array.
    by repeat (case_match; simplify_eq/=).
  - left. unfold handleAnswerCall. by repeat case_match.
  - left. unfold handleRejectCall. by repeat case_match.
  - left. unfold handleEndCall. by repeat case_match.
  - left. unfold handleWebRTCSignaling. by repeat case_match.
  - left. unfold handleTyping. by repeat case_match.
  - left. unfold handleUserStatusChange. by repeat case_match.
Qed.

Lemma step_clients_ok s e s' out :
  clients_ok s → step s e = Some (s', out) → clients_ok s'.
Proof.
  intros Hs Hstep.
  destruct e as [cid now|cid data gen now|cid|cid now|cid]; unfold step in Hstep.
  - destruct (Map_get cid (sockets s)) eqn:Hsock; [done|]. simplify_eq.
    intros k c Hin. destruct (Hs k c Hin) as [Hws Hopen]. split; [done|]. simpl.
    rewrite Map_get_set_ne; [done|]. intros ->. rewrite Hsock in Hopen.
    by destruct Hopen.
  - assert (Hlive : Map_get cid (sockets s) = Some OPEN
                    ∨ Map_get cid (sockets s) = Some CLOSING).
    { destruct (Map_get cid (sockets s)) as [[]|]; try done; auto. }
    assert (Hrun : onMessage s cid data gen now = (s', out)).
    { destruct (Map_get cid (sockets s)) as [[]|]; by simplify_eq. }
    pose proof (onMessage_sockets s cid data gen now) as Hso.
    pose proof (onMessage_clients s cid data gen now) as Hcl.
    rewrite Hrun in Hso, Hcl. cbn [fst] in Hso, Hcl.
    intros k c Hin. rewrite Hso. destruct Hcl as [Hcl|[r Hcl]]; rewrite Hcl in Hin.
    + by apply Hs.
    + apply elem_of_Map_set in Hin as [[-> ->]|Hin]; [done|by apply Hs].
  - destruct (Map_get cid (sockets s)) as [[]|] eqn:Hsock; try done. simplify_eq.
    intros k c Hin. destruct (Hs k c Hin) as [Hws Hopen]. split; [done|]. simpl.
    destruct (decide (cid = k)) as [->|Hne].
    + rewrite Map_get_set_eq. by right.
    + by rewrite Map_get_set_ne.
  - assert (Hrun : handleDisconnect (with_sockets (Map_set cid CLOSED) s) cid now
                   = (s', out)).
    { destruct (Map_get cid (sockets s)) as [[]|]; by simplify_eq. }
    pose proof (handleDisconnect_clients (with_sockets (Map_set cid CLOSED) s)
                  cid now) as [Hcl Hso].
    rewrite Hrun in Hcl, Hso. cbn [fst] in Hcl, Hso.
    intros k c Hin. rewrite Hcl in Hin. apply elem_of_Map_delete in Hin as [Hin Hne].
    destruct (Hs k c Hin) as [Hws Hopen]. split; [done|]. rewrite Hso. simpl.
    by rewrite Map_get_set_ne.
  - destruct (Map_get cid (sockets s)); by simplify_eq.
Qed.

Lemma reachable_clients_ok s : reachable s → clients_ok s.
Proof.
  apply reachable_invariant; [by intros k c ?%elem_of_nil|].
  intros s0 e s' out Hs Hstep. by eapply step_clients_ok.
Qed.

(** X1. In every reachable state a client bound under an id is bound with
    the socket of that id, and that socket is OPEN or CLOSING: once the close
    of a connection has been handled its id is bound no more. *)
Theorem X1_bound_client_has_live_socket (s : state) (k : string) (c : client) :
  reachable s →
  Map_get k (clients s) = Some c →
  ws c = k
  ∧ (Map_get k (sockets s) = Some OPEN ∨ Map_get k (sockets s) = Some CLOSING).
Proof.
  intros Hreach Hk. eapply reachable_clients_ok; [done|]. by apply Map_get_elem.
Qed.

Lemma X1_witness :
  reachable (after roomOfThree)
  ∧ Map_get "B" (sockets (after roomOfThree)) = Some OPEN.
Proof.
  assert (H0 : reachable (after roomOfThree))
    by (eexists roomOfThree, _; vm_compute; reflexivity).
  assert (H1 : Map_get "B" (clients (after roomOfThree)) = Some (mkClient "B" 1))
    by (vm_compute; reflexivity).
  destruct (X1_bound_client_has_live_socket _ "B" _ H0 H1) as [_ [Ho|Hc]].
  - split; [exact H0|exact Ho].
  - vm_compute in Hc. discriminate Hc.
Defined.

(** ** Calls are stored under their own id *)

Lemma calls_keyed_ext s s' :
  activeCalls s' = activeCalls s → calls_keyed s → calls_keyed s'.
Proof. unfold calls_keyed. by intros ->. Qed.

Lemma calls_keyed_set s k c :
  call_id c = k → calls_keyed s → calls_keyed (with_activeCalls (Map_set k c) s).
Proof.
  intros Hc [Hnd Hid]. split; simpl; [by apply Map_set_NoDup|].
  intros k' c' [[-> ->]|Hin]%elem_of_Map_set; [done|by apply Hid].
Qed.

Lemma calls_keyed_delete s k :
  calls_keyed s → calls_keyed (with_activeCalls (Map_delete k) s).
Proof.
  intros [Hnd Hid]. split; simpl; [by apply Map_delete_unique|].
  intros k' c' [Hin _]%elem_of_Map_delete. by apply Hid.
Qed.

Lemma handleEndCall_calls_keyed s clientId callId now :
  calls_keyed s → calls_keyed (handleEndCall s clientId callId now).1.
Proof.
  intros Hs. unfold handleEndCall. destruct callId as [k|]; [|done].
  destruct (Map_get k (activeCalls s)) as [c|] eqn:Hk; [|done]. cbn [fst].
  apply calls_keyed_delete, calls_keyed_set; [|done]. simpl.
  destruct Hs as [_ Hid]. by apply Hid, Map_get_elem.
Qed.

Lemma onMessage_calls_keyed s clientId data gen now :
  calls_keyed s → calls_keyed (onMessage s clientId data gen now).1.
Proof.
  intros Hs. destruct data as [[]|]; simpl; try done.
  - unfold handleUserRegister. by case_match.
  - unfold handleUserLogin. by repeat case_match.
  - unfold handleGetUsers. by case_match.
  - unfold handleSendMessage. by repeat case_match.
  - unfold handleJoinRoom, new_array. by repeat (case_match; simplify_eq/=).
  - unfold handleLeaveRoom. by case_match.
  - unfold handleInitiateCall, new_array. repeat (case_match; simplify_eq/=);
      by apply calls_keyed_set.
  - unfold handleAnswerCall. destruct callId as [k|]; [|done].
    destruct (Map_get k (activeCalls s)) as [c|] eqn:Hk; [|done]. cbn [fst].
    apply calls_keyed_set; [|done]. simpl. destruct Hs as [_ Hid].
    by apply Hid, Map_get_elem.
  - unfold handleRejectCall. destruct callId as [k|]; [|done].
    destruct (Map_get k (activeCalls s)) as [c|] eqn:Hk; [|done]. cbn [fst].
    apply calls_keyed_delete, calls_keyed_set; [|done]. simpl.
    destruct Hs as [_ Hid]. by apply Hid, Map_get_elem.
  - by apply handleEndCall_calls_keyed.
  - unfold handleWebRTCSignaling. by repeat case_match.
  - unfold handleTyping. by repeat case_match.
  - unfold handleUserStatusChange. by repeat case_match.
Qed.

Lemma handleDisconnect_calls_keyed s clientId now :
  calls_keyed s → calls_keyed (handleDisconnect s clientId now).1.
Proof.
  intros Hs. unfold handleDisconnect.
  destruct (Map_get clientId (clients s)) as [c|]; [|done].
  set (s1 := match userHeap s !! client_user c with Some _ => _ | None => s end).
  assert (H1 : calls_keyed s1) by (subst s1; by case_match).
  clearbody s1.
  pose proof (endCallsOf_preserves calls_keyed clientId now
                (λ s k, handleEndCall_calls_keyed s clientId (Some k) now)
                (activeCalls s1) s1 H1) as H2.
  destruct (endCallsOf _ _ _ s1) as [s2 o2].
  pose proof (leaveRoomsOf_frame (chatRooms s2) clientId s2) as Hf.
  destruct (leaveRoomsOf _ _ s2) as [s3 o3]. cbn [fst] in *.
  destruct Hf as (_ & _ & _ & Hf & _). by apply (calls_keyed_ext s2).
Qed.

Lemma reachable_calls_keyed s : reachable s → calls_keyed s.
Proof.
  apply reachable_invariant.
  { split; [apply NoDup_nil_2|by intros k c ?%elem_of_nil]. }
  intros s0 e s' out Hs Hstep. apply (step_cases calls_keyed _ _ _ _ Hstep); auto.
  - intros. by apply onMessage_calls_keyed.
  - intros. by apply handleDisconnect_calls_keyed.
Qed.

(** ** No room lists a participant twice *)

Lemma rooms_distinct_grow s s' :
  chatRooms s' = chatRooms s →
  (∀ a, a < length (arrayHeap s) → array s' a = array s a) →
  rooms_ok s → rooms_distinct s → rooms_distinct s'.
Proof.
  intros Hc Ha [_ Hv] Hs k r Hin. rewrite Hc in Hin.
  rewrite Ha by (by eapply Hv). by eapply Hs.
Qed.

Lemma array_snoc_heap s a r :
  r < length (arrayHeap s) → array (with_arrayHeap (λ h, h ++ [a]) s) r = array s r.
Proof. intros Hr. unfold array. simpl. by rewrite lookup_app_l. Qed.

Lemma dropParticipant_rooms_distinct s k r clientId :
  rooms_ok s → Map_get k (chatRooms s) = Some r →
  rooms_distinct s → rooms_distinct (dropParticipant s k r clientId).
Proof.
  intros [_ Hv] Hr Hs k' r' Hin. apply elem_of_Map_set in Hin as [[-> ->]|Hin].
  - simpl. rewrite dropParticipant_new. apply NoDup_filter.
    eapply Hs. by apply Map_get_elem.
  - rewrite dropParticipant_old by (by eapply Hv). by eapply Hs.
Qed.

Lemma handleJoinRoom_rooms_distinct s clientId roomId roomName now :
  rooms_ok s → rooms_distinct s →
  rooms_distinct (handleJoinRoom s clientId roomId roomName now).1.
Proof.
  intros Hok Hs. unfold handleJoinRoom.
  set (s1 := if Map_has roomId (chatRooms s) then s else _).
  assert (H1 : rooms_ok s1 ∧ rooms_distinct s1).
  { subst s1. destruct (Map_has roomId (chatRooms s)); [done|]. split.
    - unfold new_array. apply (rooms_ok_set s roomId _ (λ h, h ++ [_])); [| |done].
      + intros h. rewrite length_app. lia.
      + simpl. rewrite length_app. simpl. lia.
    - destruct Hok as [_ Hv]. intros k0 r0 Hin.
      apply elem_of_Map_set in Hin as [[-> ->]|Hin].
      + simpl. unfold array. simpl. rewrite list_lookup_middle by done.
        apply NoDup_nil_2.
      + unfold array. simpl. rewrite lookup_app_l by (by eapply Hv).
        by eapply Hs. }
  clearbody s1. destruct H1 as [[_ Hv1] H1].
  destruct (Map_get roomId (chatRooms s1)) as [r|]; [|done]. cbn [fst].
  destruct (includes _ _) eqn:Hinc; [done|]. apply includes_false in Hinc.
  intros k0 r0 Hin. simpl in Hin.
  destruct (decide (participants r = participants r0)) as [Heq|Hne].
  - rewrite <- Heq, array_push_eq by (rewrite Heq; by eapply Hv1).
    apply NoDup_app. split_and!.
    + rewrite Heq. by eapply H1.
    + by intros x Hx ->%list_elem_of_singleton.
    + apply NoDup_singleton.
  - rewrite array_push_ne by done. by eapply H1.
Qed.

Lemma onMessage_rooms_distinct s clientId data gen now :
  rooms_ok s → rooms_distinct s →
  rooms_distinct (onMessage s clientId data gen now).1.
Proof.
  intros Hok Hs. destruct data as [[]|]; simpl; try done.
  - unfold handleUserRegister. by case_match.
  - unfold handleUserLogin. by repeat case_match.
  - unfold handleGetUsers. by case_match.
  - unfold handleSendMessage.
    destruct (Map_get clientId (clients s)); [|done].
    destruct (truthy roomId); [|by case_match].
    destruct (Map_get roomId (chatRooms s)) as [r|] eqn:Hr; [|done]. cbn [fst].
    intros k r' [[-> ->]|Hin]%elem_of_Map_set; [|by apply (Hs k r')].
    simpl. apply (Hs roomId r). by apply Map_get_elem.
  - by apply handleJoinRoom_rooms_distinct.
  - unfold handleLeaveRoom.
    destruct (Map_get roomId (chatRooms s)) as [r|] eqn:Hr; [|done].
    by apply dropParticipant_rooms_distinct.
  - unfold handleInitiateCall, new_array.
    repeat (case_match; simplify_eq/=); try done;
      (apply (rooms_distinct_grow s); [done| |done..]);
      intros a Ha; by apply array_snoc_heap.
  - unfold handleAnswerCall. by repeat case_match.
  - unfold handleRejectCall. by repeat case_match.
  - unfold handleEndCall. by repeat case_match.
  - unfold handleWebRTCSignaling. by repeat case_match.
  - unfold handleTyping. by repeat case_match.
  - unfold handleUserStatusChange. by repeat case_match.
Qed.

Lemma handleDisconnect_rooms_distinct s clientId now :
  rooms_ok s → rooms_distinct s →
  rooms_distinct (handleDisconnect s clientId now).1.
Proof.
  intros Hok Hs. apply handleDisconnect_preserves; try done.
  - intros s0 k Hs0. unfold handleEndCall. by repeat case_match.
  - intros s0 k r Hs0 Hok0 Hr _. by apply dropParticipant_rooms_distinct.
Qed.

Lemma reachable_rooms_distinct s : reachable s → rooms_distinct s.
Proof.
  apply reachable_invariant_rooms; [by intros k r ?%elem_of_nil|].
  intros s0 e s' out Hok Hs Hstep.
  apply (step_cases rooms_distinct _ _ _ _ Hstep); auto.
  - intros. by apply onMessage_rooms_distinct.
  - intros. by apply handleDisconnect_rooms_distinct.
Qed.

(** ** Rooms are kept *)

Lemma rooms_kept_refl s : rooms_kept s s.
Proof. intros k r Hr. by exists r. Qed.

Lemma rooms_kept_trans s1 s2 s3 :
  rooms_kept s1 s2 → rooms_kept s2 s3 → rooms_kept s1 s3.
Proof.
  intros H12 H23 k r Hr.
  destruct (H12 k r Hr) as (r2 & Hr2 & Hid2 & Hn2 & Hc2 & Hm2).
  destruct (H23 k r2 Hr2) as (r3 & Hr3 & Hid3 & Hn3 & Hc3 & Hm3).
  exists r3. split_and!; [done|congruence..|by etrans].
Qed.

Lemma rooms_kept_ext s s' : chatRooms s' = chatRooms s → rooms_kept s s'.
Proof. intros Hc k r Hr. exists r. by rewrite Hc. Qed.

Lemma rooms_kept_update s s' k r' :
  chatRooms s' = Map_set k r' (chatRooms s) →
  (∀ r, Map_get k (chatRooms s) = Some r →
     room_id r' = room_id r ∧ room_name r' = room_name r
     ∧ createdAt r' = createdAt r ∧ messages r `prefix_of` messages r') →
  rooms_kept s s'.
Proof.
  intros Hc Hsame k0 r0 Hr0. rewrite Hc. destruct (decide (k = k0)) as [->|Hne].
  - exists r'. rewrite Map_get_set_eq. split; [done|]. by apply Hsame.
  - exists r0. by rewrite Map_get_set_ne.
Qed.

Lemma dropParticipant_rooms_kept s k r clientId :
  Map_get k (chatRooms s) = Some r → rooms_kept s (dropParticipant s k r clientId).
Proof.
  intros Hr. eapply rooms_kept_update; [done|]. intros r0 Hr0. by simplify_eq.
Qed.

Lemma onMessage_rooms_kept s clientId data gen now :
  rooms_kept s (onMessage s clientId data gen now).1.
Proof.
  destruct data as [[]|]; simpl; try apply rooms_kept_refl.
  - apply rooms_kept_ext. unfold handleUserRegister. by case_match.
  - apply rooms_kept_ext. unfold handleUserLogin. by repeat case_match.
  - apply rooms_kept_ext. unfold handleGetUsers. by case_match.
  - unfold handleSendMessage.
    destruct (Map_get clientId (clients s)); [|apply rooms_kept_refl].
    destruct (truthy roomId); [|case_match; apply rooms_kept_refl].
    destruct (Map_get roomId (chatRooms s)) as [r|] eqn:Hr; [|apply rooms_kept_refl].
    eapply rooms_kept_update; [done|]. intros r0 Hr0. simplify_eq. simpl.
    split_and!; [done..|]. by apply prefix_app_r.
  - unfold handleJoinRoom.
    set (s1 := if Map_has roomId (chatRooms s) then s else _).
    assert (H1 : rooms_kept s s1).
    { subst s1. destruct (Map_has roomId (chatRooms s)) eqn:Hhas;
        [apply rooms_kept_refl|].
      apply Map_has_false in Hhas. eapply rooms_kept_update; [done|].
      intros r Hr. congruence. }
    clearbody s1. destruct (Map_get roomId (chatRooms s1)) as [r|]; [|done].
    cbn [fst]. destruct (includes _ _); [done|].
    eapply rooms_kept_trans; [done|]. by apply rooms_kept_ext.
  - unfold handleLeaveRoom.
    destruct (Map_get roomId (chatRooms s)) as [r|] eqn:Hr; [|apply rooms_kept_refl].
    by apply dropParticipant_rooms_kept.
  - apply rooms_kept_ext. unfold handleInitiateCall, new_array.
    by repeat (case_match; simplify_eq/=).
  - apply rooms_kept_ext. unfold handleAnswerCall. by repeat case_match.
  - apply rooms_kept_ext. unfold handleRejectCall. by repeat case_match.
  - apply rooms_kept_ext. unfold handleEndCall. by repeat case_match.
  - apply rooms_kept_ext. unfold handleWebRTCSignaling. by repeat case_match.
  - apply rooms_kept_ext. unfold handleTyping. by repeat case_match.
  - apply rooms_kept_ext. unfold handleUserStatusChange. by repeat case_match.
Qed.

Lemma handleDisconnect_rooms_kept s clientId now :
  rooms_ok s → rooms_kept s (handleDisconnect s clientId now).1.
Proof.
  intros Hok. apply (handleDisconnect_preserves (rooms_kept s));
    [..|done|apply rooms_kept_refl].
  - intros s0 r u Hs0 _. eapply rooms_kept_trans; [done|]. by apply rooms_kept_ext.
  - intros s0 k Hs0. eapply rooms_kept_trans; [done|]. apply rooms_kept_ext.
    unfold handleEndCall. by repeat case_match.
  - intros s0 k r Hs0 _ Hr _. eapply rooms_kept_trans; [done|].
    by apply dropParticipant_rooms_kept.
  - intros s0 Hs0. eapply rooms_kept_trans; [done|]. by apply rooms_kept_ext.
Qed.

Lemma step_rooms_kept s e s' out :
  rooms_ok s → step s e = Some (s', out) → rooms_kept s s'.
Proof.
  intros Hok Hstep. apply (step_cases (rooms_kept s) _ _ _ _ Hstep).
  - intros f. by apply rooms_kept_ext.
  - intros. apply onMessage_rooms_kept.
  - intros f clientId now. eapply rooms_kept_trans;
      [|by apply handleDisconnect_rooms_kept]. by apply rooms_kept_ext.
  - apply rooms_kept_refl.
Qed.

(** X4. Rooms are never removed or renamed and no stored message is ever
    lost: along any run from a reachable state, every room keeps its id, its
    name and its creation time, and its history only grows at the end. *)
Theorem X4_rooms_and_history_are_kept
    (s : state) (tr : list event) (s' : state) (out : list sent) :
  reachable s →
  run s tr = Some (s', out) →
  ∀ roomId r, Map_get roomId (chatRooms s) = Some r →
    ∃ r', Map_get roomId (chatRooms s') = Some r'
          ∧ room_id r' = room_id r ∧ room_name r' = room_name r
          ∧ createdAt r' = createdAt r
          ∧ messages r `prefix_of` messages r'.
Proof.
  intros Hok%reachable_rooms_ok Hrun. change (rooms_kept s s').
  revert s out Hok Hrun. induction tr as [|e tr IH]; simpl; intros s out Hok Hrun.
  - injection Hrun as <- _. apply rooms_kept_refl.
  - destruct (step s e) as [[s1 o1]|] eqn:He; [|done].
    destruct (run s1 tr) as [[s2 o2]|] eqn:Hr; [|done]. injection Hrun as <- _.
    eapply rooms_kept_trans; [by eapply step_rooms_kept|].
    eapply IH; [by eapply step_rooms_ok|done].
Qed.

Lemma X4_witness :
  reachable (after (enter "A" "alice" "R"))
  ∧ ∃ r', Map_get (Some "R") (chatRooms (after (flood 2))) = Some r'
          ∧ room_name r' = "Room R".
Proof.
  assert (H0 : reachable (after (enter "A" "alice" "R")))
    by (eexists (enter "A" "alice" "R"), _; vm_compute; reflexivity).
  assert (H1 : run (after (enter "A" "alice" "R"))
                 [roomMessage "A" "R" "m0"; roomMessage "A" "R" "m1"]
               = Some (after (flood 2), skipn 3 (outputs (flood 2))))
    by (vm_compute; reflexivity).
  assert (H2 : Map_get (Some "R") (chatRooms (after (enter "A" "alice" "R")))
               = Some roomR)
    by (vm_compute; reflexivity).
  destruct (X4_rooms_and_history_are_kept _ _ _ _ H0 H1 (Some "R") roomR H2)
    as (r' & Hr' & _ & Hname & _).
  split; [exact H0|]. exists r'. split; [exact Hr'|exact Hname].
Defined.

(** ** Directory entries hold the user of their key *)

Lemma keys_of_unique_ref h us k1 k2 r u n :
  NoDup (keys_of h us) → h !! r = Some u → key_of u = Some n →
  (k1, r) ∈ us → (k2, r) ∈ us → k1 = k2.
Proof.
  intros Hnd Hr Hn. induction us as [|[k0 r0] us IH]; [by intros ?%elem_of_nil|].
  rewrite keys_of_cons in Hnd.
  assert (Hin : ∀ k, (k, r) ∈ us → n ∈ keys_of h us).
  { intros k Hk. apply list_elem_of_omap. exists (k, r). split; [done|].
    simpl. by rewrite Hr. }
  intros [H1|H1]%elem_of_cons [H2|H2]%elem_of_cons.
  - congruence.
  - injection H1 as <- <-. rewrite Hr in Hnd. simpl in Hnd. rewrite Hn in Hnd.
    apply NoDup_cons in Hnd as [Hnot _]. destruct Hnot. by eapply Hin.
  - injection H2 as <- <-. rewrite Hr in Hnd. simpl in Hnd. rewrite Hn in Hnd.
    apply NoDup_cons in Hnd as [Hnot _]. destruct Hnot. by eapply Hin.
  - apply IH; [|done..].
    destruct (h !! r0 ≫= key_of); [by apply NoDup_cons in Hnd as [_ ?]|done].
Qed.

Lemma users_keyed_ext s s' :
  users s' = users s → userHeap s' = userHeap s → users_keyed s → users_keyed s'.
Proof. unfold users_keyed. by intros -> ->. Qed.

Lemma users_keyed_insert s r u u' :
  userHeap s !! r = Some u → user_id u' = user_id u →
  users_keyed s → users_keyed (with_userHeap (λ h, <[r := u']> h) s).
Proof.
  intros Hr Hid Hs k r' Hin. destruct (Hs k r' Hin) as (u0 & Hu0 & Hk). simpl.
  destruct (decide (r = r')) as [<-|Hne].
  - exists u'. rewrite list_lookup_insert_eq by (by eapply lookup_lt_Some).
    split; [done|]. congruence.
  - exists u0. by rewrite list_lookup_insert_ne.
Qed.

Lemma handleUserRegister_users_keyed s clientId username avatar w now :
  directory_ok s → users_keyed s →
  users_keyed (handleUserRegister s clientId username avatar w now).1.
Proof.
  intros [_ Hv] Hs. unfold handleUserRegister. destruct (existsb _ _); [done|].
  cbn [fst]. intros k r Hin. simpl in Hin.
  apply elem_of_Map_set in Hin as [[-> ->]|Hin]; simpl.
  - eexists. by rewrite list_lookup_middle.
  - destruct (Hs k r Hin) as (u & Hu & Hk). exists u.
    by rewrite lookup_app_l by (by eapply Hv).
Qed.

Lemma handleUserLogin_users_keyed s clientId username w now :
  directory_ok s → users_keyed s →
  users_keyed (handleUserLogin s clientId username w now).1.
Proof.
  intros [Hnd Hv] Hs. unfold handleUserLogin.
  destruct (find _ _) as [[id r]|] eqn:Hfind; [|done].
  apply find_some in Hfind as [Hin%list_elem_of_In Hhas].
  destruct (userHeap s !! r) as [e|] eqn:Hr; [|done]. cbn [fst].
  assert (Hkey : key_of e = Some (user_username e)).
  { unfold has_username in Hhas. simpl in Hhas. rewrite Hr in Hhas.
    apply strict_equal_true in Hhas as [Heq Hval]. unfold key_of.
    by rewrite Heq, Hval. }
  intros k r' Hin'. simpl in Hin'. simpl.
  apply elem_of_Map_set in Hin' as [[-> ->]|Hin'].
  - eexists. by rewrite list_lookup_insert_eq by (by eapply lookup_lt_Some).
  - apply elem_of_Map_delete in Hin' as [Hin' Hne].
    destruct (Hs k r' Hin') as (u & Hu & Hk). exists u.
    rewrite list_lookup_insert_ne; [done|]. intros <-.
    apply Hne.
    by apply (keys_of_unique_ref (userHeap s) (users s) k id r e (user_username e)).
Qed.

Lemma onMessage_users_keyed s clientId data gen now :
  directory_ok s → users_keyed s →
  users_keyed (onMessage s clientId data gen now).1.
Proof.
  intros Hok Hs. destruct data as [[]|]; simpl; try done.
  - by apply handleUserRegister_users_keyed.
  - by apply handleUserLogin_users_keyed.
  - unfold handleGetUsers. by case_match.
  - unfold handleSendMessage. by repeat case_match.
  - unfold handleJoinRoom, new_array. by repeat (case_match; simplify_eq/=).
  - unfold handleLeaveRoom. by case_match.
  - unfold handleInitiateCall, new_array. by repeat (case_match; simplify_eq/=).
  - unfold handleAnswerCall. by repeat case_match.
  - unfold handleRejectCall. by repeat case_match.
  - unfold handleEndCall. by repeat case_match.
  - unfold handleWebRTCSignaling. by repeat case_match.
  - unfold handleTyping. by repeat case_match.
  - unfold handleUserStatusChange. repeat case_match; try done.
    by eapply users_keyed_insert.
Qed.

Lemma handleDisconnect_users_keyed s clientId now :
  rooms_ok s → users_keyed s → users_keyed (handleDisconnect s clientId now).1.
Proof.
  intros Hok Hs. apply handleDisconnect_preserves; try done.
  - intros s0 r u Hs0 Hu. by eapply users_keyed_insert.
  - intros s0 k Hs0. apply (users_keyed_ext s0); [..|done];
      unfold handleEndCall; by repeat case_match.
Qed.

Lemma reachable_users_keyed s : reachable s → users_keyed s.
Proof.
  intros Hreach. assert (H : directory_ok s ∧ users_keyed s); [|by destruct H].
  revert s Hreach. apply reachable_invariant_rooms.
  - split; [|by intros k r ?%elem_of_nil].
    split; [apply NoDup_nil_2|by intros k r ?%elem_of_nil].
  - intros s e s' out Hok [Hdir Hs] Hstep.
    apply (step_cases (λ s', directory_ok s' ∧ users_keyed s') _ _ _ _ Hstep).
    + intros f. by split.
    + intros. split; [by apply onMessage_directory_ok|by apply onMessage_users_keyed].
    + intros. split; [by apply handleDisconnect_directory_ok|].
      by apply handleDisconnect_users_keyed.
    + by split.
Qed.

(** ** Direct calls keep their two participants *)

Lemma direct_calls_ok_grow s s' :
  activeCalls s' = activeCalls s → chatRooms s' = chatRooms s →
  length (arrayHeap s) ≤ length (arrayHeap s') →
  (∀ a, a < length (arrayHeap s) → array s' a = array s a) →
  direct_calls_ok s → direct_calls_ok s'.
Proof.
  intros Hc Hr Hl Ha Hs k c Hin Hdirect. rewrite Hc in Hin.
  destruct (Hs k c Hin Hdirect) as (Hv & Harr & Hrooms). split_and!.
  - lia.
  - by rewrite Ha.
  - by rewrite Hr.
Qed.

Lemma direct_calls_ok_calls s (f : list (string * call) → list (string * call)) :
  (∀ k c, (k, c) ∈ f (activeCalls s) →
     ∃ k0 c0, (k0, c0) ∈ activeCalls s ∧ call_roomId c0 = call_roomId c
              ∧ call_participants c0 = call_participants c
              ∧ initiator c0 = initiator c) →
  direct_calls_ok s → direct_calls_ok (with_activeCalls f s).
Proof.
  intros Hf Hs k c Hin Hdirect.
  destruct (Hf k c Hin) as (k0 & c0 & Hin0 & Hroom & Hpart & Hinit).
  rewrite <- Hroom in Hdirect. destruct (Hs k0 c0 Hin0 Hdirect) as (Hv & Harr & Hr).
  rewrite <- Hpart, <- Hinit. by split_and!.
Qed.

Lemma direct_calls_ok_set s k c c0 :
  Map_get k (activeCalls s) = Some c0 →
  call_roomId c0 = call_roomId c → call_participants c0 = call_participants c →
  initiator c0 = initiator c →
  direct_calls_ok s → direct_calls_ok (with_activeCalls (Map_set k c) s).
Proof.
  intros Hk H1 H2 H3. apply direct_calls_ok_calls.
  intros k' c' [[-> ->]|Hin]%elem_of_Map_set.
  - exists k, c0. split_and!; [by apply Map_get_elem|done..].
  - by exists k', c'.
Qed.

Lemma direct_calls_ok_delete s k :
  direct_calls_ok s → direct_calls_ok (with_activeCalls (Map_delete k) s).
Proof.
  apply direct_calls_ok_calls. intros k' c' [Hin _]%elem_of_Map_delete.
  by exists k', c'.
Qed.

Lemma handleEndCall_direct_calls_ok s clientId callId now :
  direct_calls_ok s → direct_calls_ok (handleEndCall s clientId callId now).1.
Proof.
  intros Hs. unfold handleEndCall. destruct callId as [k|]; [|done].
  destruct (Map_get k (activeCalls s)) as [c|] eqn:Hk; [|done]. cbn [fst].
  by apply direct_calls_ok_delete, (direct_calls_ok_set s k _ c).
Qed.

(** A room gets a new array, at the end of the heap. *)
Lemma direct_calls_ok_new_room s k r a :
  rooms_ok s → participants r = length (arrayHeap s) →
  direct_calls_ok s →
  direct_calls_ok
    (with_chatRooms (Map_set k r) (with_arrayHeap (λ h, h ++ [a]) s)).
Proof.
  intros [_ Hrv] Hr Hs k0 c Hin Hdirect. simpl in Hin.
  destruct (Hs k0 c Hin Hdirect) as (Hv & Harr & Hrooms). split_and!.
  - simpl. rewrite length_app. lia.
  - unfold array in *. simpl. by rewrite lookup_app_l.
  - intros k' r' [[-> ->]|Hin']%elem_of_Map_set; [lia|by eapply Hrooms].
Qed.

Lemma dropParticipant_direct_calls_ok s k r clientId :
  rooms_ok s → direct_calls_ok s → direct_calls_ok (dropParticipant s k r clientId).
Proof. intros Hok Hs. by apply direct_calls_ok_new_room. Qed.

Lemma handleJoinRoom_direct_calls_ok s clientId roomId roomName now :
  rooms_ok s → direct_calls_ok s →
  direct_calls_ok (handleJoinRoom s clientId roomId roomName now).1.
Proof.
  intros Hok Hs. unfold handleJoinRoom.
  set (s1 := if Map_has roomId (chatRooms s) then s else _).
  assert (H1 : direct_calls_ok s1).
  { subst s1. destruct (Map_has roomId (chatRooms s)); [done|].
    by apply direct_calls_ok_new_room. }
  clearbody s1. destruct (Map_get roomId (chatRooms s1)) as [r|] eqn:Hr; [|done].
  cbn [fst]. destruct (includes _ _); [done|].
  intros k c Hin Hdirect. simpl in Hin.
  destruct (H1 k c Hin Hdirect) as (Hv & Harr & Hrooms).
  assert (Hne : participants r ≠ call_participants c)
    by (eapply Hrooms; by apply Map_get_elem).
  split_and!.
  - simpl. by rewrite length_insert.
  - by rewrite array_push_ne.
  - done.
Qed.

Lemma handleInitiateCall_direct_calls_ok s clientId to callType roomId gen now :
  rooms_ok s → direct_calls_ok s →
  direct_calls_ok (handleInitiateCall s clientId to callType roomId gen now).1.
Proof.
  intros [_ Hrv] Hs. unfold handleInitiateCall.
  destruct (truthy roomId) eqn:Hroom.
  - destruct (Map_get roomId (chatRooms s)) as [r|] eqn:Hr; cbn [fst].
    + intros k c [[-> ->]|Hin]%elem_of_Map_set Hdirect; [simpl in *; congruence|].
      by apply (Hs k c).
    + unfold new_array. cbn [fst].
      intros k c [[-> ->]|Hin]%elem_of_Map_set Hdirect; [simpl in *; congruence|].
      destruct (Hs k c Hin Hdirect) as (Hv & Harr & Hrooms). split_and!.
      * simpl. rewrite length_app. lia.
      * unfold array in *. simpl. by rewrite lookup_app_l.
      * done.
  - unfold new_array. cbn [fst].
    intros k c [[-> ->]|Hin]%elem_of_Map_set Hdirect.
    + simpl. split_and!.
      * rewrite length_app. simpl. lia.
      * exists to. apply array_lookup. simpl. by rewrite list_lookup_middle.
      * intros k' r' Hin' Heq. specialize (Hrv k' r' Hin'). lia.
    + destruct (Hs k c Hin Hdirect) as (Hv & Harr & Hrooms). split_and!.
      * simpl. rewrite length_app. lia.
      * unfold array in *. simpl. by rewrite lookup_app_l.
      * done.
Qed.

Lemma onMessage_direct_calls_ok s clientId data gen now :
  rooms_ok s → direct_calls_ok s →
  direct_calls_ok (onMessage s clientId data gen now).1.
Proof.
  intros Hok Hs. destruct data as [[]|]; simpl; try done.
  - unfold handleUserRegister. by case_match.
  - unfold handleUserLogin. by repeat case_match.
  - unfold handleGetUsers. by case_match.
  - unfold handleSendMessage.
    destruct (Map_get clientId (clients s)) as [cl|]; [|done].
    destruct (truthy roomId); [|by case_match].
    destruct (Map_get roomId (chatRooms s)) as [r|] eqn:Hr; [|done]. cbn [fst].
    intros k c Hin Hdirect. destruct (Hs k c Hin Hdirect) as (Hv & Harr & Hrooms).
    split_and!; [done..|].
    intros k' r' [[-> ->]|Hin']%elem_of_Map_set; [|by eapply Hrooms].
    simpl. eapply Hrooms. by apply Map_get_elem.
  - by apply handleJoinRoom_direct_calls_ok.
  - unfold handleLeaveRoom. case_match; [|done].
    by apply dropParticipant_direct_calls_ok.
  - by apply handleInitiateCall_direct_calls_ok.
  - unfold handleAnswerCall. destruct callId as [k|]; [|done].
    destruct (Map_get k (activeCalls s)) as [c|] eqn:Hk; [|done]. cbn [fst].
    by apply (direct_calls_ok_set s k _ c).
  - unfold handleRejectCall. destruct callId as [k|]; [|done].
    destruct (Map_get k (activeCalls s)) as [c|] eqn:Hk; [|done]. cbn [fst].
    by apply direct_calls_ok_delete, (direct_calls_ok_set s k _ c).
  - by apply handleEndCall_direct_calls_ok.
  - unfold handleWebRTCSignaling. by repeat case_match.
  - unfold handleTyping. by repeat case_match.
  - unfold handleUserStatusChange. by repeat case_match.
Qed.

Lemma handleDisconnect_direct_calls_ok s clientId now :
  rooms_ok s → direct_calls_ok s →
  direct_calls_ok (handleDisconnect s clientId now).1.
Proof.
  intros Hok Hs. apply handleDisconnect_preserves; try done.
  - intros s0 k Hs0. by apply handleEndCall_direct_calls_ok.
  - intros s0 k r Hs0 Hok0 _ _. by apply dropParticipant_direct_calls_ok.
Qed.

Lemma reachable_direct_calls_ok s : reachable s → direct_calls_ok s.
Proof.
  apply reachable_invariant_rooms; [by intros k c ?%elem_of_nil|].
  intros s0 e s' out Hok Hs Hstep.
  apply (step_cases direct_calls_ok _ _ _ _ Hstep); auto.
  - intros. by apply onMessage_direct_calls_ok.
  - intros. by apply handleDisconnect_direct_calls_ok.
Qed.

(** ** Logging in and registering *)

Lemma find_has_username_None s username :
  username ∉ usernames s → find (has_username s username) (users s) = None.
Proof.
  intros Hnot. destruct (find _ _) as [[k r]|] eqn:Hfind; [|done].
  apply find_some in Hfind as [Hin%list_elem_of_In Hhas]. destruct Hnot.
  unfold has_username in Hhas. simpl in Hhas.
  destruct (userHeap s !! r) as [u|] eqn:Hu; [|done].
  apply strict_equal_true in Hhas as [Heq _]. apply elem_of_names_of.
  by exists k, r, u.
Qed.

Lemma find_has_username_reference s username :
  by_value username = false → find (has_username s username) (users s) = None.
Proof.
  intros Hval. destruct (find _ _) as [[k r]|] eqn:Hfind; [|done].
  apply find_some in Hfind as [_ Hhas]. unfold has_username in Hhas.
  destruct (userHeap s !! _); [|done]. by rewrite strict_equal_reference in Hhas.
Qed.

Lemma find_has_username_Some s username :
  by_value username = true → username ∈ usernames s →
  ∃ id r u, find (has_username s username) (users s) = Some (id, r)
            ∧ (id, r) ∈ users s ∧ userHeap s !! r = Some u
            ∧ user_username u = username.
Proof.
  intros Hval Hin. destruct (find _ _) as [[k r]|] eqn:Hfind.
  - apply find_some in Hfind as [Hk%list_elem_of_In Hhas].
    unfold has_username in Hhas. simpl in Hhas.
    destruct (userHeap s !! r) as [u|] eqn:Hu; [|done].
    apply strict_equal_true in Hhas as [Heq _]. by exists k, r, u.
  - apply existsb_has_username_true in Hin; [|done].
    apply existsb_exists in Hin as (e & He & Hhas).
    by rewrite (find_none _ _ Hfind e He) in Hhas.
Qed.

(** X7. A USER_LOGIN with a username that is not in the directory changes
    nothing and is answered with the "User not found" error alone, on the
    sender's socket. *)
Theorem X7_login_unknown_username
    (s : state) (clientId : string) (username : name) (gen now : string) :
  username ∉ usernames s →
  onMessage s clientId (Some (USER_LOGIN username)) gen now
  = (s, [Sent clientId ERROR_USER_NOT_FOUND]).
Proof.
  intros Hnot. simpl. unfold handleUserLogin.
  by rewrite (find_has_username_None s username Hnot).
Qed.

Lemma X7_witness :
  (Some (JString "dave") ∉ usernames (after roomOfThree))
  ∧ onMessage (after roomOfThree) "D" (Some (USER_LOGIN (Some (JString "dave"))))
      "-" "09:20"
    = (after roomOfThree, [Sent "D" ERROR_USER_NOT_FOUND]).
Proof.
  assert (H1 : Some (JString "dave") ∉ usernames (after roomOfThree)).
  { apply (bool_decide_eq_false_1
             (Some (JString "dave") ∈ usernames (after roomOfThree))).
    vm_compute. reflexivity. }
  split; [exact H1|].
  exact (X7_login_unknown_username (after roomOfThree) "D" (Some (JString "dave"))
           "-" "09:20" H1).
Defined.

(** X8. A USER_LOGIN with a username of the directory that is compared by
    value (a string, a number, a boolean, null or the absent username), in a
    reachable state, moves that identity to the sender's connection:
    afterwards the directory and the registry both hold, under the sender's
    id, a user with that username and the avatar it had, with the sender's
    id as its id, status online and a fresh lastSeen; the username is still
    in the directory exactly once; and the sender is sent USER_LOGGED_IN
    with that user first. A username that is a JSON array or object matches
    nothing, whatever the directory holds: the login changes nothing and is
    answered with the "User not found" error. *)
Theorem X8_login_rebinds_identity
    (s : state) (clientId : string) (username : name) (gen now : string) :
  reachable s →
  let res := onMessage s clientId (Some (USER_LOGIN username)) gen now in
  (by_value username = true → username ∈ usernames s →
   ∃ r old u rest,
     old ∈ registered s ∧ user_username old = username
     ∧ u = mkUser clientId username (user_avatar old) (Some "online") now
     ∧ Map_get clientId (users res.1) = Some r
     ∧ Map_get clientId (clients res.1) = Some (mkClient clientId r)
     ∧ userHeap res.1 !! r = Some u
     ∧ length (filter (λ n, n = username) (usernames res.1)) = 1
     ∧ res.2 = Sent clientId (USER_LOGGED_IN u) :: rest)
  ∧ (by_value username = false →
     res = (s, [Sent clientId ERROR_USER_NOT_FOUND])).
Proof.
  intros Hdir%reachable_directory_ok res. split.
  - intros Hval Hin.
    pose proof (handleUserLogin_directory_ok s clientId username clientId now Hdir)
      as [Hnd' _].
    rewrite keys_of_names in Hnd'.
    subst res. simpl. revert Hnd'. unfold handleUserLogin.
    destruct (find_has_username_Some s username Hval Hin)
      as (id & r & old & -> & Hid & Hold & Hname).
    rewrite Hold. cbn [fst snd]. intros Hnd'. subst username.
    eexists r, old, _, _. split_and!; [|done|reflexivity| | | | |reflexivity].
    + apply list_elem_of_omap. by exists (id, r).
    + simpl. apply Map_get_set_eq.
    + simpl. apply Map_get_set_eq.
    + simpl. apply list_lookup_insert_eq. by eapply lookup_lt_Some.
    + apply count_by_value; [done|done|]. apply elem_of_names_of.
      exists clientId, r. eexists. split_and!.
      * simpl. apply Map_get_elem, Map_get_set_eq.
      * simpl. apply list_lookup_insert_eq. by eapply lookup_lt_Some.
      * done.
  - intros Hval. subst res. simpl. unfold handleUserLogin.
    by rewrite (find_has_username_reference s username Hval).
Qed.

Lemma X8_witness :
  reachable (after withVisitor)
  ∧ ∃ r,
      Map_get "D"
        (clients (onMessage (after withVisitor) "D"
                    (Some (USER_LOGIN (Some (JString "alice")))) "-" "09:20").1)
      = Some (mkClient "D" r).
Proof.
  assert (H0 : reachable (after withVisitor))
    by (eexists withVisitor, _; vm_compute; reflexivity).
  assert (H1 : by_value (Some (JString "alice")) = true) by reflexivity.
  assert (H2 : Some (JString "alice") ∈ usernames (after withVisitor))
    by (vm_compute; left).
  destruct (X8_login_rebinds_identity (after withVisitor) "D"
              (Some (JString "alice")) "-" "09:20" H0) as [Hknown _].
  destruct (Hknown H1 H2) as (r & old & u & rest & _ & _ & _ & _ & Hbound & _).
  split; [exact H0|]. exists r. exact Hbound.
Defined.



Lemma omap_cons_Some {A B} (f : A → option B) x y l :
  f x = Some y → omap f (x :: l) = y :: omap f l.
Proof. intros Hx. simpl. by rewrite Hx. Qed.

Lemma registered_others (h : list user) (us : list (string * nat)) clientId :
  (∀ k r, (k, r) ∈ us → ∃ u, h !! r = Some u ∧ user_id u = k) →
  filter (λ u, user_id u ≠ clientId) (omap (λ e : string * nat, h !! e.2) us)
  = omap (λ e : string * nat, h !! e.2) (filter (λ e, e.1 ≠ clientId) us).
Proof.
  induction us as [|[k r] us IH]; intros Hkey; [done|].
  destruct (Hkey k r) as (u & Hu & Hk); [left|].
  assert (IH' := IH (λ k' r' Hin, Hkey k' r' (list_elem_of_further _ _ _ Hin))).
  rewrite (omap_cons_Some _ (k, r) u) by done. rewrite !filter_cons.
  change ((k, r).1) with k. rewrite Hk.
  destruct (decide (k ≠ clientId)).
  - rewrite (omap_cons_Some _ (k, r) u) by done. by rewrite IH'.
  - done.
Qed.

(** X18. GET_USERS changes nothing. In a reachable state a bound caller is
    sent one USERS_LIST holding exactly the users that the directory keeps
    under the other ids, in directory order; an unbound caller is sent
    nothing. *)
Theorem X18_get_users_lists_the_others
    (s : state) (clientId : string) (gen now : string) :
  reachable s →
  let res := onMessage s clientId (Some GET_USERS) gen now in
  res.1 = s
  ∧ (∀ c, Map_get clientId (clients s) = Some c →
       res.2 = [Sent (ws c)
                  (USERS_LIST
                     (omap (λ e : string * nat, userHeap s !! e.2)
                        (filter (λ e, e.1 ≠ clientId) (users s))))])
  ∧ (Map_get clientId (clients s) = None → res.2 = []).
Proof.
  intros Hkey%reachable_users_keyed res. subst res. simpl. unfold handleGetUsers.
  rewrite (registered_others (userHeap s) (users s) clientId Hkey).
  destruct (Map_get clientId (clients s)) as [c|]; split_and!; try done.
  by intros c0 [= <-].
Qed.

Lemma X18_witness :
  reachable (after roomOfThree)
  ∧ (onMessage (after roomOfThree) "A" (Some GET_USERS) "-" "09:20").1
    = after roomOfThree.
Proof.
  assert (H0 : reachable (after roomOfThree))
    by (eexists roomOfThree, _; vm_compute; reflexivity).
  destruct (X18_get_users_lists_the_others (after roomOfThree) "A" "-" "09:20" H0)
    as (Hsame & _).
  split; [exact H0|exact Hsame].
Defined.

Lemma elem_of_broadcastToAll s m ex o :
  o ∈ broadcastToAll s m ex ↔
  ∃ k c, (k, c) ∈ clients s ∧ differs (Some k) ex = true
         ∧ isOpen s (ws c) = true ∧ o = Sent (ws c) m.
Proof.
  unfold broadcastToAll. rewrite elem_of_flat_map. split.
  - intros ([k c] & Hin & Ho). exists k, c.
    destruct (differs (Some k) ex); [|by apply elem_of_nil in Ho].
    destruct (isOpen s (ws c)); [|by apply elem_of_nil in Ho].
    apply list_elem_of_singleton in Ho. by split_and!.
  - intros (k & c & Hin & Hd & Hopen & ->). exists (k, c). split; [done|].
    rewrite Hd, Hopen. left.
Qed.

(** X19. USER_STATUS_CHANGE from an id that the directory knows, in a
    reachable state, rewrites only the status and lastSeen of that user (any
    status value is taken as it is); the directory and its usernames stay as
    they were. USER_STATUS_UPDATE goes to the bound clients with an open
    socket other than the sender, and never to the sender's socket. From an
    id the directory does not know, nothing changes and nothing is sent. *)
Theorem X19_status_change
    (s : state) (clientId : string) (status : field) (gen now : string) :
  reachable s →
  let res := onMessage s clientId (Some (USER_STATUS_CHANGE status)) gen now in
  (∀ r u, Map_get clientId (users s) = Some r → userHeap s !! r = Some u →
     userHeap res.1 !! r
     = Some (mkUser (user_id u) (user_username u) (user_avatar u) status now)
     ∧ (∀ r', r' ≠ r → userHeap res.1 !! r' = userHeap s !! r')
     ∧ users res.1 = users s
     ∧ usernames res.1 = usernames s
     ∧ (∀ o, o ∈ res.2 ↔
             ∃ k c, (k, c) ∈ clients s ∧ k ≠ clientId ∧ isOpen s (ws c) = true
                    ∧ o = Sent (ws c) (USER_STATUS_UPDATE clientId status (Some now)))
     ∧ (∀ o, o ∈ res.2 → dest o ≠ clientId))
  ∧ (Map_get clientId (users s) = None → res = (s, [])).
Proof.
  intros Hreach res. subst res. simpl. unfold handleUserStatusChange. split.
  - intros r u Hr Hu. rewrite Hr, Hu. cbn [fst snd].
    set (u' := mkUser _ _ _ _ _). set (s1 := with_userHeap _ s).
    assert (Hall : ∀ o, o ∈ broadcastToAll s1
                            (USER_STATUS_UPDATE clientId status (Some now))
                            (Some clientId) ↔
             ∃ k c, (k, c) ∈ clients s ∧ k ≠ clientId ∧ isOpen s (ws c) = true
                    ∧ o = Sent (ws c) (USER_STATUS_UPDATE clientId status (Some now))).
    { intros o. rewrite elem_of_broadcastToAll. simpl.
      split; intros (k & c & Hin & Hne & Hopen & Ho); exists k, c;
        (split_and!; [done| |done..]).
      - apply bool_decide_eq_true in Hne. congruence.
      - apply bool_decide_eq_true. congruence. }
    split_and!.
    + simpl. apply list_lookup_insert_eq. by eapply lookup_lt_Some.
    + intros r' Hne. simpl. by apply list_lookup_insert_ne.
    + done.
    + change (names_of (<[r := u']> (userHeap s)) (users s)
              = names_of (userHeap s) (users s)).
      by apply (names_of_insert _ _ u).
    + done.
    + intros o (k & c & Hin & Hne & _ & ->)%Hall. simpl.
      destruct (reachable_clients_ok s Hreach k c Hin) as [-> _]. done.
  - by intros ->.
Qed.

Lemma X19_witness :
  reachable (after roomOfThree)
  ∧ users (onMessage (after roomOfThree) "A"
             (Some (USER_STATUS_CHANGE (Some "away"))) "-" "09:20").1
    = users (after roomOfThree).
Proof.
  assert (H0 : reachable (after roomOfThree))
    by (eexists roomOfThree, _; vm_compute; reflexivity).
  assert (H1 : Map_get "A" (users (after roomOfThree)) = Some 0)
    by (vm_compute; reflexivity).
  destruct (userHeap (after roomOfThree) !! 0) as [u|] eqn:Hu;
    [|vm_compute in Hu; discriminate Hu].
  destruct (X19_status_change (after roomOfThree) "A" (Some "away") "-" "09:20" H0)
    as [Hknown _].
  destruct (Hknown 0 u H1 Hu) as (_ & _ & Husers & _).
  split; [exact H0|exact Husers].
Defined.

(** ** The directory and [/api/users] *)

Lemma handleDisconnect_users s clientId now :
  users (handleDisconnect s clientId now).1 = users s.
Proof.
  unfold handleDisconnect. destruct (Map_get clientId (clients s)) as [c|]; [|done].
  set (s1 := match userHeap s !! client_user c with Some _ => _ | None => s end).
  assert (H1 : users s1 = users s) by (subst s1; by case_match).
  clearbody s1.
  pose proof (endCallsOf_frame (activeCalls s1) clientId now s1) as Hf2.
  destruct (endCallsOf _ _ _ s1) as [s2 o2].
  pose proof (leaveRoomsOf_frame (chatRooms s2) clientId s2) as Hf3.
  destruct (leaveRoomsOf _ _ s2) as [s3 o3]. cbn [fst] in *.
  destruct Hf2 as (_ & _ & Hu2 & _), Hf3 as (_ & _ & Hu3 & _).
  simpl. congruence.
Qed.

Lemma onMessage_users_keys s clientId data gen now :
  NoDup (users s).*1 → NoDup (users (onMessage s clientId data gen now).1).*1.
Proof.
  intros Hs. destruct data as [[]|]; simpl; try done.
  - unfold handleUserRegister. case_match; [done|]. simpl. by apply Map_set_NoDup.
  - unfold handleUserLogin. repeat case_match; try done. simpl.
    by apply Map_set_NoDup, Map_delete_unique.
  - unfold handleGetUsers. by case_match.
  - unfold handleSendMessage. by repeat case_match.
  - unfold handleJoinRoom, new_array, push. by repeat (case_match; simplify_eq/=).
  - unfold handleLeaveRoom. by case_match.
  - unfold handleInitiateCall, new_array. by repeat (case_match; simplify_eq/=).
  - unfold handleAnswerCall. by repeat case_match.
  - unfold handleRejectCall. by repeat case_match.
  - unfold handleEndCall. by repeat case_match.
  - unfold handleWebRTCSignaling. by repeat case_match.
  - unfold handleTyping. by repeat case_match.
  - unfold handleUserStatusChange. by repeat case_match.
Qed.

Lemma reachable_users_keys s : reachable s → NoDup (users s).*1.
Proof.
  revert s. apply (reachable_invariant (λ s, NoDup (users s).*1)); [apply NoDup_nil_2|].
  intros s0 e s' out Hs Hstep.
  apply (step_cases (λ s, NoDup (users s).*1) _ _ _ _ Hstep); [done| | |done].
  - intros. by apply onMessage_users_keys.
  - intros f clientId now. by rewrite handleDisconnect_users.
Qed.

Lemma registered_ids (h : list user) (us : list (string * nat)) :
  (∀ k r, (k, r) ∈ us → ∃ u, h !! r = Some u ∧ user_id u = k) →
  user_id <$> omap (λ e : string * nat, h !! e.2) us = us.*1.
Proof.
  induction us as [|[k r] us IH]; intros Hkey; [done|].
  destruct (Hkey k r) as (u & Hu & Hk); [left|].
  rewrite (omap_cons_Some _ (k, r) u) by done. rewrite !fmap_cons, Hk. f_equal.
  apply IH. intros k' r' Hin. apply Hkey. by right.
Qed.

(** X2. In every reachable state [/api/users] returns one user per entry of
    the directory, in directory order, each carrying the id it is stored
    under; no id occurs twice in the answer, and no username that is
    compared by value (a string, a number, a boolean, null or the absent
    username) occurs twice. *)
Theorem X2_api_users_lists_the_directory (s : state) :
  reachable s →
  user_id <$> apiUsers s = (users s).*1
  ∧ NoDup (user_id <$> apiUsers s)
  ∧ NoDup (filter (λ n, by_value n = true) (user_username <$> apiUsers s)).
Proof.
  intros Hreach.
  assert (Hids : user_id <$> apiUsers s = (users s).*1)
    by (apply registered_ids; by apply reachable_users_keyed).
  split_and!; [done| |].
  - rewrite Hids. by apply reachable_users_keys.
  - pose proof (reachable_directory_ok s Hreach) as [Hnd _].
    by rewrite keys_of_names in Hnd.
Qed.

Lemma X2_witness :
  reachable (after roomOfThree)
  ∧ user_id <$> apiUsers (after roomOfThree) = ["A"; "B"; "C"].
Proof.
  assert (H0 : reachable (after roomOfThree))
    by (eexists roomOfThree, _; vm_compute; reflexivity).
  destruct (X2_api_users_lists_the_directory _ H0) as (Hids & _).
  split; [exact H0|]. rewrite Hids. vm_compute. reflexivity.
Defined.

(** ** Room broadcasts *)

Lemma NoDup_dest_flat_map (g : field → list sent) (ps : list field) :
  NoDup ps →
  (∀ p o, o ∈ g p → p = Some (dest o)) →
  (∀ p, length (g p) ≤ 1) →
  NoDup (dest <$> flat_map g ps).
Proof.
  intros Hnd Hg Hone. induction Hnd as [|p ps Hp Hnd IH]; simpl; [apply NoDup_nil_2|].
  rewrite fmap_app. apply NoDup_app. split_and!; [| |done].
  - specialize (Hone p). destruct (g p) as [|o [|o' l]]; simpl in *;
      [apply NoDup_nil_2|apply NoDup_singleton|lia].
  - intros w [o [-> Ho]]%list_elem_of_fmap [o' [Hw Ho']]%list_elem_of_fmap.
    apply elem_of_flat_map in Ho' as (p' & Hp' & Ho').
    apply Hg in Ho, Ho'. apply Hp. rewrite Ho, Hw, <- Ho'. done.
Qed.

(** X3. In every reachable state no room lists a participant twice, and a
    broadcast to a room (whatever the payload and the excluded id) sends at
    most one copy to any socket. *)
Theorem X3_room_broadcast_without_duplicates
    (s : state) (roomId : field) (message : payload) (excludeId : option string) :
  reachable s →
  (∀ r, Map_get roomId (chatRooms s) = Some r → NoDup (array s (participants r)))
  ∧ NoDup (dest <$> broadcastToRoom s roomId message excludeId).
Proof.
  intros Hreach.
  assert (Hd : ∀ r, Map_get roomId (chatRooms s) = Some r →
                    NoDup (array s (participants r))).
  { intros r Hr. eapply reachable_rooms_distinct; [done|]. by apply Map_get_elem. }
  split; [done|]. unfold broadcastToRoom.
  destruct (Map_get roomId (chatRooms s)) as [r|]; [|apply NoDup_nil_2].
  apply NoDup_dest_flat_map; [by apply Hd| |].
  - intros p o Ho. destruct (differs p excludeId); [|by apply elem_of_nil in Ho].
    destruct p as [k|]; simpl in Ho; [|by apply elem_of_nil in Ho].
    destruct (Map_get k (clients s)) as [c|] eqn:Hc; [|by apply elem_of_nil in Ho].
    destruct (isOpen s (ws c)); [|by apply elem_of_nil in Ho].
    apply list_elem_of_singleton in Ho as ->. simpl.
    apply Map_get_elem in Hc. by destruct (reachable_clients_ok s Hreach k c Hc) as [-> _].
  - intros p. repeat case_match; simpl; lia.
Qed.

Lemma X3_witness :
  reachable (after roomOfThree)
  ∧ NoDup (dest <$> broadcastToRoom (after roomOfThree) (Some "R")
                      (USER_LEFT_ROOM "A") (Some "A")).
Proof.
  assert (H0 : reachable (after roomOfThree))
    by (eexists roomOfThree, _; vm_compute; reflexivity).
  destruct (X3_room_broadcast_without_duplicates _ (Some "R") (USER_LEFT_ROOM "A")
              (Some "A") H0) as [_ Hnd].
  split; [exact H0|exact Hnd].
Defined.

(** ** Calls *)

(** X5. In every reachable state the ids of the calls in progress are
    pairwise distinct, every call is stored under the id it carries, and its
    status is ringing or active. *)
Theorem X5_calls_are_stored_under_their_id (s : state) :
  reachable s →
  NoDup (activeCalls s).*1
  ∧ ∀ callId c, Map_get callId (activeCalls s) = Some c →
      call_id c = callId ∧ (call_status c = ringing ∨ call_status c = active).
Proof.
  intros Hreach. destruct (reachable_calls_keyed s Hreach) as [Hnd Hkey].
  split; [done|]. intros callId c Hc%Map_get_elem. split; [by apply Hkey|].
  by eapply reachable_calls_live.
Qed.

Lemma X5_witness :
  reachable (after answeredCall)
  ∧ NoDup (activeCalls (after answeredCall)).*1.
Proof.
  assert (H0 : reachable (after answeredCall))
    by (eexists answeredCall, _; vm_compute; reflexivity).
  destruct (X5_calls_are_stored_under_their_id _ H0) as [Hnd _].
  split; [exact H0|exact Hnd].
Defined.

(** X6. In every reachable state a call without room has exactly two
    participants, its initiator first and then the addressee it was started
    with; no room shares its participant array, so nobody else ever becomes
    a participant of it. *)
Theorem X6_direct_call_has_two_fixed_participants
    (s : state) (callId : string) (c : call) :
  reachable s →
  Map_get callId (activeCalls s) = Some c →
  truthy (call_roomId c) = false →
  (∃ to, array s (call_participants c) = [Some (initiator c); to])
  ∧ ∀ roomId r, Map_get roomId (chatRooms s) = Some r →
      participants r ≠ call_participants c.
Proof.
  intros Hreach Hc%Map_get_elem Hroom.
  destruct (reachable_direct_calls_ok s Hreach callId c Hc Hroom) as (_ & Hps & Hsep).
  split; [done|]. intros roomId r Hr%Map_get_elem. by eapply Hsep.
Qed.

Lemma X6_witness :
  reachable (after answeredCall)
  ∧ ∃ to, array (after answeredCall) (call_participants callAB)
          = [Some (initiator callAB); to].
Proof.
  assert (H0 : reachable (after answeredCall))
    by (eexists answeredCall, _; vm_compute; reflexivity).
  assert (H1 : Map_get "call1" (activeCalls (after answeredCall)) = Some callAB)
    by (vm_compute; reflexivity).
  assert (H2 : truthy (call_roomId callAB) = false) by (vm_compute; reflexivity).
  destruct (X6_direct_call_has_two_fixed_participants _ "call1" callAB H0 H1 H2)
    as [Hps _].
  split; [exact H0|exact Hps].
Defined.

(** ** Messages *)

(** X9. SEND_MESSAGE is dropped without a word (no state change, nothing
    sent, no error) from a sender that is not bound, when it names a room
    that does not exist (even if it names an addressee too: the room comes
    first and there is no fallback), and when it names neither. *)
Theorem X9_send_message_dropped
    (s : state) (clientId : string) (to content messageType roomId : field)
    (gen now : string) :
  let res := onMessage s clientId
               (Some (SEND_MESSAGE to content messageType roomId)) gen now in
  (Map_get clientId (clients s) = None → res = (s, []))
  ∧ (truthy roomId = true → Map_get roomId (chatRooms s) = None → res = (s, []))
  ∧ (truthy roomId = false → truthy to = false → res = (s, [])).
Proof.
  simpl. unfold handleSendMessage. split_and!.
  - by intros ->.
  - intros -> ->. by case_match.
  - intros -> ->. by case_match.
Qed.

Lemma X9_witness :
  onMessage (after roomOfThree) "A"
    (Some (SEND_MESSAGE (Some "B") (Some "hello") None (Some "nowhere")))
    "m1" "09:10"
  = (after roomOfThree, []).
Proof.
  destruct (X9_send_message_dropped (after roomOfThree) "A" (Some "B")
              (Some "hello") None (Some "nowhere") "m1" "09:10")
    as (_ & Hroom & _).
  apply Hroom; vm_compute; reflexivity.
Defined.

(** X10. A direct message (no room) from a bound sender to an addressee
    that is bound with an open socket, in a reachable state, yields exactly
    two events, in this order: NEW_MESSAGE on the socket of the addressee's
    id, then MESSAGE_SENT on the socket of the sender's id; both carry the
    same message, whose type is "text" unless one was given. The state is
    left as it was: direct messages are not stored. *)
Theorem X10_direct_message_delivery
    (s : state) (clientId recipient : string) (c cl : client)
    (content messageType roomId : field) (gen now : string) :
  reachable s →
  Map_get clientId (clients s) = Some c →
  truthy roomId = false →
  truthy (Some recipient) = true →
  Map_get recipient (clients s) = Some cl →
  Map_get recipient (sockets s) = Some OPEN →
  let messageData :=
    mkMessage gen clientId (Some recipient) content (default "text" messageType)
      now roomId in
  onMessage s clientId
    (Some (SEND_MESSAGE (Some recipient) content messageType roomId)) gen now
  = (s, [Sent recipient (NEW_MESSAGE messageData);
         Sent clientId (MESSAGE_SENT messageData)]).
Proof.
  intros Hreach Hc Hroom Hto Hcl Hopen.
  pose proof (reachable_clients_ok s Hreach) as Hok.
  destruct (Hok clientId c (Map_get_elem _ _ _ Hc)) as [Hws _].
  destruct (Hok recipient cl (Map_get_elem _ _ _ Hcl)) as [Hws' _].
  unfold onMessage, handleSendMessage, sendToUser, isOpen, Map_get_field.
  rewrite Hc, Hroom, Hto, Hcl, Hws, Hws', Hopen.
  by rewrite bool_decide_eq_true_2.
Qed.

Lemma X10_witness :
  reachable (after roomOfThree)
  ∧ onMessage (after roomOfThree) "A"
      (Some (SEND_MESSAGE (Some "B") (Some "hello") None None)) "m1" "09:10"
    = (after roomOfThree,
       [Sent "B" (NEW_MESSAGE
                    (mkMessage "m1" "A" (Some "B") (Some "hello") "text" "09:10"
                       None));
        Sent "A" (MESSAGE_SENT
                    (mkMessage "m1" "A" (Some "B") (Some "hello") "text" "09:10"
                       None))]).
Proof.
  assert (H0 : reachable (after roomOfThree))
    by (eexists roomOfThree, _; vm_compute; reflexivity).
  assert (H1 : Map_get "A" (clients (after roomOfThree)) = Some (mkClient "A" 0))
    by (vm_compute; reflexivity).
  assert (H2 : truthy None = false) by reflexivity.
  assert (H3 : truthy (Some "B") = true) by reflexivity.
  assert (H4 : Map_get "B" (clients (after roomOfThree)) = Some (mkClient "B" 1))
    by (vm_compute; reflexivity).
  assert (H5 : Map_get "B" (sockets (after roomOfThree)) = Some OPEN)
    by (vm_compute; reflexivity).
  split; [exact H0|].
  exact (X10_direct_message_delivery (after roomOfThree) "A" "B" _ _
           (Some "hello") None None "m1" "09:10" H0 H1 H2 H3 H4 H5).
Defined.

(** ** Joining and leaving rooms *)

Lemma handleJoinRoom_existing s clientId roomId roomName now r :
  Map_get roomId (chatRooms s) = Some r →
  (handleJoinRoom s clientId roomId roomName now).1
  = if includes (Some clientId) (array s (participants r)) then s
    else push (participants r) (Some clientId) s.
Proof.
  intros Hr. unfold handleJoinRoom, Map_has. rewrite Hr. simpl. rewrite Hr.
  by destruct (includes _ _).
Qed.

Lemma handleJoinRoom_new s clientId roomId roomName now :
  Map_get roomId (chatRooms s) = None →
  let a := length (arrayHeap s) in
  let r := mkRoom roomId
             (if truthy roomName then render roomName
              else String.append "Room " (render roomId)) a [] now in
  (handleJoinRoom s clientId roomId roomName now).1
  = push a (Some clientId)
      (with_chatRooms (Map_set roomId r) (with_arrayHeap (λ h, h ++ [[]]) s)).
Proof.
  intros Hr. unfold handleJoinRoom, Map_has. rewrite Hr. simpl.
  rewrite Map_get_set_eq. simpl.
  replace (array _ (length (arrayHeap s))) with (@nil field); [done|].
  unfold array. simpl. by rewrite list_lookup_middle.
Qed.

Lemma filter_ne_snoc (x : field) (l : list field) :
  x ∉ l → filter (λ id, id ≠ x) (l ++ [x]) = l.
Proof.
  intros Hx. rewrite filter_app, filter_cons, decide_False by (intros Hn; by apply Hn).
  rewrite filter_nil, app_nil_r. induction l as [|y l IH]; [done|].
  apply not_elem_of_cons in Hx as [Hne Hx].
  rewrite filter_cons, decide_True by done. by rewrite IH.
Qed.

(** X11. LEAVE_ROOM for a room that exists (reachable state): the room's
    participants become the old ones without the leaver, in the same order,
    while its name and history stay; other rooms are untouched.
    USER_LEFT_ROOM goes to the deliverable participants other than the
    leaver, whether or not the leaver was a participant, and never to the
    leaver's own socket. For a room that does not exist nothing happens. *)
Theorem X11_leave_room
    (s : state) (clientId : string) (roomId : field) (gen now : string) :
  reachable s →
  let res := onMessage s clientId (Some (LEAVE_ROOM roomId)) gen now in
  (∀ r, Map_get roomId (chatRooms s) = Some r →
     (∃ r', Map_get roomId (chatRooms res.1) = Some r'
            ∧ array res.1 (participants r')
              = filter (λ id, id ≠ Some clientId) (array s (participants r))
            ∧ room_name r' = room_name r ∧ messages r' = messages r)
     ∧ (∀ k, k ≠ roomId → Map_get k (chatRooms res.1) = Map_get k (chatRooms s))
     ∧ (∀ o, o ∈ res.2 ↔
             ∃ p cl, p ∈ array s (participants r) ∧ p ≠ Some clientId
                     ∧ resolvable s p cl
                     ∧ o = Sent (ws cl) (USER_LEFT_ROOM clientId))
     ∧ (∀ o, o ∈ res.2 → dest o ≠ clientId))
  ∧ (Map_get roomId (chatRooms s) = None → res = (s, [])).
Proof.
  intros Hreach res. subst res. simpl. unfold handleLeaveRoom. split; [|by intros ->].
  intros r Hr. rewrite Hr. cbn [fst snd].
  set (s1 := dropParticipant s roomId r clientId).
  assert (Hout : ∀ o, o ∈ broadcastToRoom s1 roomId (USER_LEFT_ROOM clientId)
                            (Some clientId) ↔
             ∃ p cl, p ∈ array s (participants r) ∧ p ≠ Some clientId
                     ∧ resolvable s p cl
                     ∧ o = Sent (ws cl) (USER_LEFT_ROOM clientId)).
  { intros o. rewrite (elem_of_broadcastToRoom s1 roomId _ _ _ _
                         (dropParticipant_get s roomId r clientId)).
    cbn [participants]. subst s1. rewrite dropParticipant_new.
    split.
    - intros (p & cl & [Hne Hp]%list_elem_of_filter & _ & Hres & ->).
      exists p, cl. by split_and!.
    - intros (p & cl & Hp & Hne & Hres & ->). exists p, cl.
      split_and!; [by apply list_elem_of_filter|by apply bool_decide_eq_true|done..]. }
  split_and!.
  - eexists. split; [apply dropParticipant_get|]. cbn [participants room_name messages].
    split; [apply dropParticipant_new|done].
  - intros k Hk. by apply dropParticipant_get_ne.
  - done.
  - intros o (p & cl & Hp & Hne & [Hcl _] & ->)%Hout. simpl. intros <-.
    destruct p as [k|]; [|done]. simpl in Hcl. apply Map_get_elem in Hcl.
    destruct (reachable_clients_ok s Hreach k cl Hcl) as [Hws _]. congruence.
Qed.

Lemma X11_witness :
  reachable (after roomOfThree)
  ∧ ∃ r', Map_get (Some "R")
            (chatRooms (onMessage (after roomOfThree) "B"
                          (Some (LEAVE_ROOM (Some "R"))) "-" "09:20").1) = Some r'
          ∧ array (onMessage (after roomOfThree) "B"
                     (Some (LEAVE_ROOM (Some "R"))) "-" "09:20").1 (participants r')
            = filter (λ id, id ≠ Some "B")
                (array (after roomOfThree) (participants roomR)).
Proof.
  assert (H0 : reachable (after roomOfThree))
    by (eexists roomOfThree, _; vm_compute; reflexivity).
  assert (H1 : Map_get (Some "R") (chatRooms (after roomOfThree)) = Some roomR)
    by (vm_compute; reflexivity).
  destruct (X11_leave_room (after roomOfThree) "B" (Some "R") "-" "09:20" H0)
    as [Hknown _].
  destruct (Hknown roomR H1) as ((r' & Hr' & Hps & _) & _).
  split; [exact H0|]. exists r'. split; [exact Hr'|exact Hps].
Defined.

(** X12. JOIN_ROOM in a reachable state, with a room id that is a string
    or absent: afterwards the room exists and lists the joiner. An existing room keeps its record (the name sent with
    the join is ignored) and the joiner is appended unless already listed; a
    new room gets the id, the given name or "Room " followed by the id, an
    empty history and the joiner as its only participant. Joining again
    changes nothing. *)
Theorem X12_join_room
    (s : state) (clientId : string) (roomId roomName : field) (gen now : string) :
  reachable s →
  let res := onMessage s clientId (Some (JOIN_ROOM roomId roomName)) gen now in
  (∃ r', Map_get roomId (chatRooms res.1) = Some r'
         ∧ Some clientId ∈ array res.1 (participants r'))
  ∧ (∀ r, Map_get roomId (chatRooms s) = Some r →
       Map_get roomId (chatRooms res.1) = Some r
       ∧ (Some clientId ∈ array s (participants r) → res.1 = s)
       ∧ (Some clientId ∉ array s (participants r) →
          array res.1 (participants r)
          = array s (participants r) ++ [Some clientId]))
  ∧ (Map_get roomId (chatRooms s) = None →
       ∃ r', Map_get roomId (chatRooms res.1) = Some r'
             ∧ room_id r' = roomId
             ∧ room_name r' = (if truthy roomName then render roomName
                               else String.append "Room " (render roomId))
             ∧ messages r' = [] ∧ createdAt r' = now
             ∧ array res.1 (participants r') = [Some clientId])
  ∧ (∀ roomName' gen' now',
       (onMessage res.1 clientId (Some (JOIN_ROOM roomId roomName')) gen' now').1
       = res.1).
Proof.
  intros Hreach res. subst res. simpl.
  pose proof (reachable_rooms_ok s Hreach) as [_ Hvalid].
  assert (Hold : ∀ r, Map_get roomId (chatRooms s) = Some r →
            let s1 := (handleJoinRoom s clientId roomId roomName now).1 in
            Map_get roomId (chatRooms s1) = Some r
            ∧ (Some clientId ∈ array s (participants r) → s1 = s)
            ∧ (Some clientId ∉ array s (participants r) →
               array s1 (participants r)
               = array s (participants r) ++ [Some clientId])).
  { intros r Hr. simpl. rewrite (handleJoinRoom_existing _ _ _ _ _ r Hr).
    destruct (includes _ _) eqn:Hin.
    - apply includes_true in Hin. by split_and!.
    - apply includes_false in Hin. split_and!; [done..|].
      intros _. apply array_push_eq. apply (Hvalid roomId). by apply Map_get_elem. }
  assert (Hnew : Map_get roomId (chatRooms s) = None →
            let s1 := (handleJoinRoom s clientId roomId roomName now).1 in
            ∃ r', Map_get roomId (chatRooms s1) = Some r'
                  ∧ room_id r' = roomId
                  ∧ room_name r' = (if truthy roomName then render roomName
                                    else String.append "Room " (render roomId))
                  ∧ messages r' = [] ∧ createdAt r' = now
                  ∧ array s1 (participants r') = [Some clientId]).
  { intros Hr. simpl. rewrite (handleJoinRoom_new _ _ _ _ _ Hr).
    eexists. split; [simpl; apply Map_get_set_eq|]. split_and!; try done.
    cbn [participants]. unfold push, array. simpl.
    rewrite !list_lookup_middle by done. simpl.
    rewrite insert_app_r_alt, Nat.sub_diag by done. simpl.
    by rewrite list_lookup_middle. }
  assert (Hin : ∃ r', Map_get roomId
                        (chatRooms (handleJoinRoom s clientId roomId roomName now).1)
                      = Some r'
                ∧ Some clientId
                    ∈ array (handleJoinRoom s clientId roomId roomName now).1
                        (participants r')).
  { destruct (Map_get roomId (chatRooms s)) as [r|] eqn:Hr.
    - destruct (Hold r eq_refl) as (Hr1 & Hsame & Hadd). exists r. split; [done|].
      destruct (decide (Some clientId ∈ array s (participants r))) as [Hp|Hp].
      + by rewrite Hsame.
      + rewrite Hadd by done. apply elem_of_app. right. left.
    - destruct (Hnew eq_refl) as (r' & Hr' & _ & _ & _ & _ & Hps). exists r'.
      split; [done|]. rewrite Hps. left. }
  split_and!; [done..|].
  intros roomName' gen' now'. destruct Hin as (r' & Hr' & Hp).
  rewrite (handleJoinRoom_existing _ _ _ _ _ r' Hr').
  apply includes_true in Hp. by rewrite Hp.
Qed.

Lemma X12_witness :
  reachable (after anonymousJoin)
  ∧ ∃ r', Map_get (Some "S")
            (chatRooms (onMessage (after anonymousJoin) "X"
                          (Some (JOIN_ROOM (Some "S") None)) "-" "09:20").1)
          = Some r'
          ∧ room_name r' = "Room S".
Proof.
  assert (H0 : reachable (after anonymousJoin))
    by (eexists anonymousJoin, _; vm_compute; reflexivity).
  assert (H1 : Map_get (Some "S") (chatRooms (after anonymousJoin)) = None)
    by (vm_compute; reflexivity).
  destruct (X12_join_room (after anonymousJoin) "X" (Some "S") None "-" "09:20" H0)
    as (_ & _ & Hnew & _).
  destruct (Hnew H1) as (r' & Hr' & _ & Hname & _).
  split; [exact H0|]. exists r'. split; [exact Hr'|exact Hname].
Defined.

(** X13. Joining a room one is not in and leaving it again gives the room
    back with the participants, in the order, and the history it had. *)
Theorem X13_join_then_leave
    (s : state) (clientId : string) (roomId roomName : field)
    (gen now gen' now' : string) (r : room) :
  reachable s →
  Map_get roomId (chatRooms s) = Some r →
  Some clientId ∉ array s (participants r) →
  let s1 := (onMessage s clientId (Some (JOIN_ROOM roomId roomName)) gen now).1 in
  let s2 := (onMessage s1 clientId (Some (LEAVE_ROOM roomId)) gen' now').1 in
  ∃ r2, Map_get roomId (chatRooms s2) = Some r2
        ∧ array s2 (participants r2) = array s (participants r)
        ∧ room_name r2 = room_name r ∧ messages r2 = messages r.
Proof.
  intros Hreach Hr Hp. simpl.
  pose proof (reachable_rooms_ok s Hreach) as [_ Hvalid].
  rewrite (handleJoinRoom_existing _ _ _ _ _ r Hr).
  apply includes_false in Hp as Hp'. rewrite Hp'.
  set (s1 := push (participants r) (Some clientId) s).
  assert (Hr1 : Map_get roomId (chatRooms s1) = Some r) by done.
  assert (Ha1 : array s1 (participants r) = array s (participants r) ++ [Some clientId]).
  { apply array_push_eq. apply (Hvalid roomId). by apply Map_get_elem. }
  unfold handleLeaveRoom. rewrite Hr1. cbn [fst].
  eexists. split; [apply dropParticipant_get|]. cbn [participants room_name messages].
  split; [|done]. replace (length (arrayHeap s)) with (length (arrayHeap s1)).
  - rewrite dropParticipant_new, Ha1. by apply filter_ne_snoc.
  - subst s1. unfold push. simpl. by rewrite length_insert.
Qed.

Lemma X13_witness :
  let s := after roomOfThree in
  let s1 := (onMessage s "D" (Some (JOIN_ROOM (Some "R") None)) "-" "09:20").1 in
  let s2 := (onMessage s1 "D" (Some (LEAVE_ROOM (Some "R"))) "-" "09:21").1 in
  reachable s
  ∧ ∃ r2, Map_get (Some "R") (chatRooms s2) = Some r2
          ∧ array s2 (participants r2) = array s (participants roomR).
Proof.
  intros s s1 s2.
  assert (H0 : reachable s)
    by (eexists roomOfThree, _; vm_compute; reflexivity).
  assert (H1 : Map_get (Some "R") (chatRooms s) = Some roomR)
    by (vm_compute; reflexivity).
  assert (H2 : Some "D" ∉ array s (participants roomR))
    by (apply includes_false; vm_compute; reflexivity).
  destruct (X13_join_then_leave s "D" (Some "R") None "-" "09:20" "-" "09:21" roomR
              H0 H1 H2) as (r2 & Hr2 & Hps & _).
  split; [exact H0|]. exists r2. split; [exact Hr2|exact Hps].
Defined.

(** ** Starting a call *)

(** X14. INITIATE_CALL without a room always records a ringing call under
    the generated id, whoever the caller and the addressee are (neither has
    to be bound or registered): its participants are the caller and the
    addressee, in that order; the other calls, the rooms and the arrays that
    existed are untouched. INCOMING_CALL goes to the addressee if
    deliverable, then CALL_INITIATED to the caller if bound, both carrying
    the call as recorded. *)
Theorem X14_direct_call_is_recorded
    (s : state) (clientId : string) (to callType roomId : field)
    (gen now : string) :
  truthy roomId = false →
  let res := onMessage s clientId (Some (INITIATE_CALL to callType roomId)) gen now in
  ∃ c, Map_get gen (activeCalls res.1) = Some c
       ∧ callSnapshot res.1 c
         = mkCall gen clientId [Some clientId; to] callType ringing now roomId
             None None None None None
       ∧ (∀ k, k ≠ gen → Map_get k (activeCalls res.1) = Map_get k (activeCalls s))
       ∧ chatRooms res.1 = chatRooms s
       ∧ (∀ a, a < length (arrayHeap s) → array res.1 a = array s a)
       ∧ res.2
         = sendToUser s to (INCOMING_CALL (callSnapshot res.1 c))
             ++ match Map_get clientId (clients s) with
                | Some cl => [Sent (ws cl) (CALL_INITIATED (callSnapshot res.1 c))]
                | None => []
                end.
Proof.
  intros Hroom. simpl. unfold handleInitiateCall. rewrite Hroom. simpl.
  eexists. split; [apply Map_get_set_eq|]. split_and!.
  - unfold callSnapshot, array. simpl. by rewrite list_lookup_middle.
  - intros k Hk. by apply Map_get_set_ne.
  - done.
  - intros a Ha. unfold array. simpl. by rewrite lookup_app_l.
  - done.
Qed.

Lemma X14_witness :
  ∃ c, Map_get "call2"
         (activeCalls (onMessage (after roomOfThree) "A"
                         (Some (INITIATE_CALL (Some "Z") (Some "audio") None))
                         "call2" "09:30").1) = Some c
       ∧ callSnapshot (onMessage (after roomOfThree) "A"
                         (Some (INITIATE_CALL (Some "Z") (Some "audio") None))
                         "call2" "09:30").1 c
         = mkCall "call2" "A" [Some "A"; Some "Z"] (Some "audio") ringing "09:30"
             None None None None None None.
Proof.
  assert (H1 : truthy None = false) by reflexivity.
  destruct (X14_direct_call_is_recorded (after roomOfThree) "A" (Some "Z")
              (Some "audio") None "call2" "09:30" H1) as (c & Hc & Hview & _).
  exists c. split; [exact Hc|exact Hview].
Defined.

(** X15. INITIATE_CALL naming a room that does not exist still records a
    ringing call, with no participants at all; the room is not created,
    nobody is sent INCOMING_CALL, and the caller, if bound, is sent
    CALL_INITIATED. *)
Theorem X15_call_to_missing_room
    (s : state) (clientId : string) (to callType roomId : field)
    (gen now : string) :
  truthy roomId = true →
  Map_get roomId (chatRooms s) = None →
  let res := onMessage s clientId (Some (INITIATE_CALL to callType roomId)) gen now in
  ∃ c, Map_get gen (activeCalls res.1) = Some c
       ∧ callSnapshot res.1 c
         = mkCall gen clientId [] callType ringing now roomId
             None None None None None
       ∧ chatRooms res.1 = chatRooms s
       ∧ res.2
         = match Map_get clientId (clients s) with
           | Some cl => [Sent (ws cl) (CALL_INITIATED (callSnapshot res.1 c))]
           | None => []
           end.
Proof.
  intros Hroom Hr. simpl. unfold handleInitiateCall. rewrite Hroom, Hr. simpl.
  eexists. split; [apply Map_get_set_eq|]. split_and!.
  - unfold callSnapshot, array. simpl. by rewrite list_lookup_middle.
  - done.
  - unfold broadcastToRoom. simpl. by rewrite Hr.
Qed.

Lemma X15_witness :
  ∃ c, Map_get "call2"
         (activeCalls (onMessage (after roomOfThree) "A"
                         (Some (INITIATE_CALL None (Some "video") (Some "S")))
                         "call2" "09:30").1) = Some c
       ∧ callSnapshot (onMessage (after roomOfThree) "A"
                         (Some (INITIATE_CALL None (Some "video") (Some "S")))
                         "call2" "09:30").1 c
         = mkCall "call2" "A" [] (Some "video") ringing "09:30" (Some "S")
             None None None None None.
Proof.
  assert (H1 : truthy (Some "S") = true) by reflexivity.
  assert (H2 : Map_get (Some "S") (chatRooms (after roomOfThree)) = None)
    by (vm_compute; reflexivity).
  destruct (X15_call_to_missing_room (after roomOfThree) "A" None (Some "video")
              (Some "S") "call2" "09:30" H1 H2) as (c & Hc & Hview & _).
  exists c. split; [exact Hc|exact Hview].
Defined.

(** ** Relays *)

Lemma resolvable_dest s p cl :
  clients_ok s → resolvable s p cl → p = Some (ws cl).
Proof.
  intros Hs [Hcl _]. destruct p as [k|]; [|done]. simpl in Hcl.
  apply Map_get_elem in Hcl. by destruct (Hs k cl Hcl) as [-> _].
Qed.

(** X16. A signalling message (offer, answer, ICE candidate) never changes
    the state and is forwarded as it came, with the sender's id added. With
    an addressee it goes to the addressee alone, whatever call id it
    carries. Without one it goes to the deliverable participants of the
    named call other than the sender, and never back to the sender's socket;
    the sender need not be a participant. With neither, or with a call that
    is not in progress, it is dropped. *)
Theorem X16_signaling_is_relayed
    (s : state) (clientId kind : string) (to callId : field) (opaque : string)
    (gen now : string) :
  reachable s →
  let message := WEBRTC kind to callId opaque in
  let res := onMessage s clientId (Some message) gen now in
  res.1 = s
  ∧ (truthy to = true →
     (∀ cl, resolvable s to cl → res.2 = [Sent (ws cl) (RELAY message clientId None)])
     ∧ ((∀ cl, ¬ resolvable s to cl) → res.2 = []))
  ∧ (truthy to = false → truthy callId = true →
     ∀ c, Map_get_field callId (activeCalls s) = Some c →
       (∀ o, o ∈ res.2 ↔
             ∃ p cl, p ∈ array s (call_participants c) ∧ p ≠ Some clientId
                     ∧ resolvable s p cl
                     ∧ o = Sent (ws cl) (RELAY message clientId None))
       ∧ (∀ o, o ∈ res.2 → dest o ≠ clientId))
  ∧ (truthy to = false →
     truthy callId = false ∨ Map_get_field callId (activeCalls s) = None →
     res.2 = []).
Proof.
  intros Hreach message res. subst res message. simpl. unfold handleWebRTCSignaling.
  pose proof (reachable_clients_ok s Hreach) as Hcl.
  split_and!.
  - by repeat case_match.
  - intros ->. simpl. unfold sendToUser. split.
    + intros cl [Hc Hopen]. by rewrite Hc, Hopen.
    + intros Hnone. destruct (Map_get_field to (clients s)) as [cl|] eqn:Hc; [|done].
      destruct (isOpen s (ws cl)) eqn:Hopen; [|done]. by destruct (Hnone cl).
  - intros -> -> c ->. cbn [fst snd].
    assert (Hout : ∀ o,
      o ∈ flat_map (λ participantId,
             if bool_decide (participantId ≠ Some clientId)
             then sendToUser s participantId
                    (RELAY (WEBRTC kind to callId opaque) clientId None)
             else []) (array s (call_participants c)) ↔
      ∃ p cl, p ∈ array s (call_participants c) ∧ p ≠ Some clientId
              ∧ resolvable s p cl
              ∧ o = Sent (ws cl) (RELAY (WEBRTC kind to callId opaque) clientId None)).
    { intros o. rewrite elem_of_flat_map. split.
      - intros (p & Hp & Ho). destruct (bool_decide (p ≠ Some clientId)) eqn:Hne;
          [|by apply elem_of_nil in Ho].
        apply bool_decide_eq_true in Hne.
        apply elem_of_sendToUser in Ho as (cl & Hres & ->). by exists p, cl.
      - intros (p & cl & Hp & Hne & Hres & ->). exists p. split; [done|].
        rewrite bool_decide_true by done. apply elem_of_sendToUser. by exists cl. }
    split; [done|].
    intros o (p & cl & Hp & Hne & Hres & ->)%Hout. simpl. intros <-.
    by apply (resolvable_dest s p cl Hcl) in Hres.
  - intros -> [->| ->]; [done|]. by case_match.
Qed.

Lemma X16_witness :
  reachable (after answeredCall)
  ∧ (onMessage (after answeredCall) "A"
       (Some (WEBRTC "WEBRTC_OFFER" (Some "B") None "sdp")) "-" "09:08").2
    = [Sent "B" (RELAY (WEBRTC "WEBRTC_OFFER" (Some "B") None "sdp") "A" None)].
Proof.
  assert (H0 : reachable (after answeredCall))
    by (eexists answeredCall, _; vm_compute; reflexivity).
  assert (H1 : truthy (Some "B") = true) by reflexivity.
  assert (H2 : resolvable (after answeredCall) (Some "B") (mkClient "B" 1))
    by (split; vm_compute; reflexivity).
  destruct (X16_signaling_is_relayed (after answeredCall) "A" "WEBRTC_OFFER"
              (Some "B") None "sdp" "-" "09:08" H0) as (_ & Hto & _).
  destruct (Hto H1) as [Hsend _].
  split; [exact H0|exact (Hsend _ H2)].
Defined.

(** X17. A typing indicator never changes the state. From a sender that is
    not bound it is dropped. From a bound sender it is forwarded with the
    sender's id and username added: with a room, to the deliverable
    participants of the room other than the sender, whatever addressee it
    carries, and never to the sender's socket; without a room, to the
    addressee alone. *)
Theorem X17_typing_is_relayed
    (s : state) (clientId kind : string) (to roomId : field) (gen now : string) :
  reachable s →
  let message := TYPING kind to roomId in
  let res := onMessage s clientId (Some message) gen now in
  res.1 = s
  ∧ (Map_get clientId (clients s) = None → res.2 = [])
  ∧ ∀ c, Map_get clientId (clients s) = Some c →
      let typingMessage :=
        RELAY message clientId
          (Some (u ← userHeap s !! client_user c; user_username u)) in
      (truthy roomId = true →
       ∀ r, Map_get roomId (chatRooms s) = Some r →
         (∀ o, o ∈ res.2 ↔
               ∃ p cl, p ∈ array s (participants r) ∧ p ≠ Some clientId
                       ∧ resolvable s p cl ∧ o = Sent (ws cl) typingMessage)
         ∧ (∀ o, o ∈ res.2 → dest o ≠ clientId))
      ∧ (truthy roomId = true → Map_get roomId (chatRooms s) = None → res.2 = [])
      ∧ (truthy roomId = false → truthy to = true →
         ∀ o, o ∈ res.2 ↔ ∃ cl, resolvable s to cl ∧ o = Sent (ws cl) typingMessage)
      ∧ (truthy roomId = false → truthy to = false → res.2 = []).
Proof.
  intros Hreach message res. subst res message. simpl. unfold handleTyping.
  pose proof (reachable_clients_ok s Hreach) as Hcl.
  split_and!.
  - by repeat case_match.
  - by intros ->.
  - intros c ->. split_and!.
    + intros -> r Hr. cbn [snd].
      assert (Hout : ∀ o,
        o ∈ broadcastToRoom s roomId
              (RELAY (TYPING kind to roomId) clientId
                 (Some (u ← userHeap s !! client_user c; user_username u)))
              (Some clientId) ↔
        ∃ p cl, p ∈ array s (participants r) ∧ p ≠ Some clientId
                ∧ resolvable s p cl
                ∧ o = Sent (ws cl)
                        (RELAY (TYPING kind to roomId) clientId
                           (Some (u ← userHeap s !! client_user c; user_username u)))).
      { intros o. rewrite (elem_of_broadcastToRoom s roomId r _ _ _ Hr). simpl.
        split; intros (p & cl & Hp & Hne & Hres & ->); exists p, cl;
          (split_and!; [done| |done..]).
        - by apply bool_decide_eq_true in Hne.
        - by apply bool_decide_eq_true. }
      split; [done|].
      intros o (p & cl & Hp & Hne & Hres & ->)%Hout. simpl. intros <-.
      by apply (resolvable_dest s p cl Hcl) in Hres.
    + intros -> Hr. unfold broadcastToRoom. by rewrite Hr.
    + intros -> ->. intros o. apply elem_of_sendToUser.
    + by intros -> ->.
Qed.

Lemma X17_witness :
  reachable (after roomOfThree)
  ∧ ∀ o, o ∈ (onMessage (after roomOfThree) "A"
                (Some (TYPING "TYPING_START" None (Some "R"))) "-" "09:20").2 →
         dest o ≠ "A".
Proof.
  assert (H0 : reachable (after roomOfThree))
    by (eexists roomOfThree, _; vm_compute; reflexivity).
  assert (H1 : Map_get "A" (clients (after roomOfThree)) = Some (mkClient "A" 0))
    by (vm_compute; reflexivity).
  assert (H2 : truthy (Some "R") = true) by reflexivity.
  assert (H3 : Map_get (Some "R") (chatRooms (after roomOfThree)) = Some roomR)
    by (vm_compute; reflexivity).
  destruct (X17_typing_is_relayed (after roomOfThree) "A" "TYPING_START" None
              (Some "R") "-" "09:20" H0) as (_ & _ & Hbound).
  destruct (Hbound _ H1) as (Hroom & _).
  destruct (Hroom H2 roomR H3) as [_ Hself].
  split; [exact H0|exact Hself].
Defined.

(** ** Disconnecting *)

Lemma clients_users_ok_ext s s' :
  clients s' = clients s → length (userHeap s') = length (userHeap s) →
  clients_users_ok s → clients_users_ok s'.
Proof. intros Hc Hl Hs k c. rewrite Hc, Hl. apply Hs. Qed.

Lemma onMessage_clients_users_ok s clientId data gen now :
  clients_users_ok s → clients_users_ok (onMessage s clientId data gen now).1.
Proof.
  intros Hs. destruct data as [[]|]; simpl; try done.
  - unfold handleUserRegister. case_match; [done|]. cbn [fst].
    intros k c [[-> ->]|Hin]%elem_of_Map_set; simpl; rewrite length_app; simpl; [lia|].
    specialize (Hs k c Hin). lia.
  - unfold handleUserLogin. destruct (find _ _) as [[id r]|]; [|done].
    destruct (userHeap s !! r) as [u|] eqn:Hu; [|done]. cbn [fst].
    intros k c [[-> ->]|Hin]%elem_of_Map_set; simpl; rewrite length_insert.
    + by eapply lookup_lt_Some.
    + by apply (Hs k c).
  - unfold handleGetUsers. by case_match.
  - unfold handleSendMessage. by repeat case_match.
  - apply (clients_users_ok_ext s); [..|done];
      unfold handleJoinRoom, new_array; by repeat (case_match; simplify_eq/=).
  - unfold handleLeaveRoom. by case_match.
  - apply (clients_users_ok_ext s); [..|done];
      unfold handleInitiateCall, new_array; by repeat (case_match; simplify_eq/=).
  - unfold handleAnswerCall. by repeat case_match.
  - unfold handleRejectCall. by repeat case_match.
  - unfold handleEndCall. by repeat case_match.
  - unfold handleWebRTCSignaling. by repeat case_match.
  - unfold handleTyping. by repeat case_match.
  - apply (clients_users_ok_ext s); [..|done];
      unfold handleUserStatusChange; repeat case_match; simpl;
      by rewrite ?length_insert.
Qed.

Lemma handleDisconnect_clients_users_ok s clientId now :
  rooms_ok s → clients_users_ok s →
  clients_users_ok (handleDisconnect s clientId now).1.
Proof.
  intros Hok Hs. apply handleDisconnect_preserves; try done.
  - intros s0 r u Hs0 Hu. apply (clients_users_ok_ext s0); [done| |done].
    simpl. by rewrite length_insert.
  - intros s0 k Hs0. apply (clients_users_ok_ext s0); [..|done];
      unfold handleEndCall; by repeat case_match.
  - intros s0 Hs0 k c [Hin _]%elem_of_Map_delete. by apply (Hs0 k c).
Qed.

Lemma reachable_clients_users_ok s : reachable s → clients_users_ok s.
Proof.
  apply reachable_invariant_rooms; [by intros k c ?%elem_of_nil|].
  intros s0 e s' out Hok Hs Hstep.
  apply (step_cases clients_users_ok _ _ _ _ Hstep); auto.
  - intros. by apply onMessage_clients_users_ok.
  - intros. by apply handleDisconnect_clients_users_ok.
Qed.

Lemma handleDisconnect_unbound s clientId now :
  Map_get clientId (clients s) = None → handleDisconnect s clientId now = (s, []).
Proof.
  intros Hc. unfold handleDisconnect. rewrite Hc. f_equal.
  destruct s. unfold with_clients. simpl in *. f_equal.
  by apply Map_delete_absent.
Qed.

(** X21. Closing a connection that is not bound (it never registered or
    logged in) only marks its socket closed: nothing is sent, no call is
    ended and no room is left, so rooms it joined keep listing it. *)
Theorem X21_close_of_unbound_connection (s : state) (U now : string) :
  Map_get U (sockets s) = Some OPEN ∨ Map_get U (sockets s) = Some CLOSING →
  Map_get U (clients s) = None →
  step s (EvClose U now) = Some (with_sockets (Map_set U CLOSED) s, []).
Proof.
  intros Hsock Hc. unfold step.
  rewrite handleDisconnect_unbound by done. by destruct Hsock as [-> | ->].
Qed.

Lemma X21_witness :
  step (after anonymousJoin) (EvClose "X" "09:30")
  = Some (with_sockets (Map_set "X" CLOSED) (after anonymousJoin), []).
Proof.
  assert (H1 : Map_get "X" (sockets (after anonymousJoin)) = Some OPEN
               ∨ Map_get "X" (sockets (after anonymousJoin)) = Some CLOSING)
    by (left; vm_compute; reflexivity).
  assert (H2 : Map_get "X" (clients (after anonymousJoin)) = None)
    by (vm_compute; reflexivity).
  exact (X21_close_of_unbound_connection (after anonymousJoin) "X" "09:30" H1 H2).
Defined.

Lemma handleDisconnect_userHeap s clientId c now :
  Map_get clientId (clients s) = Some c →
  userHeap (handleDisconnect s clientId now).1
  = match userHeap s !! client_user c with
    | Some u =>
        <[client_user c := mkUser (user_id u) (user_username u) (user_avatar u)
                             (Some "offline") now]> (userHeap s)
    | None => userHeap s
    end.
Proof.
  intros Hc. unfold handleDisconnect. rewrite Hc.
  set (s1 := match userHeap s !! client_user c with Some _ => _ | None => s end).
  assert (H1 : userHeap s1
               = match userHeap s !! client_user c with
                 | Some u =>
                     <[client_user c := mkUser (user_id u) (user_username u)
                                          (user_avatar u) (Some "offline") now]>
                       (userHeap s)
                 | None => userHeap s
                 end) by (subst s1; by case_match).
  clearbody s1.
  pose proof (endCallsOf_frame (activeCalls s1) clientId now s1) as Hf2.
  destruct (endCallsOf _ _ _ s1) as [s2 o2].
  pose proof (leaveRoomsOf_frame (chatRooms s2) clientId s2) as Hf3.
  destruct (leaveRoomsOf _ _ s2) as [s3 o3]. cbn [fst] in *.
  destruct Hf2 as (_ & _ & _ & _ & Hu2 & _), Hf3 as (_ & _ & _ & _ & Hu3).
  simpl. congruence.
Qed.

(** X22. When the connection of a bound client closes (reachable state),
    the client is unbound and its socket is closed, while the directory is
    left as it is: it keeps all its entries and all its usernames, and the
    user object the client was bound to is marked offline with the time of
    the close. So a USER_REGISTER of any username that the directory held
    before the close (and that is compared by value) is still refused right
    after it. *)
Theorem X22_disconnect_keeps_the_account
    (s : state) (U : string) (c : client) (now : string)
    (s' : state) (out : list sent) :
  reachable s →
  Map_get U (clients s) = Some c →
  step s (EvClose U now) = Some (s', out) →
  Map_get U (clients s') = None
  ∧ Map_get U (sockets s') = Some CLOSED
  ∧ users s' = users s
  ∧ usernames s' = usernames s
  ∧ (∃ u, userHeap s !! client_user c = Some u
          ∧ userHeap s' !! client_user c
            = Some (mkUser (user_id u) (user_username u) (user_avatar u)
                      (Some "offline") now))
  ∧ ∀ clientId username avatar gen now',
      by_value username = true →
      username ∈ usernames s →
      onMessage s' clientId (Some (USER_REGISTER username avatar)) gen now'
      = (s', [Sent clientId (ERROR_USERNAME_EXISTS username)]).
Proof.
  intros Hreach Hc Hstep%step_close.
  set (s0 := with_sockets (Map_set U CLOSED) s) in *.
  assert (Hc0 : Map_get U (clients s0) = Some c) by done.
  pose proof (handleDisconnect_clients s0 U now) as [Hcl Hso].
  pose proof (handleDisconnect_users s0 U now) as Hus.
  pose proof (handleDisconnect_userHeap s0 U c now Hc0) as Hheap.
  rewrite Hstep in Hcl, Hso, Hus, Hheap. cbn [fst] in *.
  destruct (userHeap s !! client_user c) as [u|] eqn:Hu.
  2:{ apply lookup_ge_None in Hu.
      pose proof (reachable_clients_users_ok s Hreach U c (Map_get_elem _ _ _ Hc)).
      lia. }
  change (userHeap s0) with (userHeap s) in Hheap. rewrite Hu in Hheap.
  assert (Hnames : usernames s' = usernames s).
  { change (names_of (userHeap s') (users s') = names_of (userHeap s) (users s)).
    rewrite Hus, Hheap. by apply (names_of_insert _ _ u). }
  split_and!.
  - rewrite Hcl. apply Map_get_delete_eq.
  - rewrite Hso. apply Map_get_set_eq.
  - done.
  - done.
  - exists u. split; [done|]. rewrite Hheap. apply list_lookup_insert_eq.
    by eapply lookup_lt_Some.
  - intros clientId username avatar gen now' Hval Hin. simpl.
    unfold handleUserRegister. rewrite <- Hnames in Hin.
    by rewrite (existsb_has_username_true s' username Hin Hval).
Qed.

Lemma X22_witness :
  reachable (after roomOfThree)
  ∧ ∃ s' out, step (after roomOfThree) (EvClose "A" "09:30") = Some (s', out)
              ∧ users s' = users (after roomOfThree).
Proof.
  assert (H0 : reachable (after roomOfThree))
    by (eexists roomOfThree, _; vm_compute; reflexivity).
  assert (H1 : Map_get "A" (clients (after roomOfThree)) = Some (mkClient "A" 0))
    by (vm_compute; reflexivity).
  destruct (step (after roomOfThree) (EvClose "A" "09:30")) as [[s' out]|] eqn:H2;
    [|vm_compute in H2; discriminate H2].
  destruct (X22_disconnect_keeps_the_account _ "A" _ "09:30" s' out H0 H1 H2)
    as (_ & _ & Hus & _).
  split; [exact H0|]. exists s', out. split; [reflexivity|exact Hus].
Defined.

Lemma endCallsOf_keeps es clientId now s k c :
  Map_get k (activeCalls s) = Some c →
  (∀ c0, (k, c0) ∈ es → Some clientId ∉ array s (call_participants c0)) →
  Map_get k (activeCalls (endCallsOf es clientId now s).1) = Some c.
Proof.
  revert s. induction es as [|[k0 c0] es IH]; intros s Hc Hes; cbn [endCallsOf];
    [done|].
  assert (Hrest : ∀ c1, (k, c1) ∈ es → Some clientId ∉ array s (call_participants c1))
    by (intros; apply Hes; by right).
  destruct (includes _ _) eqn:Hin; [|by apply IH].
  apply includes_true in Hin.
  assert (Hne : k0 ≠ k) by (intros ->; by apply (Hes c0); [left|]).
  pose proof (handleEndCall_calls s clientId k0 now) as Hcalls.
  pose proof (handleEndCall_frame s clientId (Some k0) now) as Hf.
  destruct (handleEndCall s clientId (Some k0) now) as [s1 o1]. cbn [fst] in *.
  destruct Hf as (_ & _ & _ & _ & _ & Ha).
  specialize (IH s1). destruct (endCallsOf es clientId now s1) as [s2 o2].
  apply IH.
  - rewrite Hcalls. by rewrite Map_get_delete_ne.
  - intros c1 Hc1. rewrite (array_ext s s1) by done. by apply Hrest.
Qed.

Lemma handleDisconnect_calls_kept s clientId now k c :
  NoDup (activeCalls s).*1 →
  Map_get k (activeCalls s) = Some c →
  Some clientId ∉ array s (call_participants c) →
  Map_get k (activeCalls (handleDisconnect s clientId now).1) = Some c.
Proof.
  intros Hnd Hc Hp. unfold handleDisconnect.
  destruct (Map_get clientId (clients s)) as [cl|]; [|done].
  set (s1 := match userHeap s !! client_user cl with Some _ => _ | None => s end).
  assert (H1 : activeCalls s1 = activeCalls s ∧ arrayHeap s1 = arrayHeap s)
    by (subst s1; by case_match).
  clearbody s1. destruct H1 as [Hc1 Ha1].
  pose proof (endCallsOf_keeps (activeCalls s1) clientId now s1 k c) as H2.
  destruct (endCallsOf _ _ _ s1) as [s2 o2].
  pose proof (leaveRoomsOf_frame (chatRooms s2) clientId s2) as Hf3.
  destruct (leaveRoomsOf _ _ s2) as [s3 o3]. cbn [fst] in *.
  destruct Hf3 as (_ & _ & _ & Hc3 & _). simpl. rewrite Hc3. apply H2.
  - by rewrite Hc1.
  - intros c0 Hin. rewrite Hc1 in Hin.
    rewrite (Map_get_unique k c0 _ Hnd Hin) in Hc. injection Hc as ->.
    by rewrite (array_ext s s1).
Qed.

Lemma handleDisconnect_rooms_kept_as_they_are s clientId now k r :
  rooms_ok s →
  Map_get k (chatRooms s) = Some r →
  Some clientId ∉ array s (participants r) →
  let s' := (handleDisconnect s clientId now).1 in
  (∀ a, a < length (arrayHeap s) →
        a < length (arrayHeap s') ∧ array s' a = array s a)
  ∧ Map_get k (chatRooms s') = Some r.
Proof.
  intros Hok Hr Hp.
  apply (handleDisconnect_preserves
           (λ s', (∀ a, a < length (arrayHeap s) →
                        a < length (arrayHeap s') ∧ array s' a = array s a)
                  ∧ Map_get k (chatRooms s') = Some r)); [..|done|done].
  - done.
  - intros s0 k0 Hs0.
    pose proof (handleEndCall_frame s0 clientId (Some k0) now) as Hf.
    destruct (handleEndCall s0 clientId (Some k0) now) as [s1 o1]. cbn [fst] in *.
    destruct Hf as (_ & _ & _ & Hc & _ & Ha). rewrite Hc.
    split; [|apply Hs0]. intros a Hlt. rewrite Ha, (array_ext s0 s1) by done.
    by apply Hs0.
  - intros s0 k0 r0 [Harr Hk] Hok0 Hr0 Hin. split.
    + intros a Hlt. destruct (Harr a Hlt) as [Hlt0 Heq].
      rewrite dropParticipant_old by done. split; [|done].
      unfold dropParticipant, new_array. simpl. rewrite length_app. lia.
    + rewrite dropParticipant_get_ne; [done|]. intros ->.
      rewrite Hk in Hr0. injection Hr0 as <-. apply Hp.
      assert (Hlt : participants r < length (arrayHeap s))
        by (apply (proj2 Hok k); by apply Map_get_elem).
      destruct (Harr _ Hlt) as [_ <-]. done.
  - done.
Qed.

Lemma calls_arrays_ok_ext s s' :
  activeCalls s' = activeCalls s → length (arrayHeap s) ≤ length (arrayHeap s') →
  calls_arrays_ok s → calls_arrays_ok s'.
Proof. intros Hc Hl Hs k c Hin. rewrite Hc in Hin. specialize (Hs k c Hin). lia. Qed.

Lemma calls_arrays_ok_set s k c c0 :
  Map_get k (activeCalls s) = Some c0 → call_participants c = call_participants c0 →
  calls_arrays_ok s → calls_arrays_ok (with_activeCalls (Map_set k c) s).
Proof.
  intros Hc0 Hps Hs k' c' [[-> ->]|Hin]%elem_of_Map_set; simpl; [|by apply (Hs k')].
  rewrite Hps. apply (Hs k). by apply Map_get_elem.
Qed.

Lemma calls_arrays_ok_delete s k :
  calls_arrays_ok s → calls_arrays_ok (with_activeCalls (Map_delete k) s).
Proof. intros Hs k' c' [Hin _]%elem_of_Map_delete. by apply (Hs k'). Qed.

Lemma handleEndCall_calls_arrays_ok s clientId callId now :
  calls_arrays_ok s → calls_arrays_ok (handleEndCall s clientId callId now).1.
Proof.
  intros Hs. unfold handleEndCall. destruct callId as [k|]; [|done].
  destruct (Map_get k (activeCalls s)) as [c|] eqn:Hc; [|done].
  apply calls_arrays_ok_delete. by apply (calls_arrays_ok_set s k _ c).
Qed.

Lemma onMessage_calls_arrays_ok s clientId data gen now :
  rooms_ok s → calls_arrays_ok s →
  calls_arrays_ok (onMessage s clientId data gen now).1.
Proof.
  intros Hok Hs. destruct data as [[]|]; simpl; try done.
  - unfold handleUserRegister. by case_match.
  - unfold handleUserLogin. by repeat case_match.
  - unfold handleGetUsers. by case_match.
  - unfold handleSendMessage. by repeat case_match.
  - apply (calls_arrays_ok_ext s); [..|done];
      unfold handleJoinRoom, new_array, push;
      repeat (case_match; simplify_eq/=); rewrite ?length_insert, ?length_app;
      simpl; (done || lia).
  - apply (calls_arrays_ok_ext s); [..|done]; unfold handleLeaveRoom;
      case_match; try done. unfold dropParticipant, new_array. simpl.
    rewrite length_app. lia.
  - unfold handleInitiateCall. destruct (truthy roomId).
    + destruct (Map_get roomId (chatRooms s)) as [r|] eqn:Hr; cbn [fst].
      * intros k c [[-> ->]|Hin]%elem_of_Map_set; simpl; [|by apply (Hs k)].
        apply (proj2 Hok roomId). by apply Map_get_elem.
      * intros k c [[-> ->]|Hin]%elem_of_Map_set; simpl; rewrite length_app; simpl;
          [lia|]. specialize (Hs k c Hin). lia.
    + cbn [fst]. intros k c [[-> ->]|Hin]%elem_of_Map_set; simpl; rewrite length_app;
        simpl; [lia|]. specialize (Hs k c Hin). lia.
  - unfold handleAnswerCall. destruct callId as [k|]; [|done].
    destruct (Map_get k (activeCalls s)) as [c|] eqn:Hc; [|done].
    by apply (calls_arrays_ok_set s k _ c).
  - unfold handleRejectCall. destruct callId as [k|]; [|done].
    destruct (Map_get k (activeCalls s)) as [c|] eqn:Hc; [|done].
    apply calls_arrays_ok_delete. by apply (calls_arrays_ok_set s k _ c).
  - by apply handleEndCall_calls_arrays_ok.
  - unfold handleWebRTCSignaling. by repeat case_match.
  - unfold handleTyping. by repeat case_match.
  - unfold handleUserStatusChange. by repeat case_match.
Qed.

Lemma handleDisconnect_calls_arrays_ok s clientId now :
  rooms_ok s → calls_arrays_ok s →
  calls_arrays_ok (handleDisconnect s clientId now).1.
Proof.
  intros Hok Hs. apply handleDisconnect_preserves; try done.
  - intros s0 k Hs0. by apply handleEndCall_calls_arrays_ok.
  - intros s0 k r Hs0 _ _ _. apply (calls_arrays_ok_ext s0); [done| |done].
    unfold dropParticipant, new_array. simpl. rewrite length_app. lia.
Qed.

Lemma reachable_calls_arrays_ok s : reachable s → calls_arrays_ok s.
Proof.
  apply reachable_invariant_rooms; [by intros k c ?%elem_of_nil|].
  intros s0 e s' out Hok Hs Hstep.
  apply (step_cases calls_arrays_ok _ _ _ _ Hstep); auto.
  - intros. by apply onMessage_calls_arrays_ok.
  - intros. by apply handleDisconnect_calls_arrays_ok.
Qed.

Lemma handleDisconnect_arrays s clientId now a :
  rooms_ok s → a < length (arrayHeap s) →
  a < length (arrayHeap (handleDisconnect s clientId now).1)
  ∧ array (handleDisconnect s clientId now).1 a = array s a.
Proof.
  intros Hok Hlt.
  apply (handleDisconnect_preserves
           (λ s', a < length (arrayHeap s') ∧ array s' a = array s a));
    [..|done|done].
  - done.
  - intros s0 k0 Hs0.
    pose proof (handleEndCall_frame s0 clientId (Some k0) now) as Hf.
    destruct (handleEndCall s0 clientId (Some k0) now) as [s1 o1]. cbn [fst] in *.
    destruct Hf as (_ & _ & _ & _ & _ & Ha). by rewrite Ha, (array_ext s0 s1).
  - intros s0 k0 r0 [Hlt0 Heq] _ _ _. rewrite dropParticipant_old by done.
    split; [|done]. unfold dropParticipant, new_array. simpl. rewrite length_app. lia.
  - done.
Qed.

(** X23. When a connection closes (reachable state), what it was not part
    of is left alone: a call in progress that does not list it stays as it
    is, with the participants it had, and a room that does not list it keeps
    its record and its participants. *)
Theorem X23_disconnect_spares_the_rest
    (s : state) (U now : string) (s' : state) (out : list sent) :
  reachable s →
  step s (EvClose U now) = Some (s', out) →
  (∀ callId c, Map_get callId (activeCalls s) = Some c →
     Some U ∉ array s (call_participants c) →
     Map_get callId (activeCalls s') = Some c
     ∧ array s' (call_participants c) = array s (call_participants c))
  ∧ (∀ roomId r, Map_get roomId (chatRooms s) = Some r →
       Some U ∉ array s (participants r) →
       Map_get roomId (chatRooms s') = Some r
       ∧ array s' (participants r) = array s (participants r)).
Proof.
  intros Hreach Hstep%step_close.
  set (s0 := with_sockets (Map_set U CLOSED) s) in *.
  pose proof (reachable_rooms_ok s Hreach) as Hok.
  pose proof (reachable_calls_keyed s Hreach) as [Hnd _].
  assert (Hok0 : rooms_ok s0) by done.
  split.
  - intros callId c Hc Hp.
    pose proof (handleDisconnect_calls_kept s0 U now callId c Hnd Hc Hp) as Hkept.
    rewrite Hstep in Hkept. split; [done|].
    assert (Hlt : call_participants c < length (arrayHeap s)).
    { apply (reachable_calls_arrays_ok s Hreach callId). by apply Map_get_elem. }
    pose proof (handleDisconnect_arrays s0 U now _ Hok0 Hlt) as [_ Ha].
    by rewrite Hstep in Ha.
  - intros roomId r Hr Hp.
    pose proof (handleDisconnect_rooms_kept_as_they_are s0 U now roomId r Hok0 Hr Hp)
      as [Harr Hkept].
    rewrite Hstep in Harr, Hkept. cbn [fst] in *. split; [done|].
    apply Harr. apply (proj2 Hok roomId). by apply Map_get_elem.
Qed.

Lemma X23_witness :
  reachable (after answeredCall)
  ∧ ∃ s' out, step (after answeredCall) (EvClose "C" "09:30") = Some (s', out)
              ∧ Map_get "call1" (activeCalls s') = Some callAB.
Proof.
  assert (H0 : reachable (after answeredCall))
    by (eexists answeredCall, _; vm_compute; reflexivity).
  assert (H1 : Map_get "call1" (activeCalls (after answeredCall)) = Some callAB)
    by (vm_compute; reflexivity).
  assert (H2 : Some "C" ∉ array (after answeredCall) (call_participants callAB))
    by (apply includes_false; vm_compute; reflexivity).
  destruct (step (after answeredCall) (EvClose "C" "09:30")) as [[s' out]|] eqn:H3;
    [|vm_compute in H3; discriminate H3].
  destruct (X23_disconnect_spares_the_rest _ "C" "09:30" s' out H0 H3) as [Hcalls _].
  destruct (Hcalls "call1" callAB H1 H2) as [Hkept _].
  split; [exact H0|]. exists s', out. split; [reflexivity|exact Hkept].
Defined.

(** ** Where the server writes *)

Lemma isOpen_ext s s' w : sockets s' = sockets s → isOpen s' w = isOpen s w.
Proof. unfold isOpen. by intros ->. Qed.

Lemma sendToUser_open s p m o :
  o ∈ sendToUser s p m → isOpen s (dest o) = true.
Proof. by intros (c & [_ Hopen] & ->)%elem_of_sendToUser. Qed.

Lemma broadcastToRoom_open s roomId m ex o :
  o ∈ broadcastToRoom s roomId m ex → isOpen s (dest o) = true.
Proof.
  destruct (Map_get roomId (chatRooms s)) as [r|] eqn:Hr.
  - rewrite (elem_of_broadcastToRoom s roomId r _ _ _ Hr).
    by intros (p & cl & _ & _ & [_ Hopen] & ->).
  - unfold broadcastToRoom. rewrite Hr. by intros ?%elem_of_nil.
Qed.

Lemma broadcastToAll_open s m ex o :
  o ∈ broadcastToAll s m ex → isOpen s (dest o) = true.
Proof. by intros (k & c & _ & _ & Hopen & ->)%elem_of_broadcastToAll. Qed.

Lemma notifyParticipants_open s c m o :
  o ∈ notifyParticipants s c m → isOpen s (dest o) = true.
Proof. by intros (p & cl & _ & [_ Hopen] & ->)%elem_of_notifyParticipants. Qed.

Lemma onMessage_delivery s clientId data gen now o :
  clients_ok s →
  o ∈ (onMessage s clientId data gen now).2 →
  isOpen s (dest o) = true ∨ dest o = clientId.
Proof.
  intros Hs. destruct data as [[]|]; simpl; try (by intros ?%elem_of_nil).
  - unfold handleUserRegister. case_match.
    + intros ->%list_elem_of_singleton. by right.
    + cbn [snd]. intros [->|Ho]%elem_of_cons; [by right|].
      left. by apply broadcastToAll_open in Ho.
  - unfold handleUserLogin. destruct (find _ _) as [[id r]|];
      [|intros ->%list_elem_of_singleton; by right].
    destruct (userHeap s !! r); [|intros ->%list_elem_of_singleton; by right].
    cbn [snd]. intros [->|Ho]%elem_of_cons; [by right|].
    left. by apply broadcastToAll_open in Ho.
  - unfold handleGetUsers. destruct (Map_get clientId (clients s)) as [c|] eqn:Hc;
      [|by intros ?%elem_of_nil].
    intros ->%list_elem_of_singleton. right. simpl.
    by destruct (Hs clientId c (Map_get_elem _ _ _ Hc)).
  - unfold handleSendMessage. destruct (Map_get clientId (clients s)) as [c|] eqn:Hc;
      [|by intros ?%elem_of_nil].
    destruct (truthy roomId).
    + destruct (Map_get roomId (chatRooms s)); [|by intros ?%elem_of_nil].
      cbn [snd]. intros Ho. left. by apply broadcastToRoom_open in Ho.
    + destruct (truthy to); [|by intros ?%elem_of_nil].
      cbn [snd]. intros [Ho| ->%list_elem_of_singleton]%elem_of_app.
      * left. by apply sendToUser_open in Ho.
      * right. simpl. by destruct (Hs clientId c (Map_get_elem _ _ _ Hc)).
  - unfold handleJoinRoom.
    set (s1 := if Map_has roomId (chatRooms s) then s else _).
    assert (H1 : sockets s1 = sockets s ∧ clients s1 = clients s)
      by (subst s1; by case_match).
    clearbody s1. destruct H1 as [Hso1 Hcl1].
    destruct (Map_get roomId (chatRooms s1)) as [r|]; [|by intros ?%elem_of_nil].
    set (s2 := if includes _ _ then s1 else _).
    assert (H2 : sockets s2 = sockets s ∧ clients s2 = clients s)
      by (subst s2; by case_match).
    clearbody s2. destruct H2 as [Hso2 Hcl2]. cbn [snd]. rewrite Hcl2.
    intros [Ho|Ho]%elem_of_app.
    + destruct (Map_get clientId (clients s)) as [c|] eqn:Hc;
        [|by apply elem_of_nil in Ho].
      apply list_elem_of_singleton in Ho as ->. right. simpl.
      by destruct (Hs clientId c (Map_get_elem _ _ _ Hc)).
    + left. apply broadcastToRoom_open in Ho. by rewrite (isOpen_ext s s2) in Ho.
  - unfold handleLeaveRoom. destruct (Map_get roomId (chatRooms s)) as [r|];
      [|by intros ?%elem_of_nil].
    cbn [snd]. intros Ho. left. by apply broadcastToRoom_open in Ho.
  - unfold handleInitiateCall.
    set (p := if truthy roomId then _ else _).
    assert (H1 : sockets p.1 = sockets s ∧ clients p.1 = clients s)
      by (subst p; unfold new_array; by repeat case_match).
    clearbody p. destruct p as [s1 ps]. cbn [fst] in H1. destruct H1 as [Hso1 Hcl1].
    cbn [snd]. intros [Ho|Ho]%elem_of_app.
    + left. destruct (truthy roomId).
      * apply broadcastToRoom_open in Ho. by rewrite (isOpen_ext s) in Ho.
      * apply sendToUser_open in Ho. by rewrite (isOpen_ext s) in Ho.
    + simpl in Ho. rewrite Hcl1 in Ho.
      destruct (Map_get clientId (clients s)) as [c|] eqn:Hc;
        [|by apply elem_of_nil in Ho].
      apply list_elem_of_singleton in Ho as ->. right. simpl.
      by destruct (Hs clientId c (Map_get_elem _ _ _ Hc)).
  - unfold handleAnswerCall. destruct callId as [k|]; [|by intros ?%elem_of_nil].
    destruct (Map_get k (activeCalls s)); [|by intros ?%elem_of_nil].
    cbn [snd]. intros Ho. left. by apply notifyParticipants_open in Ho.
  - unfold handleRejectCall. destruct callId as [k|]; [|by intros ?%elem_of_nil].
    destruct (Map_get k (activeCalls s)); [|by intros ?%elem_of_nil].
    cbn [snd]. intros Ho. left. by apply notifyParticipants_open in Ho.
  - unfold handleEndCall. destruct callId as [k|]; [|by intros ?%elem_of_nil].
    destruct (Map_get k (activeCalls s)); [|by intros ?%elem_of_nil].
    cbn [snd]. intros Ho. left. by apply notifyParticipants_open in Ho.
  - unfold handleWebRTCSignaling. destruct (truthy to).
    + cbn [snd]. intros Ho. left. by apply sendToUser_open in Ho.
    + destruct (truthy callId); [|by intros ?%elem_of_nil].
      destruct (Map_get_field callId (activeCalls s)); [|by intros ?%elem_of_nil].
      cbn [snd]. intros (p & _ & Ho)%elem_of_flat_map.
      destruct (bool_decide _); [|by apply elem_of_nil in Ho].
      left. by apply sendToUser_open in Ho.
  - unfold handleTyping. destruct (Map_get clientId (clients s));
      [|by intros ?%elem_of_nil].
    destruct (truthy roomId).
    + cbn [snd]. intros Ho. left. by apply broadcastToRoom_open in Ho.
    + destruct (truthy to); [|by intros ?%elem_of_nil].
      cbn [snd]. intros Ho. left. by apply sendToUser_open in Ho.
  - unfold handleUserStatusChange. destruct (Map_get clientId (users s));
      [|by intros ?%elem_of_nil].
    destruct (userHeap s !! _); [|by intros ?%elem_of_nil].
    cbn [snd]. intros Ho. left. by apply broadcastToAll_open in Ho.
Qed.

Lemma endCallsOf_open es clientId now s o :
  o ∈ (endCallsOf es clientId now s).2 → isOpen s (dest o) = true.
Proof.
  revert s. induction es as [|[k c] es IH]; intros s; cbn [endCallsOf];
    [by intros ?%elem_of_nil|].
  destruct (includes _ _); [|by apply IH].
  pose proof (handleEndCall_frame s clientId (Some k) now) as Hf.
  assert (H1 : ∀ o, o ∈ (handleEndCall s clientId (Some k) now).2 →
                    isOpen s (dest o) = true).
  { intros o'. unfold handleEndCall. destruct (Map_get k (activeCalls s));
      [|by intros ?%elem_of_nil].
    cbn [snd]. intros Ho. by apply notifyParticipants_open in Ho. }
  destruct (handleEndCall s clientId (Some k) now) as [s1 o1]. cbn [fst snd] in *.
  destruct Hf as (Hso & _). specialize (IH s1).
  destruct (endCallsOf es clientId now s1) as [s2 o2]. cbn [snd] in *.
  intros [Ho|Ho]%elem_of_app; [by apply H1|].
  rewrite <- (isOpen_ext s s1) by done. by apply IH.
Qed.

Lemma leaveRoomsOf_open es clientId s o :
  o ∈ (leaveRoomsOf es clientId s).2 → isOpen s (dest o) = true.
Proof.
  revert s. induction es as [|[k r] es IH]; intros s; cbn [leaveRoomsOf];
    [by intros ?%elem_of_nil|].
  destruct (includes _ _); [|by apply IH].
  specialize (IH (dropParticipant s k r clientId)).
  destruct (leaveRoomsOf es clientId _) as [s2 o2]. cbn [snd] in *.
  intros [Ho|Ho]%elem_of_app.
  - by apply broadcastToRoom_open in Ho.
  - by apply IH in Ho.
Qed.

Lemma handleDisconnect_open s clientId now o :
  o ∈ (handleDisconnect s clientId now).2 → isOpen s (dest o) = true.
Proof.
  unfold handleDisconnect.
  destruct (Map_get clientId (clients s)) as [c|]; [|by intros ?%elem_of_nil].
  set (s1 := match userHeap s !! client_user c with Some _ => _ | None => s end).
  assert (H1 : sockets s1 = sockets s) by (subst s1; by case_match).
  clearbody s1.
  pose proof (endCallsOf_frame (activeCalls s1) clientId now s1) as Hf2.
  pose proof (endCallsOf_open (activeCalls s1) clientId now s1) as Ho2.
  destruct (endCallsOf _ _ _ s1) as [s2 o2].
  pose proof (leaveRoomsOf_open (chatRooms s2) clientId s2) as Ho3.
  destruct (leaveRoomsOf _ _ s2) as [s3 o3]. cbn [fst snd] in *.
  destruct Hf2 as (Hso2 & _).
  intros [Ho|[Ho|Ho]%elem_of_app]%elem_of_app.
  - apply broadcastToAll_open in Ho. by rewrite (isOpen_ext s s1) in Ho.
  - apply Ho2 in Ho. by rewrite (isOpen_ext s s1) in Ho.
  - apply Ho3 in Ho. rewrite (isOpen_ext s1 s2), (isOpen_ext s s1) in Ho; done.
Qed.

(** X24. Whatever the server does in a reachable state, it writes only to
    sockets that are OPEN when it is done, with one exception: the replies
    to the sender of the message being handled go out unchecked, so they may
    meet the sender's socket while it is CLOSING. In particular a connection
    whose close is being handled is sent nothing. *)
Theorem X24_server_writes_to_open_sockets
    (s : state) (e : event) (s' : state) (out : list sent) (o : sent) :
  reachable s →
  step s e = Some (s', out) →
  o ∈ out →
  (Map_get (dest o) (sockets s') = Some OPEN
   ∨ (Map_get (dest o) (sockets s') = Some CLOSING
      ∧ ∃ data gen now, e = EvMessage (dest o) data gen now))
  ∧ ∀ U now, e = EvClose U now → dest o ≠ U.
Proof.
  intros Hreach Hstep Ho.
  pose proof (reachable_clients_ok s Hreach) as Hcl.
  destruct e as [cid now|cid data gen now|cid|cid now|cid].
  - simpl in Hstep. destruct (Map_get cid (sockets s)); [done|].
    injection Hstep as <- <-. apply list_elem_of_singleton in Ho as ->.
    split; [|done]. left. simpl. apply Map_get_set_eq.
  - split; [|done].
    assert (Hlive : Map_get cid (sockets s) = Some OPEN
                    ∨ Map_get cid (sockets s) = Some CLOSING).
    { simpl in Hstep. destruct (Map_get cid (sockets s)) as [[]|]; try done; auto. }
    assert (Hrun : onMessage s cid data gen now = (s', out)).
    { simpl in Hstep. destruct (Map_get cid (sockets s)) as [[]|]; by simplify_eq. }
    pose proof (onMessage_sockets s cid data gen now) as Hso.
    pose proof (onMessage_delivery s cid data gen now o Hcl) as Hd.
    rewrite Hrun in Hso, Hd. cbn [fst snd] in *. rewrite Hso.
    destruct (Hd Ho) as [Hopen| ->].
    + left. by apply bool_decide_eq_true in Hopen.
    + destruct Hlive as [Hlive|Hlive]; [by left|]. right. split; [done|]. by eexists _, _, _.
  - simpl in Hstep. destruct (Map_get cid (sockets s)) as [[]|]; try done.
    injection Hstep as <- <-. by apply elem_of_nil in Ho.
  - apply step_close in Hstep.
    pose proof (handleDisconnect_open (with_sockets (Map_set cid CLOSED) s) cid now o)
      as Hopen.
    pose proof (handleDisconnect_clients (with_sockets (Map_set cid CLOSED) s) cid now)
      as [_ Hso].
    rewrite Hstep in Hopen, Hso. cbn [fst snd] in *.
    specialize (Hopen Ho). apply bool_decide_eq_true in Hopen. simpl in Hopen.
    split.
    + left. by rewrite Hso.
    + intros U now' [= <- <-] Heq. rewrite Heq, Map_get_set_eq in Hopen. done.
  - simpl in Hstep. destruct (Map_get cid (sockets s)); [|done].
    injection Hstep as <- <-. by apply elem_of_nil in Ho.
Qed.

Lemma X24_witness :
  reachable (after conference)
  ∧ ∃ s' out, step (after conference) (EvClose "A" "09:30") = Some (s', out)
              ∧ ∀ o, o ∈ out → dest o ≠ "A".
Proof.
  assert (H0 : reachable (after conference))
    by (eexists conference, _; vm_compute; reflexivity).
  destruct (step (after conference) (EvClose "A" "09:30")) as [[s' out]|] eqn:H1;
    [|vm_compute in H1; discriminate H1].
  split; [exact H0|]. exists s', out. split; [reflexivity|].
  intros o Ho.
  destruct (X24_server_writes_to_open_sockets _ _ s' out o H0 H1 Ho) as [_ Hself].
  exact (Hself "A" "09:30" eq_refl).
Defined.

(** ** The REST endpoints *)

Lemma rooms_keyed_set s k r :
  room_id r = k → rooms_keyed s → rooms_keyed (with_chatRooms (Map_set k r) s).
Proof. intros Hr Hs k' r' [[-> ->]|Hin]%elem_of_Map_set; [done|by apply Hs]. Qed.

Lemma dropParticipant_rooms_keyed s k r clientId :
  Map_get k (chatRooms s) = Some r → rooms_keyed s →
  rooms_keyed (dropParticipant s k r clientId).
Proof.
  intros Hr Hs. unfold dropParticipant, new_array.
  intros k' r' [[-> ->]|Hin]%elem_of_Map_set; [|by apply Hs].
  simpl. apply Hs. by apply Map_get_elem.
Qed.

Lemma onMessage_rooms_keyed s clientId data gen now :
  rooms_keyed s → rooms_keyed (onMessage s clientId data gen now).1.
Proof.
  intros Hs. destruct data as [[]|]; simpl; try done.
  - unfold handleUserRegister. by case_match.
  - unfold handleUserLogin. by repeat case_match.
  - unfold handleGetUsers. by case_match.
  - unfold handleSendMessage. destruct (Map_get clientId (clients s)); [|done].
    destruct (truthy roomId); [|by case_match].
    destruct (Map_get roomId (chatRooms s)) as [r|] eqn:Hr; [|done].
    apply rooms_keyed_set; [|done]. simpl. apply Hs. by apply Map_get_elem.
  - unfold handleJoinRoom.
    set (s1 := if Map_has roomId (chatRooms s) then s else _).
    assert (H1 : rooms_keyed s1).
    { subst s1. destruct (Map_has roomId (chatRooms s)); [done|].
      unfold new_array. by apply rooms_keyed_set. }
    clearbody s1. destruct (Map_get roomId (chatRooms s1)); [|done].
    cbn [fst]. by destruct (includes _ _).
  - unfold handleLeaveRoom. destruct (Map_get roomId (chatRooms s)) eqn:Hr; [|done].
    by apply dropParticipant_rooms_keyed.
  - unfold handleInitiateCall, new_array. by repeat (case_match; simplify_eq/=).
  - unfold handleAnswerCall. by repeat case_match.
  - unfold handleRejectCall. by repeat case_match.
  - unfold handleEndCall. by repeat case_match.
  - unfold handleWebRTCSignaling. by repeat case_match.
  - unfold handleTyping. by repeat case_match.
  - unfold handleUserStatusChange. by repeat case_match.
Qed.

Lemma handleDisconnect_rooms_keyed s clientId now :
  rooms_ok s → rooms_keyed s → rooms_keyed (handleDisconnect s clientId now).1.
Proof.
  intros Hok Hs. apply handleDisconnect_preserves; try done.
  - intros s0 k Hs0. unfold handleEndCall. by repeat case_match.
  - intros s0 k r Hs0 _ Hr _. by apply dropParticipant_rooms_keyed.
Qed.

Lemma reachable_rooms_keyed s : reachable s → rooms_keyed s.
Proof.
  apply reachable_invariant_rooms; [by intros k c ?%elem_of_nil|].
  intros s0 e s' out Hok Hs Hstep.
  apply (step_cases rooms_keyed _ _ _ _ Hstep); auto.
  - intros. by apply onMessage_rooms_keyed.
  - intros. by apply handleDisconnect_rooms_keyed.
Qed.

(** X25. In every reachable state (room ids being strings or absent)
    [/api/rooms] returns one summary per room, in the order the rooms were
    created, under pairwise distinct ids;
    each summary carries the name of the room stored under its id, the
    number of its participants and the last message of its history (none
    for an empty history). *)
Theorem X25_api_rooms_summarizes_each_room (s : state) :
  reachable s →
  summary_id <$> apiRooms s = (chatRooms s).*1
  ∧ NoDup (summary_id <$> apiRooms s)
  ∧ ∀ sm, sm ∈ apiRooms s →
      ∃ r, Map_get (summary_id sm) (chatRooms s) = Some r
           ∧ summary_name sm = room_name r
           ∧ participantCount sm = length (array s (participants r))
           ∧ lastMessage sm = last (messages r)
           ∧ (messages r = [] → lastMessage sm = None).
Proof.
  intros Hreach.
  pose proof (reachable_rooms_keyed s Hreach) as Hkey.
  pose proof (reachable_rooms_ok s Hreach) as [Hnd _].
  assert (Hids : summary_id <$> apiRooms s = (chatRooms s).*1).
  { unfold apiRooms. rewrite <- list_fmap_compose. apply Forall_fmap_ext, Forall_forall.
    intros [k r] Hin. simpl. by apply Hkey. }
  split_and!; [done|by rewrite Hids|].
  intros sm [[k r] [-> Hin]]%list_elem_of_fmap. exists r. simpl.
  rewrite (Hkey k r Hin). split_and!; try done.
  - by apply Map_get_unique.
  - by intros ->.
Qed.

Lemma X25_witness :
  reachable (after (flood 2))
  ∧ summary_id <$> apiRooms (after (flood 2)) = [Some "R"].
Proof.
  assert (H0 : reachable (after (flood 2)))
    by (eexists (flood 2), _; vm_compute; reflexivity).
  destruct (X25_api_rooms_summarizes_each_room _ H0) as (Hids & _).
  split; [exact H0|]. rewrite Hids. vm_compute. reflexivity.
Defined.

Lemma onMessage_clients_keys s clientId data gen now :
  NoDup (clients s).*1 → NoDup (clients (onMessage s clientId data gen now).1).*1.
Proof.
  intros Hs. destruct (onMessage_clients s clientId data gen now) as [-> |[r ->]];
    [done|]. by apply Map_set_NoDup.
Qed.

Lemma reachable_clients_keys s : reachable s → NoDup (clients s).*1.
Proof.
  revert s. apply (reachable_invariant (λ s, NoDup (clients s).*1)); [apply NoDup_nil_2|].
  intros s0 e s' out Hs Hstep.
  apply (step_cases (λ s, NoDup (clients s).*1) _ _ _ _ Hstep); [done| | |done].
  - intros. by apply onMessage_clients_keys.
  - intros f clientId now.
    destruct (handleDisconnect_clients (with_sockets f s0) clientId now) as [-> _].
    by apply Map_delete_unique.
Qed.

Lemma elem_of_liveSockets s k :
  k ∈ liveSockets s ↔
  ∃ st, (k, st) ∈ sockets s ∧ (st = OPEN ∨ st = CLOSING).
Proof.
  unfold liveSockets. rewrite list_elem_of_fmap. split.
  - intros [[k' st] [-> [Hlive Hin]%list_elem_of_filter]]. by exists st.
  - intros (st & Hin & Hlive). exists (k, st). split; [done|].
    by apply list_elem_of_filter.
Qed.

(** X26. In every reachable state the [connections] figure of
    [/api/health] counts the bound clients only, each of which has a socket
    of its own that is not closed: it never exceeds the number of sockets
    that are OPEN or CLOSING. *)
Theorem X26_health_connections_are_live (s : state) (now : string) :
  reachable s →
  health_connections (apiHealth s now) ≤ length (liveSockets s).
Proof.
  intros Hreach. simpl. rewrite <- (length_fmap fst (clients s)).
  apply submseteq_length, NoDup_submseteq; [by apply reachable_clients_keys|].
  intros k [[k' c] [-> Hin]]%list_elem_of_fmap. simpl.
  destruct (reachable_clients_ok s Hreach k' c Hin) as [_ Hlive].
  apply elem_of_liveSockets.
  destruct Hlive as [Hl|Hl]; apply Map_get_elem in Hl; eexists; split; eauto.
Qed.

Lemma X26_witness :
  reachable (after anonymousJoin)
  ∧ health_connections (apiHealth (after anonymousJoin) "09:30") ≤ 1.
Proof.
  assert (H0 : reachable (after anonymousJoin))
    by (eexists anonymousJoin, _; vm_compute; reflexivity).
  split; [exact H0|].
  exact (X26_health_connections_are_live (after anonymousJoin) "09:30" H0).
Defined.

(** ** The peer-connection service *)

Section js_map_more.
Context {K V : Type} `{EqDecision K}.
Implicit Types (k : K) (v : V) (m : list (K * V)).

Lemma Map_delete_keys_elem k k' m :
  k' ∈ (Map_delete k m).*1 ↔ k' ∈ m.*1 ∧ k' ≠ k.
Proof.
  rewrite !list_elem_of_fmap. split.
  - intros [[k0 v0] [-> [Hin Hne]%elem_of_Map_delete]]. split; [|done].
    by exists (k0, v0).
  - intros [[[k0 v0] [-> Hin]] Hne]. exists (k0, v0). split; [done|].
    by apply elem_of_Map_delete.
Qed.

Lemma Map_set_absent k v m : Map_get k m = None → Map_set k v m = m ++ [(k, v)].
Proof.
  induction m as [|[k0 v0] m IH]; simpl; [done|].
  destruct (decide (k0 = k)); [done|]. intros Hm. by rewrite IH.
Qed.

Lemma Map_set_keys_elem k v k' m :
  k' ∈ (Map_set k v m).*1 ↔ k' = k ∨ k' ∈ m.*1.
Proof.
  rewrite Map_set_keys. unfold Map_has. destruct (Map_get k m) as [v0|] eqn:Hg.
  - split; [by right|]. intros [->|]; [|done].
    apply Map_get_elem in Hg. by apply (list_elem_of_fmap_2 fst _ (k, v0)).
  - rewrite elem_of_app, list_elem_of_singleton. tauto.
Qed.

Lemma Map_delete_values k v m :
  NoDup m.*1 → Map_get k m = Some v → m.*2 ≡ₚ v :: (Map_delete k m).*2.
Proof.
  unfold Map_delete. induction m as [|[k0 v0] m IH]; simpl; [done|].
  intros [Hk Hm]%NoDup_cons. rewrite filter_cons. simpl.
  destruct (decide (k0 = k)) as [->|Hne].
  - intros [= ->]. rewrite decide_False by (intros Hn; by apply Hn).
    change (filter (λ kv : K * V, kv.1 ≠ k) m) with (Map_delete k m).
    rewrite Map_delete_absent; [done|]. by apply Map_get_None.
  - intros Hg. rewrite decide_True by done. rewrite fmap_cons. simpl.
    rewrite (IH Hm Hg). apply Permutation_swap.
Qed.
End js_map_more.

Lemma closePeerConnection_maps sv userId :
  let sv' := closePeerConnection sv userId in
  peerConnections sv' = Map_delete userId (peerConnections sv)
  ∧ localStreams sv' = Map_delete userId (localStreams sv)
  ∧ remoteStreams sv' = Map_delete userId (remoteStreams sv)
  ∧ allocated sv' = allocated sv
  ∧ closedConnections sv'
    = closedConnections sv
        ++ from_option (λ pc, [pc]) [] (Map_get userId (peerConnections sv))
  ∧ stoppedTracks sv'
    = stoppedTracks sv
        ++ from_option getTracks [] (Map_get userId (localStreams sv))
  ∧ addedTracks sv' = addedTracks sv.
Proof.
  unfold closePeerConnection.
  destruct (Map_get userId (peerConnections sv)) eqn:Hpc; simpl;
    destruct (Map_get userId (localStreams sv)) eqn:Hls; simpl;
    rewrite ?app_nil_r; split_and!; try done;
    symmetry; by apply Map_delete_absent.
Qed.

Lemma closePeerConnection_noop sv userId :
  Map_get userId (peerConnections sv) = None →
  Map_get userId (localStreams sv) = None →
  Map_get userId (remoteStreams sv) = None →
  closePeerConnection sv userId = sv.
Proof.
  intros Hpc Hls Hrs. unfold closePeerConnection. rewrite Hpc. simpl. rewrite Hls.
  simpl. rewrite Map_delete_absent by done. by destruct sv.
Qed.

(** X27. [closePeerConnection(userId)] leaves no trace of the user: the
    three maps have no entry for the user afterwards, the user's connection
    (if any) has been closed and every track of the user's local stream (if
    any) stopped, and the entries of every other user are as before. With
    nothing to close it changes nothing, so closing twice is closing once. *)
Theorem X27_close_removes_the_user (sv : service) (userId : string) :
  let sv' := closePeerConnection sv userId in
  (Map_get userId (peerConnections sv') = None
   ∧ Map_get userId (localStreams sv') = None
   ∧ Map_get userId (remoteStreams sv') = None)
  ∧ (∀ pc, Map_get userId (peerConnections sv) = Some pc →
       closedConnections sv' = closedConnections sv ++ [pc])
  ∧ (Map_get userId (peerConnections sv) = None →
       closedConnections sv' = closedConnections sv)
  ∧ (∀ stream, Map_get userId (localStreams sv) = Some stream →
       stoppedTracks sv' = stoppedTracks sv ++ getTracks stream)
  ∧ (∀ other, other ≠ userId →
       Map_get other (peerConnections sv') = Map_get other (peerConnections sv)
       ∧ Map_get other (localStreams sv') = Map_get other (localStreams sv)
       ∧ Map_get other (remoteStreams sv') = Map_get other (remoteStreams sv))
  ∧ closePeerConnection sv' userId = sv'.
Proof.
  intros sv'.
  destruct (closePeerConnection_maps sv userId)
    as (Hpc & Hls & Hrs & _ & Hcl & Hst & _).
  fold sv' in Hpc, Hls, Hrs, Hcl, Hst.
  assert (Hgone : Map_get userId (peerConnections sv') = None
                  ∧ Map_get userId (localStreams sv') = None
                  ∧ Map_get userId (remoteStreams sv') = None).
  { rewrite Hpc, Hls, Hrs. split_and!; apply Map_get_delete_eq. }
  split; [done|]. split_and!.
  - intros pc Hg. by rewrite Hcl, Hg.
  - intros Hg. by rewrite Hcl, Hg, app_nil_r.
  - intros stream Hg. by rewrite Hst, Hg.
  - intros other Hne. rewrite Hpc, Hls, Hrs.
    split_and!; by apply Map_get_delete_ne.
  - destruct Hgone as (? & ? & ?). by apply closePeerConnection_noop.
Qed.

Lemma X27_witness :
  closedConnections
    (closePeerConnection (createPeerConnection newService "bob").1 "bob")
  = closedConnections (createPeerConnection newService "bob").1 ++ [0].
Proof.
  destruct (X27_close_removes_the_user (createPeerConnection newService "bob").1 "bob")
    as (_ & Hclosed & _).
  apply Hclosed. vm_compute. reflexivity.
Defined.

Lemma closePeerConnection_service_ok sv userId :
  service_ok sv → service_ok (closePeerConnection sv userId).
Proof.
  intros (Hk & Hv & Hall & Hlk & Hls & Hrs).
  destruct (closePeerConnection_maps sv userId)
    as (Epc & Els & Ers & Eal & Ecl & _).
  unfold service_ok. rewrite Epc, Els, Ers, Eal, Ecl.
  assert (Hperm : (peerConnections sv).*2 ++ closedConnections sv
                  ≡ₚ (Map_delete userId (peerConnections sv)).*2
                     ++ closedConnections sv
                     ++ from_option (λ pc, [pc]) []
                          (Map_get userId (peerConnections sv))).
  { destruct (Map_get userId (peerConnections sv)) as [pc|] eqn:Hg; simpl.
    - rewrite (Map_delete_values userId pc _ Hk Hg). simpl.
      rewrite (Permutation_app_comm (closedConnections sv) [pc]). simpl.
      by rewrite Permutation_middle.
    - by rewrite app_nil_r, Map_delete_absent. }
  split_and!.
  - by apply Map_delete_unique.
  - by rewrite <- Hperm.
  - intros pc. rewrite Hall, <- !elem_of_app, app_assoc.
    rewrite <- (app_assoc _ (closedConnections sv)). by rewrite Hperm.
  - by apply Map_delete_unique.
  - intros u [Hu Hne]%Map_delete_keys_elem. apply Map_delete_keys_elem. auto.
  - intros u [Hu Hne]%Map_delete_keys_elem. apply Map_delete_keys_elem. auto.
Qed.

Lemma createPeerConnection_service_ok sv userId :
  service_ok sv → service_ok (createPeerConnection sv userId).1.
Proof.
  intros Hsv. unfold createPeerConnection.
  set (sv1 := if Map_has userId (peerConnections sv) then _ else sv).
  assert (H1 : service_ok sv1 ∧ Map_get userId (peerConnections sv1) = None).
  { subst sv1. destruct (Map_has userId (peerConnections sv)) eqn:Hhas.
    - split; [by apply closePeerConnection_service_ok|].
      destruct (closePeerConnection_maps sv userId) as (-> & _).
      apply Map_get_delete_eq.
    - split; [done|]. by apply Map_has_false. }
  clearbody sv1. destruct H1 as [(Hk & Hv & Hall & Hlk & Hls & Hrs) Hnone].
  unfold service_ok. cbn [fst peerConnections localStreams remoteStreams allocated
                            closedConnections].
  assert (Hfresh : allocated sv1 ∉ (peerConnections sv1).*2 ++ closedConnections sv1).
  { intros Hin%elem_of_app%Hall. lia. }
  split_and!.
  - by apply Map_set_NoDup.
  - rewrite Map_set_absent by done. rewrite fmap_app. simpl.
    rewrite <- app_assoc. simpl. rewrite <- Permutation_middle.
    by apply NoDup_cons.
  - intros pc. rewrite Map_set_absent by done. rewrite fmap_app. simpl.
    rewrite elem_of_app, list_elem_of_singleton.
    specialize (Hall pc). split.
    + intros Hlt. destruct (decide (pc = allocated sv1)) as [->|]; [by left; right|].
      assert (Hlt' : pc < allocated sv1) by lia. apply Hall in Hlt'. tauto.
    + intros [[Hin| ->]|Hin]; [| lia |]; assert (pc < allocated sv1) by tauto; lia.
  - done.
  - intros u Hu. apply Map_set_keys_elem. right. by apply Hls.
  - intros u Hu. apply Map_set_keys_elem. right. by apply Hrs.
Qed.

Lemma cleanup_service_ok ks sv :
  service_ok sv → service_ok (foldl closePeerConnection sv ks).
Proof.
  revert sv. induction ks as [|k ks IH]; intros sv Hsv; simpl; [done|].
  by apply IH, closePeerConnection_service_ok.
Qed.

Lemma serviceStep_service_ok sv op sv' :
  service_ok sv → serviceStep sv op = Some sv' → service_ok sv'.
Proof.
  intros Hsv. destruct op as [u|u stream|u remoteStream|u st|u|]; simpl.
  - intros [= <-]. by apply createPeerConnection_service_ok.
  - intros [= <-]. unfold addLocalStream.
    destruct (Map_get u (peerConnections sv)) as [pc|] eqn:Hg; [|done].
    destruct stream as [stream|]; [|done].
    destruct Hsv as (Hk & Hv & Hall & Hlk & Hls & Hrs). unfold service_ok. simpl.
    split_and!; try done.
    + by apply Map_set_NoDup.
    + intros u' [->|Hu]%Map_set_keys_elem; [|by apply Hls].
      apply Map_get_elem in Hg. by apply (list_elem_of_fmap_2 fst _ (u, pc)).
  - destruct (Map_has u (peerConnections sv)) eqn:Hhas; [|done]. intros [= <-].
    destruct Hsv as (Hk & Hv & Hall & Hlk & Hls & Hrs). unfold service_ok. simpl.
    split_and!; try done.
    intros u' [->|Hu]%Map_set_keys_elem; [|by apply Hrs].
    apply Map_has_true in Hhas as [pc Hg]. apply Map_get_elem in Hg.
    by apply (list_elem_of_fmap_2 fst _ (u, pc)).
  - destruct (Map_has u (peerConnections sv)); [|done]. intros [= <-].
    unfold onconnectionstatechange. destruct (_ || _); [|done].
    by apply closePeerConnection_service_ok.
  - intros [= <-]. by apply closePeerConnection_service_ok.
  - intros [= <-]. by apply cleanup_service_ok.
Qed.

Lemma serviceRun_service_ok ops sv sv' :
  service_ok sv → serviceRun sv ops = Some sv' → service_ok sv'.
Proof.
  revert sv. induction ops as [|op ops IH]; simpl; intros sv Hsv.
  - by intros [= <-].
  - destruct (serviceStep sv op) as [sv1|] eqn:Hop; [|done].
    apply IH. by eapply serviceStep_service_ok.
Qed.

Lemma newService_service_ok : service_ok newService.
Proof.
  unfold service_ok. simpl. split_and!; try apply NoDup_nil_2;
    try (by intros u ?%elem_of_nil).
  intros pc. split; [lia|]. by intros [?%elem_of_nil|?%elem_of_nil].
Qed.

(** X28. Whatever is done with a fresh service (its callbacks firing only
    for connections that are open), its bookkeeping stays consistent: every
    connection it has created is either the current connection of exactly
    one user or has been closed, never both, and never closed twice; so
    replacing a user's connection never leaks the old one. A local or remote
    stream is kept only for a user that has a connection. *)
Theorem X28_no_connection_is_leaked (ops : list serviceOp) (sv : service) :
  serviceRun newService ops = Some sv →
  (∀ pc, pc < allocated sv ↔
         (∃ userId, (userId, pc) ∈ peerConnections sv) ∨ pc ∈ closedConnections sv)
  ∧ (∀ userId pc, (userId, pc) ∈ peerConnections sv →
       Map_get userId (peerConnections sv) = Some pc
       ∧ (pc ∉ closedConnections sv)
       ∧ ∀ other, (other, pc) ∈ peerConnections sv → other = userId)
  ∧ NoDup (closedConnections sv)
  ∧ (∀ userId stream, Map_get userId (localStreams sv) = Some stream →
       ∃ pc, Map_get userId (peerConnections sv) = Some pc)
  ∧ (∀ userId stream, Map_get userId (remoteStreams sv) = Some stream →
       ∃ pc, Map_get userId (peerConnections sv) = Some pc).
Proof.
  intros Hrun.
  destruct (serviceRun_service_ok ops _ _ newService_service_ok Hrun)
    as (Hk & Hv & Hall & Hlk & Hls & Hrs).
  apply NoDup_app in Hv as (Hvals & Hsep & Hclosed).
  assert (Hbound : ∀ (A : Type) (m : list (string * A)) u x,
            Map_get u m = Some x → u ∈ m.*1).
  { intros A m u x Hg%Map_get_elem. by apply (list_elem_of_fmap_2 fst _ (u, x)). }
  assert (Hhas : ∀ u, u ∈ (peerConnections sv).*1 →
                      ∃ pc, Map_get u (peerConnections sv) = Some pc).
  { intros u Hu. destruct (Map_get u (peerConnections sv)) eqn:Hg; [by eexists|].
    by apply Map_get_None in Hg. }
  split_and!.
  - intros pc. rewrite Hall, list_elem_of_fmap. split.
    + intros [[[u pc'] [-> Hin]]|Hin]; [left; by exists u|by right].
    + intros [[u Hin]|Hin]; [left; by exists (u, pc)|by right].
  - intros u pc Hin. split_and!.
    + by apply Map_get_unique.
    + apply Hsep. by apply (list_elem_of_fmap_2 snd _ (u, pc)).
    + intros other Hother.
      apply list_elem_of_lookup in Hin as [i Hi], Hother as [j Hj].
      assert (i = j) as ->.
      { apply (NoDup_lookup _ i j pc Hvals); rewrite list_lookup_fmap;
          [by rewrite Hi|by rewrite Hj]. }
      congruence.
  - done.
  - intros u stream Hg. by eapply Hhas, Hls, Hbound.
  - intros u stream Hg. by eapply Hhas, Hrs, Hbound.
Qed.

Lemma X28_witness :
  ∃ sv, serviceRun newService [OpCreate "bob"; OpCreate "bob"] = Some sv
        ∧ NoDup (closedConnections sv).
Proof.
  destruct (serviceRun newService [OpCreate "bob"; OpCreate "bob"]) as [sv|] eqn:H1;
    [|vm_compute in H1; discriminate H1].
  destruct (X28_no_connection_is_leaked _ sv H1) as (_ & _ & Hnd & _).
  exists sv. split; [reflexivity|exact Hnd].
Defined.

Lemma filter_none {A} (P : A → Prop) `{∀ x, Decision (P x)} (l : list A) :
  (∀ x, x ∈ l → ¬ P x) → filter P l = [].
Proof.
  induction l as [|x l IH]; intros Hl; [done|].
  rewrite filter_cons, decide_False by (apply Hl; left).
  apply IH. intros y Hy. apply Hl. by right.
Qed.

Lemma filter_all {A} (P : A → Prop) `{∀ x, Decision (P x)} (l : list A) :
  (∀ x, x ∈ l → P x) → filter P l = l.
Proof.
  induction l as [|x l IH]; intros Hl; [done|].
  rewrite filter_cons, decide_True by (apply Hl; left).
  f_equal. apply IH. intros y Hy. apply Hl. by right.
Qed.

Lemma cleanup_maps ks sv :
  let sv' := foldl closePeerConnection sv ks in
  peerConnections sv' = filter (λ e, e.1 ∉ ks) (peerConnections sv)
  ∧ localStreams sv' = filter (λ e, e.1 ∉ ks) (localStreams sv)
  ∧ remoteStreams sv' = filter (λ e, e.1 ∉ ks) (remoteStreams sv)
  ∧ allocated sv' = allocated sv.
Proof.
  revert sv. induction ks as [|k ks IH]; intros sv; simpl.
  - split_and!; try done; symmetry; apply filter_all;
      intros x _; apply not_elem_of_nil.
  - destruct (IH (closePeerConnection sv k)) as (-> & -> & -> & ->).
    destruct (closePeerConnection_maps sv k) as (-> & -> & -> & -> & _).
    unfold Map_delete. rewrite !list_filter_filter.
    split_and!; try done; apply list_filter_iff; intros [k' x]; simpl;
      rewrite not_elem_of_cons; tauto.
Qed.

Lemma cleanup_stops ks sv userId stream track :
  NoDup (localStreams sv).*1 →
  (userId, stream) ∈ localStreams sv → track ∈ getTracks stream →
  (userId, stream) ∈ localStreams (foldl closePeerConnection sv ks)
  ∨ track ∈ stoppedTracks (foldl closePeerConnection sv ks).
Proof.
  revert sv. induction ks as [|k ks IH]; intros sv Hnd Hin Ht; simpl; [by left|].
  destruct (closePeerConnection_maps sv k) as (_ & Els & _ & _ & _ & Est & _).
  assert (Hmono : ∀ ks' sv', track ∈ stoppedTracks sv' →
                    track ∈ stoppedTracks (foldl closePeerConnection sv' ks')).
  { induction ks' as [|k' ks' IH']; intros sv' Hs; simpl; [done|]. apply IH'.
    destruct (closePeerConnection_maps sv' k') as (_ & _ & _ & _ & _ & -> & _).
    apply elem_of_app. by left. }
  destruct (decide (userId = k)) as [->|Hne].
  - right. apply Hmono. rewrite Est, (Map_get_unique k stream _ Hnd Hin). simpl.
    apply elem_of_app. by right.
  - apply IH; [| |done].
    + rewrite Els. by apply Map_delete_unique.
    + rewrite Els. by apply elem_of_Map_delete.
Qed.

(** X29. [cleanup()] on a service reached from a fresh one empties all
    three maps: afterwards every connection ever created is closed, and
    every track of every local stream that was kept has been stopped. *)
Theorem X29_cleanup_closes_everything (ops : list serviceOp) (sv : service) :
  serviceRun newService ops = Some sv →
  let sv' := cleanup sv in
  peerConnections sv' = [] ∧ localStreams sv' = [] ∧ remoteStreams sv' = []
  ∧ (∀ pc, pc < allocated sv → pc ∈ closedConnections sv')
  ∧ (∀ userId stream track,
       Map_get userId (localStreams sv) = Some stream → track ∈ getTracks stream →
       track ∈ stoppedTracks sv').
Proof.
  intros Hrun sv'.
  pose proof (serviceRun_service_ok ops _ _ newService_service_ok Hrun) as Hok.
  pose proof (cleanup_service_ok (peerConnections sv).*1 sv Hok) as Hok'.
  destruct (cleanup_maps (peerConnections sv).*1 sv) as (Hpc & Hls & Hrs & Hal).
  fold (cleanup sv) in Hok', Hpc, Hls, Hrs, Hal. fold sv' in Hok', Hpc, Hls, Hrs, Hal.
  destruct Hok as (Hk & Hv & Hall & Hlk & Hlsub & Hrsub).
  assert (Epc : peerConnections sv' = []).
  { rewrite Hpc. apply filter_none. intros [u pc] Hin Hn. apply Hn.
    by apply (list_elem_of_fmap_2 fst _ (u, pc)). }
  assert (Els : localStreams sv' = []).
  { rewrite Hls. apply filter_none. intros [u st] Hin Hn. apply Hn, Hlsub.
    by apply (list_elem_of_fmap_2 fst _ (u, st)). }
  assert (Ers : remoteStreams sv' = []).
  { rewrite Hrs. apply filter_none. intros [u st] Hin Hn. apply Hn, Hrsub.
    by apply (list_elem_of_fmap_2 fst _ (u, st)). }
  split_and!; [done..| |].
  - intros pc Hlt. destruct Hok' as (_ & _ & Hall' & _).
    rewrite <- Hal in Hlt. apply Hall' in Hlt as [Hin|Hin]; [|done].
    rewrite Epc in Hin. by apply elem_of_nil in Hin.
  - intros u stream track Hg%Map_get_elem Ht.
    destruct (cleanup_stops (peerConnections sv).*1 sv u stream track Hlk Hg Ht)
      as [Hin|Hin]; [|done].
    fold (cleanup sv) in Hin. fold sv' in Hin. rewrite Els in Hin.
    by apply elem_of_nil in Hin.
Qed.

Lemma X29_witness :
  ∃ sv, serviceRun newService
          [OpCreate "bob"; OpAddLocalStream "bob" (Some (mkStream 7 [1; 2]));
           OpCreate "eve"] = Some sv
        ∧ peerConnections (cleanup sv) = [].
Proof.
  destruct (serviceRun newService
              [OpCreate "bob"; OpAddLocalStream "bob" (Some (mkStream 7 [1; 2]));
               OpCreate "eve"]) as [sv|] eqn:H1;
    [|vm_compute in H1; discriminate H1].
  destruct (X29_cleanup_closes_everything _ sv H1) as (Hpc & _).
  exists sv. split; [reflexivity|exact Hpc].
Defined.
